(** * EastAgileTracker: the migration engine, embedded and verified

    A shallow embedding of the Pivotal Tracker migration tool: the
    token-bucket [RateLimiter] and the paginating client of [api.py], the
    retrying HTTP client of [jira/api.py], the retry decorator of
    [linear/utils.py], and the Jira and Linear migration orchestrators with
    their per-entity migrators.

    Conventions of the embedding.
    - A Python [str] is a [string] whose characters are code points below
      256; the character classes of [str.isalnum], [str.isdigit] and
      [str.strip] are the ones Python gives to these code points. The
      upper case of the code points 181 and 255 lies above 255: what is
      stated of [str.upper] leaves these two out.
    - Python [int] is [Z]. A Python [float] is an IEEE 754 double in
      [Doubles], where the arithmetic of the limiter of [api.py] is
      followed operation by operation; elsewhere a [float] is a duration
      that is only passed on, and is a [Q].
    - A file opened in text mode is read with universal newlines; its
      content is taken to be text.
    - [asyncio.sleep] is recorded with its argument and returns.
    - A raised exception is a value [Raise e] threaded through every call;
      [e] records the exception class and its message.
    - A remote system is a function from the calls made so far and the call
      being made to the outcome of that call; every call issued is appended
      to a trace, whatever its outcome.
    - Progress bars and log lines have no effect on control flow and are
      left out. *)

From stdpp Require Import gmap strings list.
From Stdlib Require Import Ascii String QArith DecimalString DecimalZ Lqa Sorted.
From Stdlib Require Floats.

Open Scope string_scope.
Open Scope Z_scope.

Set Warnings "-register-all".

(** * Python primitives *)

Module Py.

(** ** Exceptions *)

Inductive exn_class :=
| Exception
| KeyError | ValueError | TypeError | NameError | AttributeError
| IndexError | ZeroDivisionError | OverflowError | FileNotFoundError
| ClientError                      (* aiohttp.ClientError, transport level *)
| TransportServerError             (* gql: the server answered >= 400 *)
| APIError                         (* exceptions.py *)
| JiraMigrationError | JiraAPIError | RateLimitError | ProjectCreationError
| IssueMigrationError | CommentMigrationError | UserMigrationError
| SprintMigrationError
| LinearMigrationError | LinearAPIError | ConfigurationError
| TeamCreationError | LinearProjectCreationError | LinearUserMigrationError
| CycleMigrationError | LinearIssueMigrationError
| LinearCommentMigrationError | RelationMigrationError.

#[global] Instance exn_class_eq_dec : EqDecision exn_class.
Proof. solve_decision. Defined.

(** The direct base class, as the [class X(Y)] lines of
    [jira/exceptions.py] and [linear/exceptions.py] give it. *)
Definition base (c : exn_class) : option exn_class :=
  match c with
  | Exception => None
  | JiraAPIError | IssueMigrationError | CommentMigrationError
  | UserMigrationError | SprintMigrationError => Some JiraMigrationError
  | RateLimitError | ProjectCreationError => Some JiraAPIError
  | LinearAPIError | ConfigurationError | LinearUserMigrationError
  | LinearIssueMigrationError | LinearCommentMigrationError
  | CycleMigrationError | RelationMigrationError
  | TeamCreationError | LinearProjectCreationError => Some LinearMigrationError
  | _ => Some Exception
  end.

(** [issubclass c d], the test an [except d] clause makes. The hierarchy
    is at most four classes deep. *)
Fixpoint issubclass_fuel (n : nat) (c d : exn_class) : bool :=
  if decide (c = d) then true
  else match n, base c with
       | S n', Some b => issubclass_fuel n' b d
       | _, _ => false
       end.

Definition issubclass : exn_class → exn_class → bool := issubclass_fuel 4.
Arguments issubclass : simpl never.

Record exn := mk_exn { cls : exn_class; msg : string }.

Inductive result (A : Type) :=
| Ok (a : A)
| Raise (e : exn).
Arguments Ok {A} a.
Arguments Raise {A} e.

Definition is_ok {A} (r : result A) : bool :=
  match r with Ok _ => true | Raise _ => false end.

(** ** Characters *)

Definition ord (c : ascii) : N := N_of_ascii c.

Definition between (lo hi n : N) : bool := ((lo <=? n) && (n <=? hi))%N.

Definition isdecimal_char (c : ascii) : bool := between 48 57 (ord c).

(** [str.isdigit] also accepts the superscripts two, three and one. *)
Definition isdigit_char (c : ascii) : bool :=
  isdecimal_char c
  || (ord c =? 178)%N || (ord c =? 179)%N || (ord c =? 185)%N.

Definition isalpha_char (c : ascii) : bool :=
  let n := ord c in
  between 65 90 n || between 97 122 n
  || (n =? 170)%N || (n =? 181)%N || (n =? 186)%N
  || between 192 214 n || between 216 246 n || between 248 255 n.

(** The vulgar fractions are numeric without being digits. *)
Definition isnumeric_char (c : ascii) : bool :=
  isdigit_char c || between 188 190 (ord c).

Definition isalnum_char (c : ascii) : bool :=
  isalpha_char c || isdecimal_char c || isdigit_char c || isnumeric_char c.

Definition isspace_char (c : ascii) : bool :=
  let n := ord c in
  between 9 13 n || between 28 32 n || (n =? 133)%N || (n =? 160)%N.

Definition lower_char (c : ascii) : ascii :=
  let n := ord c in
  if between 65 90 n || between 192 214 n || between 216 222 n
  then ascii_of_N (n + 32) else c.

(** ** Strings *)

Fixpoint str_forall (p : ascii → bool) (s : string) : bool :=
  match s with
  | EmptyString => true
  | String c r => p c && str_forall p r
  end.

Fixpoint str_filter (p : ascii → bool) (s : string) : string :=
  match s with
  | EmptyString => EmptyString
  | String c r => if p c then String c (str_filter p r) else str_filter p r
  end.

Fixpoint str_map (f : ascii → ascii) (s : string) : string :=
  match s with
  | EmptyString => EmptyString
  | String c r => String (f c) (str_map f r)
  end.

Fixpoint str_take (n : nat) (s : string) : string :=
  match n, s with
  | S n', String c r => String c (str_take n' r)
  | _, _ => EmptyString
  end.

Definition is_empty (s : string) : bool :=
  match s with EmptyString => true | _ => false end.

(** [c in s] for a one-character [c]. *)
Fixpoint contains (c : ascii) (s : string) : bool :=
  match s with
  | EmptyString => false
  | String d r => if decide (c = d) then true else contains c r
  end.

(** [s[:n]]: the first [n] characters, or all but the last [-n] when [n]
    is negative. *)
Definition slice_to (n : Z) (s : string) : string :=
  if 0 <=? n then str_take (Z.to_nat n) s
  else str_take (String.length s - Z.to_nat (- n)) s.

Definition lower (s : string) : string := str_map lower_char s.

(** [s.isdigit()]: at least one character, all of them digits. *)
Definition isdigit (s : string) : bool :=
  negb (is_empty s) && str_forall isdigit_char s.

Fixpoint lstrip (s : string) : string :=
  match s with
  | EmptyString => EmptyString
  | String c r => if isspace_char c then lstrip r else s
  end.

Fixpoint rstrip (s : string) : string :=
  match s with
  | EmptyString => EmptyString
  | String c r =>
      let r' := rstrip r in
      if isspace_char c && is_empty r' then EmptyString else String c r'
  end.

Definition strip (s : string) : string := rstrip (lstrip s).

(** [s.split(sep)] for a one-character separator: the pieces between the
    separators, at least one piece. [split_aux] returns the first piece
    apart so that the recursion is structural. *)
Fixpoint split_aux (sep : ascii) (s : string) : string * list string :=
  match s with
  | EmptyString => (EmptyString, [])
  | String c r =>
      let '(hd, tl) := split_aux sep r in
      if decide (c = sep) then (EmptyString, hd :: tl)
      else (String c hd, tl)
  end.

Definition split (sep : ascii) (s : string) : list string :=
  let '(hd, tl) := split_aux sep s in hd :: tl.

Definition first_char (s : string) : option ascii :=
  match s with
  | EmptyString => None
  | String c _ => Some c
  end.

Fixpoint last_char (s : string) : option ascii :=
  match s with
  | EmptyString => None
  | String c EmptyString => Some c
  | String _ r => last_char r
  end.

(** ** Integers and text *)

(** [str(n)] for an [int]. *)
Definition str_of_int (n : Z) : string := NilZero.string_of_int (Z.to_int n).

(** Single underscores may separate the digits of an [int] literal. *)
Fixpoint underscores_ok (prev_digit : bool) (s : string) : bool :=
  match s with
  | EmptyString => prev_digit
  | String c r =>
      if decide (c = "_"%char) then prev_digit && underscores_ok false r
      else underscores_ok true r
  end.

Definition drop_underscores (s : string) : string :=
  str_filter (λ c, negb (bool_decide (c = "_"%char))) s.

(** [int(s)] for a [str]: surrounding whitespace, an optional sign, decimal
    digits with optional single underscores between them. Anything else
    raises [ValueError]. *)
Definition int_of_str (s : string) : result Z :=
  let t := strip s in
  let '(neg, body) :=
    match t with
    | String "-" r => (true, r)
    | String "+" r => (false, r)
    | _ => (false, t)
    end in
  let bad := Raise (mk_exn ValueError
                      ("invalid literal for int() with base 10: '" ++ s ++ "'")) in
  if negb (is_empty body) && str_forall (λ c, isdecimal_char c || bool_decide (c = "_"%char)) body
     && underscores_ok false body
  then match NilEmpty.uint_of_string (drop_underscores body) with
       | Some u => Ok (if neg then - Z.of_uint u else Z.of_uint u)
       | None => bad
       end
  else bad.

(** [int(x)] for a [float]: truncation towards zero. *)
Definition int_of_float (x : Q) : Z := Z.quot (Qnum x) (Z.pos (Qden x)).

(** [range(n)]. *)
Definition range (n : Z) : list Z := Z.of_nat <$> seq 0 (Z.to_nat n).

(** ** JSON values, as [response.json()] and the GraphQL client give them *)

Inductive json :=
| JNull
| JBool (b : bool)
| JInt (n : Z)
| JStr (s : string)
| JList (l : list json)
| JDict (d : list (string * json)).

Fixpoint assoc (k : string) (d : list (string * json)) : option json :=
  match d with
  | [] => None
  | (k', v) :: r => if decide (k = k') then Some v else assoc k r
  end.

(** Python truthiness. *)
Definition truthy (j : json) : bool :=
  match j with
  | JNull => false
  | JBool b => b
  | JInt n => negb (n =? 0)
  | JStr s => negb (is_empty s)
  | JList l => match l with [] => false | _ => true end
  | JDict d => match d with [] => false | _ => true end
  end.

(** [str(j)] where the code formats a value of the remote into a key or a
    message; text stays as it is, an [int] is printed in decimal. *)
Definition to_text (j : json) : string :=
  match j with
  | JStr s => s
  | JInt n => str_of_int n
  | JNull => "None"
  | JBool true => "True"
  | JBool false => "False"
  | JList _ => "[...]"
  | JDict _ => "{...}"
  end.

(** [j[k]] for a text key. *)
Definition getitem (j : json) (k : string) : result json :=
  match j with
  | JDict d =>
      match assoc k d with
      | Some v => Ok v
      | None => Raise (mk_exn KeyError ("'" ++ k ++ "'"))
      end
  | JNull => Raise (mk_exn TypeError "'NoneType' object is not subscriptable")
  | JList _ => Raise (mk_exn TypeError "list indices must be integers or slices, not str")
  | JStr _ => Raise (mk_exn TypeError "string indices must be integers")
  | _ => Raise (mk_exn TypeError "object is not subscriptable")
  end.

(** [j.get(k)], defined on dictionaries only. *)
Definition get (j : json) (k : string) : result json :=
  match j with
  | JDict d => Ok (default JNull (assoc k d))
  | _ => Raise (mk_exn AttributeError "object has no attribute 'get'")
  end.

(** ** More of Python on these values *)

(** The line feed. *)
Definition nl : string := String (ascii_of_nat 10) EmptyString.

(** [c.upper()] for one character: a string, since the sharp s becomes two
    letters. The micro sign and the y with diaeresis have their upper case
    above code point 255; they are left as they are. *)
Definition upper_char (c : ascii) : string :=
  let n := ord c in
  if between 97 122 n || between 224 246 n || between 248 254 n
  then String (ascii_of_N (n - 32)) EmptyString
  else if (n =? 223)%N then "SS"
  else String c EmptyString.

(** [len(j)]. *)
Definition len (j : json) : result Z :=
  match j with
  | JList l => Ok (Z.of_nat (List.length l))
  | JDict d => Ok (Z.of_nat (List.length d))
  | JStr s => Ok (Z.of_nat (String.length s))
  | JNull => Raise (mk_exn TypeError "object of type 'NoneType' has no len()")
  | JBool _ => Raise (mk_exn TypeError "object of type 'bool' has no len()")
  | JInt _ => Raise (mk_exn TypeError "object of type 'int' has no len()")
  end.

(** [j[0]]. *)
Definition first_item (j : json) : result json :=
  match j with
  | JList (x :: _) => Ok x
  | JList [] => Raise (mk_exn IndexError "list index out of range")
  | JStr (String c _) => Ok (JStr (String c EmptyString))
  | JStr EmptyString => Raise (mk_exn IndexError "string index out of range")
  | JDict _ => Raise (mk_exn KeyError "0")
  | _ => Raise (mk_exn TypeError "object is not subscriptable")
  end.

(** [for x in j]. *)
Definition iterate (j : json) : result (list json) :=
  match j with
  | JList l => Ok l
  | JDict d => Ok ((λ kv, JStr kv.1) <$> d)
  | JStr s => Ok ((λ c, JStr (String c EmptyString)) <$> list_ascii_of_string s)
  | _ => Raise (mk_exn TypeError "object is not iterable")
  end.

(** [os.path.join(a, b)] on POSIX. *)
Definition path_join (a b : string) : string :=
  match b with
  | String "/" _ => b
  | _ =>
      if is_empty a then b
      else if bool_decide (last_char a = Some "/"%char) then a ++ b
      else a ++ "/" ++ b
  end.

(** A value that is an [int] or a [str]; [==] between the two kinds is
    false, as in Python. *)
Inductive value :=
| VInt (n : Z)
| VStr (s : string).

#[global] Instance value_eq_dec : EqDecision value.
Proof. solve_decision. Defined.

(** A file opened with [open(path, "r")] is read with universal newlines:
    a carriage return, alone or followed by a line feed, is read as a line
    feed. *)
Fixpoint universal_newlines (s : string) : string :=
  match s with
  | EmptyString => EmptyString
  | String c r =>
      if decide (c = ascii_of_nat 13) then
        match r with
        | String c' r' =>
            if decide (c' = ascii_of_nat 10)
            then String (ascii_of_nat 10) (universal_newlines r')
            else String (ascii_of_nat 10) (universal_newlines r)
        | EmptyString => String (ascii_of_nat 10) EmptyString
        end
      else String c (universal_newlines r)
  end.

(** [for line in f] on a file read as text: the lines, here without the
    line feed that ends them; what follows the last line feed is a line
    when it is not empty. After the translation of the newlines only the
    line feed separates lines. *)
Definition lines (content : string) : list string :=
  let pieces := split (ascii_of_nat 10) (universal_newlines content) in
  match List.last pieces EmptyString with
  | EmptyString => removelast pieces
  | _ => pieces
  end.

(** [l[i:i+n] for i in range(0, len(l), n)]. The fuel is the length of
    the list, which bounds the number of chunks. *)
Fixpoint chunks_fuel {A} (fuel : nat) (n : nat) (l : list A) : list (list A) :=
  match fuel, l with
  | _, [] => []
  | O, _ => []
  | S fuel', _ => take n l :: chunks_fuel fuel' n (drop n l)
  end.

Definition chunks {A} (n : nat) (l : list A) : list (list A) :=
  chunks_fuel (List.length l) n l.

(** [s.split()]: the words between runs of whitespace. [cur] is the word
    being read. *)
Fixpoint split_ws_aux (cur : string) (s : string) : list string :=
  match s with
  | EmptyString => if is_empty cur then [] else [cur]
  | String c r =>
      if isspace_char c
      then (if is_empty cur then split_ws_aux EmptyString r
            else cur :: split_ws_aux EmptyString r)
      else split_ws_aux (cur ++ String c EmptyString) r
  end.

Definition split_ws (s : string) : list string := split_ws_aux EmptyString s.

(** A value used as a dictionary key: lists and dictionaries cannot be
    hashed. *)
Definition dict_key (j : json) : result string :=
  match j with
  | JList _ => Raise (mk_exn TypeError "unhashable type: 'list'")
  | JDict _ => Raise (mk_exn TypeError "unhashable type: 'dict'")
  | _ => Ok (to_text j)
  end.

(** [j.lower()], defined on text only. *)
Definition json_lower (j : json) : result string :=
  match j with
  | JStr s => Ok (lower s)
  | _ => Raise (mk_exn AttributeError "object has no attribute 'lower'")
  end.

End Py.

Import Py.

(** * [api.py]: the rate limiter and the paginating client *)

(** [RateLimiter] over the rationals: the limiter when no operation
    rounds. [Doubles.RateLimiter] below is the limiter on doubles. *)
Module RateLimiter.

(** The fields of [class RateLimiter]. *)
Record t := mk
  { rate : Q;
    interval : Q;
    allowance : Q;
    last_check : Q }.

(** [__init__(rate, interval)] at clock reading [now]. *)
Definition init (rate interval now : Q) : t :=
  mk rate interval rate now.

(** What one [acquire] does besides updating the limiter: the durations it
    passes to [asyncio.sleep], in order. *)
Definition sleeps := list Q.

(** [acquire], with the reading of [time.time()] as the input [current].
    The division raises when [interval] is zero; [last_check] has been
    assigned by then. *)
Definition acquire (current : Q) (self : t) : result unit * t * sleeps :=
  let time_passed := (current - last_check self)%Q in
  let self := mk (rate self) (interval self) (allowance self) current in
  if Qeq_bool (interval self) 0 then
    (Raise (mk_exn ZeroDivisionError "division by zero"), self, [])
  else
    let self := mk (rate self) (interval self)
                   (allowance self + time_passed * (rate self / interval self))%Q
                   (last_check self) in
    let self := if Qlt_le_dec (rate self) (allowance self)
                then mk (rate self) (interval self) (rate self) (last_check self)
                else self in
    if Qlt_le_dec (allowance self) 1 then
      (Ok (), mk (rate self) (interval self) 0%Q (last_check self),
        [(1 - allowance self)%Q])
    else
      (Ok (), mk (rate self) (interval self) (allowance self - 1)%Q (last_check self),
        []).

End RateLimiter.

(** ** [api.py]: the limiter in double precision *)

(** Python's numbers as [RateLimiter] meets them: [int], of any size, and
    [float], an IEEE 754 double. The operations are the ones of CPython:
    an operation on two [int] is exact, one that involves a [float] first
    converts an [int] operand to the nearest double, and a comparison of a
    [float] with an [int] compares the exact values. *)
Module Doubles.
Import PrimFloat SpecFloat FloatOps.

Inductive num :=
| Int (z : Z)
| Float (f : float).

(** [float(z)]: the nearest double, ties to even; [OverflowError] when it
    is out of range. *)
Definition float_of_int (z : Z) : result float :=
  match binary_normalize prec emax z 0 false with
  | S754_infinity _ => Raise (mk_exn OverflowError "int too large to convert to float")
  | nearest => Ok (SF2Prim nearest)
  end.

Definition to_float (x : num) : result float :=
  match x with
  | Int z => float_of_int z
  | Float f => Ok f
  end.

(** An [int] as an unrounded binary number. *)
Definition spec_of_int (z : Z) : spec_float :=
  match z with
  | Z0 => S754_zero false
  | Zpos p => S754_finite false p 0
  | Zneg p => S754_finite true p 0
  end.

(** [a / b]. The quotient of two [int] is rounded once, from the exact
    quotient. *)
Definition truediv (a b : num) : result float :=
  match a, b with
  | Int a, Int b =>
      if b =? 0 then Raise (mk_exn ZeroDivisionError "division by zero")
      else
        match SFdiv prec emax (spec_of_int a) (spec_of_int b) with
        | S754_infinity _ =>
            Raise (mk_exn OverflowError "integer division result too large for a float")
        | nearest => Ok (SF2Prim nearest)
        end
  | _, _ =>
      match to_float a with
      | Raise e => Raise e
      | Ok x =>
          match to_float b with
          | Raise e => Raise e
          | Ok y =>
              if PrimFloat.eqb y zero
              then Raise (mk_exn ZeroDivisionError "float division by zero")
              else Ok (PrimFloat.div x y)
          end
      end
  end.

(** [a + b] and [a - b]. *)
Definition arith (on_int : Z → Z → Z) (on_float : float → float → float)
    (a b : num) : result num :=
  match a, b with
  | Int a, Int b => Ok (Int (on_int a b))
  | _, _ =>
      match to_float a with
      | Raise e => Raise e
      | Ok x =>
          match to_float b with
          | Raise e => Raise e
          | Ok y => Ok (Float (on_float x y))
          end
      end
  end.

Definition add : num → num → result num := arith Z.add PrimFloat.add.
Definition sub : num → num → result num := arith Z.sub PrimFloat.sub.

(** The order of a [float] and an [int], on their exact values; a NaN
    compares with nothing. *)
Definition compare_float_int (f : float) (z : Z) : option comparison :=
  match Prim2SF f with
  | S754_nan => None
  | S754_infinity s => Some (if s then Lt else Gt)
  | S754_zero _ => Some (0 ?= z)
  | S754_finite s m e =>
      let n := cond_Zopp s (Zpos m) in
      Some (if 0 <=? e then n * 2 ^ e ?= z else n ?= z * 2 ^ (- e))
  end.

Definition compare (a b : num) : option comparison :=
  match a, b with
  | Int a, Int b => Some (a ?= b)
  | Float a, Int b => compare_float_int a b
  | Int a, Float b => CompOpp <$> compare_float_int b a
  | Float a, Float b =>
      match PrimFloat.compare a b with
      | FEq => Some Eq
      | FLt => Some Lt
      | FGt => Some Gt
      | FNotComparable => None
      end
  end.

(** [a < b] and [a > b]. *)
Definition lt (a b : num) : bool := bool_decide (compare a b = Some Lt).
Definition gt (a b : num) : bool := bool_decide (compare a b = Some Gt).

Module RateLimiter.

(** The fields of [class RateLimiter]; [last_check] is a reading of
    [time.time()]. *)
Record t := mk
  { rate : num;
    interval : num;
    allowance : num;
    last_check : float }.

(** [__init__(rate, interval)] at clock reading [now]. *)
Definition init (rate interval : num) (now : float) : t :=
  mk rate interval rate now.

Definition set_allowance (a : num) (self : t) : t :=
  mk (rate self) (interval self) a (last_check self).

(** [acquire], with the reading of [time.time()] as the input [current];
    the third component lists the durations passed to [asyncio.sleep].
    [last_check] is assigned before the allowance is computed, so it is
    kept when the computation raises. *)
Definition acquire (current : float) (self : t) : result unit * t * list num :=
  let time_passed := PrimFloat.sub current (last_check self) in
  let self := mk (rate self) (interval self) (allowance self) current in
  match truediv (rate self) (interval self) with
  | Raise e => (Raise e, self, [])
  | Ok per_second =>
      match add (allowance self) (Float (PrimFloat.mul time_passed per_second)) with
      | Raise e => (Raise e, self, [])
      | Ok refilled =>
          let self := set_allowance refilled self in
          let self := if gt (allowance self) (rate self)
                      then set_allowance (rate self) self
                      else self in
          if lt (allowance self) (Int 1) then
            match sub (Int 1) (allowance self) with
            | Raise e => (Raise e, self, [])
            | Ok delay => (Ok (), set_allowance (Int 0) self, [delay])
            end
          else
            match sub (allowance self) (Int 1) with
            | Raise e => (Raise e, self, [])
            | Ok rest => (Ok (), set_allowance rest self, [])
            end
      end
  end.

End RateLimiter.

End Doubles.

Module PivotalTrackerAPI.

(** [_paginate(endpoint)]. The remote side is [fetch]: the answer of
    [_request("GET", endpoint, params)] to the [n]-th request of this call,
    made with the given [offset] ([limit] is always 100). The loop is
    [while True], so the model takes fuel and returns [None] when the fuel
    runs out before the loop ends. The second component lists the offsets
    requested, in order. *)
Section Paginate.
Variable fetch : nat → Z → result json.

Definition limit : Z := 100.

Fixpoint paginate_loop (fuel : nat) (n : nat) (offset : Z)
    (all_items : list json) (asked : list Z)
  : option (result json) * list Z :=
  match fuel with
  | O => (None, asked)
  | S fuel' =>
      let asked := (asked ++ [offset])%list in
      match fetch n offset with
      | Raise e => (Some (Raise e), asked)
      | Ok (JList items) =>
          let all_items := (all_items ++ items)%list in
          if Z.of_nat (List.length items) <? limit
          then (Some (Ok (JList all_items)), asked)
          else paginate_loop fuel' (S n) (offset + limit) all_items asked
      | Ok items => (Some (Ok items), asked)
      end
  end.

Definition _paginate (fuel : nat) : option (result json) * list Z :=
  paginate_loop fuel 0%nat 0 [] [].
End Paginate.

End PivotalTrackerAPI.

(** * [jira/api.py]: one request, with its retries *)

Module JiraAPI.

(** What one call of [_request] sends; it does not change between the
    attempts. *)
Record request := mk_request
  { method : string;
    url : string;
    data : json }.

(** What one attempt meets: a response, or a failure below HTTP
    ([aiohttp.ClientError] that is not a [ClientResponseError]). A response
    below 400 other than 204 is taken to carry the JSON value [payload];
    [text] is the body as [response.text()] reads it. *)
Inductive outcome :=
| Response (status : Z) (reason : string) (headers : list (string * string))
    (text : string) (payload : json)
| ClientFailure (text : string).

Inductive event :=
| Send (r : request)
| Sleep (seconds : Q).

(** [headers.get(name)]: header names compare without case. *)
Fixpoint header (name : string) (headers : list (string * string)) : option string :=
  match headers with
  | [] => None
  | (k, v) :: r => if decide (lower k = lower name) then Some v else header name r
  end.

Section Request.
(** [Config.MAX_RETRIES] and [Config.RATE_LIMIT_PAUSE]. *)
Variable MAX_RETRIES : Z.
Variable RATE_LIMIT_PAUSE : Q.
(** The outcome of the [n]-th attempt of this call, [n] from 0. *)
Variable server : nat → outcome.
Variable req : request.

Definition http_error_text (status : Z) (message : string) : string :=
  "HTTP Error: " ++ str_of_int status ++ ", message='" ++ message
  ++ "', url='" ++ url req ++ "'".

(** [int(e.headers.get("Retry-After", Config.RATE_LIMIT_PAUSE))]. *)
Definition retry_after (headers : list (string * string)) : result Z :=
  match header "Retry-After" headers with
  | Some v => int_of_str v
  | None => Ok (int_of_float RATE_LIMIT_PAUSE)
  end.

(** The body of [for attempt in range(Config.MAX_RETRIES)], and the
    [raise RateLimitError] after the loop. *)
Fixpoint request_loop (attempts : list Z) (tr : list event)
  : result json * list event :=
  match attempts with
  | [] =>
      (Raise (mk_exn RateLimitError "Rate limit exceeded and max retries reached"), tr)
  | attempt :: rest =>
      let tr := (tr ++ [Send req])%list in
      match server (Z.to_nat attempt) with
      | Response status reason headers text payload =>
          if 400 <=? status then
            if status =? 429 then
              match retry_after headers with
              | Ok seconds =>
                  request_loop rest (tr ++ [Sleep (inject_Z seconds)])%list
              | Raise e => (Raise e, tr)
              end
            else
              (Raise (mk_exn JiraAPIError
                        (http_error_text status (reason ++ ": " ++ text))), tr)
          else if status =? 204 then (Ok JNull, tr)
          else (Ok payload, tr)
      | ClientFailure text =>
          if attempt =? MAX_RETRIES - 1 then
            (Raise (mk_exn JiraAPIError
                      ("Request failed after " ++ str_of_int MAX_RETRIES
                       ++ " attempts: " ++ text)), tr)
          else request_loop rest (tr ++ [Sleep RATE_LIMIT_PAUSE])%list
      end
  end.

Definition _request : result json * list event :=
  request_loop (range MAX_RETRIES) [].

End Request.

(** The attempts made and the seconds slept, read off the events. *)
Definition attempts (tr : list event) : nat :=
  List.length (List.filter (λ e, match e with Send _ => true | _ => false end) tr).


End JiraAPI.

(** * [linear/utils.py], [linear/api.py]: the retry decorator and the query *)

Module LinearAPI.

(** What [client.execute_async] meets: the data of the answer, an HTTP
    status of 400 or more, which the transport raises as
    [TransportServerError], or another exception. *)
Inductive outcome :=
| Data (j : json)
| HttpError (status : Z) (text : string)
| Failure (e : exn).

Inductive event :=
| Execute (query : string)
| Sleep (seconds : Q).

Section Retry.
Context {A : Type}.
Variable max_retries : Z.
Variable delay : Q.
(** [func n tr] is the [n]-th call of the decorated function: its result and
    the events it adds. *)
Variable func : nat → result A * list event.

Definition call (n : nat) (tr : list event) : result A * list event :=
  let '(r, evs) := func n in (r, (tr ++ evs)%list).

(** [retry_async(max_retries, delay)(func)]. [left] is [max_retries - retries]
    while the loop runs; at zero the condition of the [while] is false and
    the call after the loop is made. *)
Fixpoint retry_loop (left : nat) (retries : Z) (n : nat) (tr : list event)
  : result A * list event :=
  match left with
  | O => call n tr
  | S left' =>
      match call n tr with
      | (Ok a, tr) => (Ok a, tr)
      | (Raise e, tr) =>
          let retries := retries + 1 in
          if retries =? max_retries then (Raise e, tr)
          else retry_loop left' retries (S n)
                 (tr ++ [Sleep (delay * inject_Z (2 ^ (retries - 1)))%Q])%list
      end
  end.

Definition retry_async : result A * list event :=
  retry_loop (Z.to_nat max_retries) 0 0%nat [].

End Retry.

(** The body of [execute_query]: every exception becomes a
    [LinearAPIError]. *)
Definition execute_once (server : nat → outcome) (query : string) (n : nat)
  : result json * list event :=
  let wrap text := Raise (mk_exn LinearAPIError ("API request failed: " ++ text)) in
  (match server n with
   | Data j => Ok j
   | HttpError status text => wrap (str_of_int status ++ ", message='" ++ text ++ "'")
   | Failure e => wrap (msg e)
   end, [Execute query]).


Definition attempts (tr : list event) : nat :=
  List.length (List.filter (λ e, match e with Execute _ => true | _ => false end) tr).

End LinearAPI.

(** * Effects: remote calls, program state, exceptions *)

Module Eff.

Section Defs.
Context {C S : Type}.

(** What the program cannot see into: the remote system, which answers a
    call knowing the calls made before it, and the attachment store. *)
Record env := mk_env
  { remote : list C → C → result json;
    readable : string → bool }.

(** The calls issued so far, oldest first, and the state of the program's
    own mutable objects. *)
Record world := mk_world
  { trace : list C;
    vars : S }.

Definition M (A : Type) : Type := env → world → result A * world.

Definition ret {A} (a : A) : M A := λ _ w, (Ok a, w).

Definition bind {A B} (m : M A) (k : A → M B) : M B :=
  λ e w, match m e w with
         | (Ok a, w') => k a e w'
         | (Raise x, w') => (Raise x, w')
         end.

Definition raise {A} (c : exn_class) (text : string) : M A :=
  λ _ w, (Raise (mk_exn c text), w).

(** [lift r] continues with a pure computation that may have raised. *)
Definition lift {A} (r : result A) : M A := λ _ w, (r, w).

(** [try: body / except c as x: handler x]. State changes made by [body]
    before it raised are kept. *)
Definition catch {A} (c : exn_class) (body : M A) (handler : exn → M A) : M A :=
  λ e w, match body e w with
         | (Raise x, w') =>
             if issubclass (cls x) c then handler x e w' else (Raise x, w')
         | r => r
         end.

(** One call of a method of the API client. *)
Definition api (c : C) : M json :=
  λ e w, (remote e (trace w) c, mk_world (trace w ++ [c])%list (vars w)).

(** [open(path, "rb")]. *)
Definition open_rb (path : string) : M unit :=
  λ e w, if readable e path then (Ok (), w)
         else (Raise (mk_exn FileNotFoundError
                        ("[Errno 2] No such file or directory: '" ++ path ++ "'")), w).

(** [os.path.exists(path)]. *)
Definition path_exists (path : string) : M bool :=
  λ e w, (Ok (readable e path), w).

Definition get_state : M S := λ _ w, (Ok (vars w), w).

Definition modify (f : S → S) : M unit :=
  λ _ w, (Ok (), mk_world (trace w) (f (vars w))).

(** [for x in l: acc = f acc x], leaving at the first exception. *)
Fixpoint for_fold {A B} (f : B → A → M B) (l : list A) (acc : B) : M B :=
  match l with
  | [] => ret acc
  | x :: r => bind (f acc x) (for_fold f r)
  end.

Definition for_each {A} (f : A → M unit) (l : list A) : M unit :=
  for_fold (λ _ x, f x) l ().

End Defs.

Arguments env : clear implicits.
Arguments world : clear implicits.
Arguments M : clear implicits.

#[global] Instance M_ret {C S} : MRet (M C S) := @ret C S.
#[global] Instance M_bind {C S} : MBind (M C S) := λ A B k m, bind m k.

End Eff.

Import Eff.

(** * [models.py]: the source entities

    Timestamps are copied to the destination objects and never inspected;
    they are left out, except the start and finish of an iteration, kept as
    the text [isoformat] gives. A nullable column is an [option]. *)

Module Person.
Record t := mk { id : Z; name : string; email : string }.
End Person.

Module Label.
Record t := mk { id : Z; name : string }.
End Label.

Module Epic.
Record t := mk
  { id : Z;
    label_id : Z;
    name : option string;
    description : option string }.
End Epic.

Module Task.
Record t := mk { id : Z; description : string; complete : bool }.
End Task.

Module FileAttachment.
Record t := mk
  { id : Z;
    filename : string;
    uploader_id : option Z;
    file_path : option string }.
End FileAttachment.

Module Comment.
Record t := mk
  { id : Z;
    text : option string;
    person_id : Z;
    file_attachments : list FileAttachment.t }.
End Comment.

(** [story_id] is the story the blocker belongs to: [blocker.story] is the
    back reference of [story.blockers]. *)
Module Blocker.
Record t := mk
  { id : Z;
    story_id : option Z;
    description : string;
    resolved : bool }.
End Blocker.

(** [iteration] is the number of the iteration the story is planned in. *)
Module Story.
Record t := mk
  { id : Z;
    name : string;
    description : option string;
    story_type : string;
    current_state : string;
    estimate : option Q;
    requested_by_id : Z;
    story_priority : option string;
    owners : list Person.t;
    labels : list Label.t;
    comments : list Comment.t;
    blockers : list Blocker.t;
    tasks : list Task.t;
    iteration : option Z }.
End Story.

Module Iteration.
Record t := mk
  { number : Z;
    start : option string;
    finish : option string;
    stories : list Story.t }.
End Iteration.

Module Project.
Record t := mk
  { id : Z;
    name : string;
    description : option string;
    members : list Person.t;
    labels : list Label.t;
    epics : list Epic.t;
    iterations : list Iteration.t;
    stories : list Story.t }.
End Project.

(** How an f-string prints a nullable text. *)
Definition fmt_opt (o : option string) : string := default "None" o.

(** * The Jira migration: [jira/migrators/*.py], [jira/main.py] *)

Module Jira.

(** ** [jira/models.py]: the destination objects, with the fields that
    are read again *)

Module JiraUser.
Record t := mk
  { email : json;
    display_name : json;
    account_id : json;
    active : json }.
End JiraUser.

(** [board_id] is an attribute set after construction; [None] is the
    attribute not set. *)
Module JiraProject.
Record t := mk
  { key : json;
    name : string;
    description : string;
    url : json;
    board_id : option json }.
End JiraProject.

Module JiraSubTask.
Record t := mk
  { key : json;
    summary : string;
    status : string;
    parent_key : json }.
End JiraSubTask.

Module JiraIssue.
Record t := mk
  { key : json;
    summary : string;
    issue_type : string;
    status : string;
    labels : list string }.
End JiraIssue.

Module JiraEpic.
Record t := mk { key : json; summary : option string }.
End JiraEpic.

Module JiraAttachment.
Record t := mk { filename : json; size : json }.
End JiraAttachment.

Module JiraComment.
Record t := mk { id : string; body : json }.
End JiraComment.

Module JiraSprint.
Record t := mk { id : json; name : json; board_id : json }.
End JiraSprint.

(** ** The calls of [JiraAPI] the migrators make *)

Record issue_fields := mk_issue_fields
  { assignee : option json;
    reporter : option json;
    issue_labels : list string;
    priority : string }.

Record sprint_data := mk_sprint_data
  { sprint_name : string;
    startDate : option string;
    endDate : option string;
    originBoardId : json;
    goal : string }.

Inductive call :=
| create_project (key name description : string)
| assign_workflow_scheme_to_project (project_id : json) (scheme_id : Z)
| create_filter_for_project (project_key : json)
| create_board (project_key filter_id : json)
| get_issue_screen_ids (project_key : json)
| get_screen_tab_id (screen_id : json)
| add_custom_field_to_screen_tab (screen_id tab_id : json) (field : string)
| get_project_role_id (project_key : json) (role_name : string)
| add_user_to_project_role (project_key role_id : json) (user_id : option string)
| get_user (email : string)
| create_user (email : string)
| create_epic (project_key : json) (name description : option string)
| create_issue (project_key : json) (issue_type summary : string)
    (description : option string) (fields : issue_fields)
| update_issue (issue_key : json) (field : string) (story_points : Q)
| transition_issue (issue_key : json) (status : string)
| create_subtask (parent_key : json) (summary : string)
| link_issue_to_epic (issue_key epic_key : json)
| create_blocker_link (blocker_key blocked_key : json)
| create_sprint (data : sprint_data)
| add_issues_to_sprint (sprint_id : json) (issue_keys : list json)
| add_attachment_to_issue (issue_key : json) (full_path filename : string)
| create_comment (issue_key : json) (body : string).

(** ** The mutable state: the user map of [UserMigrator] and the file
    [jira/imported_projects.txt], [None] while it does not exist *)

Record state := mk_state
  { user_map : gmap Z JiraUser.t;
    imported_projects_file : option string }.

Definition set_user_map (f : gmap Z JiraUser.t → gmap Z JiraUser.t) (st : state) : state :=
  mk_state (f (user_map st)) (imported_projects_file st).

Definition set_file (f : option string → option string) (st : state) : state :=
  mk_state (user_map st) (f (imported_projects_file st)).

Abbreviation M := (Eff.M call state).

(** ** [jira/config.py] *)

Record config := mk_config
  { JIRA_ACCOUNT_ID : option string;
    JIRA_STORY_POINTS_FIELD : string;
    GLOBAL_WORKFLOW_SCHEME_ID : Z;
    base_directory : string }.

Definition JIRA_CUSTOM_FIELDS (cfg : config) : list string :=
  [JIRA_STORY_POINTS_FIELD cfg; "assignee"; "labels"].

(** ** [jira/utils.py]: the imported projects *)

Definition mark_project_as_imported (project_id : Z) : M unit :=
  modify (set_file (λ f, Some (default "" f ++ str_of_int project_id ++ nl))).

(** [set(int(line.strip()) for line in f if line.strip())] *)
Definition get_imported_projects : M (list value) :=
  st ← get_state;
  match imported_projects_file st with
  | None => mret []
  | Some content =>
      for_fold (λ acc line,
                  if is_empty (strip line) then mret acc
                  else n ← lift (int_of_str (strip line)); mret (acc ++ [VInt n])%list)
        (lines content) []
  end.

(** ** [main.py]: the objects handed to the migrators *)

Record prepared_epic := mk_prepared_epic
  { pe_id : Z;
    pe_name : option string;
    pe_description : option string;
    pe_label_id : Z }.

Record prepared_story := mk_prepared_story
  { ps_id : Z;
    ps_name : string;
    ps_description : option string;
    ps_story_type : string;
    ps_current_state : string;
    ps_estimate : option Q;
    ps_requested_by_id : Z;
    ps_owner_ids : list Z;
    ps_labels : list string;
    ps_blockers : list Blocker.t;
    ps_tasks : list Task.t }.

Record prepared_iteration := mk_prepared_iteration
  { pi_number : Z;
    pi_start : option string;
    pi_finish : option string;
    pi_stories : list prepared_story }.

Record prepared_comment := mk_prepared_comment
  { pc_id : Z;
    pc_text : option string;
    pc_person_id : Z;
    pc_attachments : list FileAttachment.t }.

Definition _prepare_epics (db_epics : list Epic.t) : list prepared_epic :=
  (λ epic, mk_prepared_epic (Epic.id epic) (Epic.name epic)
             (Epic.description epic) (Epic.label_id epic)) <$> db_epics.

Definition _prepare_stories (db_stories : list Story.t) : list prepared_story :=
  (λ story,
     mk_prepared_story (Story.id story) (Story.name story)
       (Story.description story) (Story.story_type story)
       (Story.current_state story) (Story.estimate story)
       (Story.requested_by_id story)
       (Person.id <$> Story.owners story)
       (Label.name <$> Story.labels story)
       (Story.blockers story) (Story.tasks story)) <$> db_stories.

Definition _prepare_iterations (db_iterations : list Iteration.t)
  : list prepared_iteration :=
  (λ iteration,
     mk_prepared_iteration (Iteration.number iteration) (Iteration.start iteration)
       (Iteration.finish iteration)
       (_prepare_stories (Iteration.stories iteration))) <$> db_iterations.

Definition _prepare_comments (db_comments : list Comment.t) : list prepared_comment :=
  (λ comment,
     mk_prepared_comment (Comment.id comment) (Comment.text comment)
       (Comment.person_id comment) (Comment.file_attachments comment)) <$> db_comments.

(** [get_pt_label_mapping]: the labels of the project, name to id; a later
    label of the same name replaces an earlier one. *)
Definition get_pt_label_mapping (labels : list Label.t) : gmap string Z :=
  foldl (λ m label, <[Label.name label := Label.id label]> m) ∅ labels.

(** ** [migrators/project_migrator.py] *)

Fixpoint upper_alnum (s : string) : string :=
  match s with
  | EmptyString => EmptyString
  | String c r =>
      if isalnum_char c then upper_char c ++ upper_alnum r else upper_alnum r
  end.

(** [key.ljust(2, "X")]. *)
Definition ljust2 (key : string) : string :=
  match key with
  | EmptyString => "XX"
  | String c EmptyString => String c "X"
  | _ => key
  end.

Definition _generate_project_key (project_name : string) : result string :=
  let key := upper_alnum project_name in
  match key with
  | EmptyString => Raise (mk_exn IndexError "string index out of range")
  | String c _ =>
      let key := if negb (isalpha_char c) then "P" ++ key else key in
      Ok (if (10 <? String.length key)%nat then slice_to 10 key else ljust2 key)
  end.

Definition migrate (cfg : config) (pt_project : Project.t) : M JiraProject.t :=
  let description := default "" (Project.description pt_project) in
  jira_project_data ←
    catch Exception
      (key ← lift (_generate_project_key (Project.name pt_project));
       data ← api (create_project key (Project.name pt_project) description);
       project_id ← lift (getitem data "id");
       api (assign_workflow_scheme_to_project project_id (GLOBAL_WORKFLOW_SCHEME_ID cfg));;
       _ ← lift (getitem data "key");
       mret data)
      (λ e, raise ProjectCreationError ("Failed to create Jira project: " ++ msg e));
  key ← lift (getitem jira_project_data "key");
  url ← lift (get jira_project_data "self");
  board_id ←
    catch Exception
      (filter ← api (create_filter_for_project key);
       filter_id ← lift (getitem filter "id");
       board_data ← api (create_board key filter_id);
       board_id ← lift (getitem board_data "id");
       mret (Some board_id))
      (λ _, mret None);
  let jira_project :=
    JiraProject.mk key (Project.name pt_project) description url board_id in
  screen_ids ← api (get_issue_screen_ids key);
  screen_ids ← lift (iterate screen_ids);
  for_each
    (λ screen_id,
       tab_id ← api (get_screen_tab_id screen_id);
       for_each
         (λ field,
            catch Exception
              (api (add_custom_field_to_screen_tab screen_id tab_id field);; mret ())
              (λ _, mret ()))
         (JIRA_CUSTOM_FIELDS cfg))
    screen_ids;;
  admin_role ← api (get_project_role_id key "Administrators");
  if negb (truthy admin_role) then
    raise ProjectCreationError "Failed to get project role ID for Administrators"
  else
    api (add_user_to_project_role key admin_role (JIRA_ACCOUNT_ID cfg));;
    mret jira_project.

(** ** [migrators/user_migrator.py] *)

Definition migrate_user (pt_user : Person.t) : M JiraUser.t :=
  catch Exception
    (existing_user ← api (get_user (Person.email pt_user));
     n ← lift (len existing_user);
     if n =? 1 then
       user ← lift (first_item existing_user);
       display_name ← lift (getitem user "displayName");
       account_id ← lift (getitem user "accountId");
       active ← lift (getitem user "active");
       mret (JiraUser.mk (JStr (Person.email pt_user)) display_name account_id active)
     else if 1 <? n then
       raise UserMigrationError
         ("Found multiple users with email " ++ Person.email pt_user ++ " in Jira")
     else
       new_user ← api (create_user (Person.email pt_user));
       _ ← lift (getitem new_user "displayName");
       email ← lift (getitem new_user "emailAddress");
       display_name ← lift (getitem new_user "displayName");
       account_id ← lift (getitem new_user "accountId");
       mret (JiraUser.mk email display_name account_id (JBool true)))
    (λ e, raise UserMigrationError
            ("Failed to migrate user " ++ Person.name pt_user ++ ": " ++ msg e)).

Definition migrate_users (pt_users : list Person.t) : M (gmap Z JiraUser.t) :=
  for_each
    (λ pt_user,
       catch UserMigrationError
         (jira_user ← migrate_user pt_user;
          modify (set_user_map <[Person.id pt_user := jira_user]>))
         (λ _, mret ()))
    pt_users;;
  st ← get_state;
  mret (user_map st).

Definition get_jira_user (pt_user_id : Z) : M (option JiraUser.t) :=
  st ← get_state;
  mret (user_map st !! pt_user_id).

(** ** [migrators/issue_migrator.py] *)

Definition issue_type_map (story_type : string) : string :=
  if decide (story_type = "feature") then "Story"
  else if decide (story_type = "bug") then "Bug"
  else if decide (story_type = "chore") then "Task"
  else "Story".

Definition status_map (state : string) : string :=
  if decide (state = "unstarted") then "Unstarted"
  else if decide (state = "started") then "Started"
  else if decide (state = "finished") then "Finished"
  else if decide (state = "delivered") then "Delivered"
  else if decide (state = "rejected") then "Rejected"
  else if decide (state = "accepted") then "Accepted"
  else "Unstarted".

(** [self.priority_map.get(pt_story.estimate, "3")]: the keys of the map are
    the texts "p0" to "p4" and the estimate is a float or [None], so the
    lookup misses. *)
Definition priority_of (estimate : option Q) : string := "3".

Definition migrate_task (parent_issue_key : json) (pt_task : Task.t) : M JiraSubTask.t :=
  catch Exception
    (created_subtask ← api (create_subtask parent_issue_key (Task.description pt_task));
     key ← lift (getitem created_subtask "key");
     (if Task.complete pt_task
      then api (transition_issue key "Finished");; mret ()
      else mret ());;
     mret (JiraSubTask.mk key (Task.description pt_task)
             (if Task.complete pt_task then "Done" else "To Do") parent_issue_key))
    (λ e, raise IssueMigrationError
            ("Failed to migrate task " ++ str_of_int (Task.id pt_task) ++ ": " ++ msg e)).

Definition migrate_tasks (jira_issue_key : json) (pt_tasks : list Task.t)
  : M (gmap Z json) :=
  for_fold
    (λ subtask_map pt_task,
       catch Exception
         (jira_subtask ← migrate_task jira_issue_key pt_task;
          mret (<[Task.id pt_task := JiraSubTask.key jira_subtask]> subtask_map))
         (λ _, mret subtask_map))
    pt_tasks ∅.

Definition replace_spaces (label : string) : string :=
  str_map (λ c, if decide (c = " "%char) then "_"%char else c) label.

Definition migrate_issue (cfg : config) (jira_project : JiraProject.t)
    (pt_story : prepared_story) : M JiraIssue.t :=
  catch Exception
    (let issue_type := issue_type_map (ps_story_type pt_story) in
     let status := status_map (lower (ps_current_state pt_story)) in
     assignee ← (match ps_owner_ids pt_story with
                 | owner :: _ => get_jira_user owner
                 | [] => mret None
                 end : M (option JiraUser.t));
     reporter ← (if ps_requested_by_id pt_story =? 0 then mret None
                 else get_jira_user (ps_requested_by_id pt_story)
                 : M (option JiraUser.t));
     let issue_data :=
       mk_issue_fields (JiraUser.account_id <$> assignee)
         (JiraUser.account_id <$> reporter)
         (replace_spaces <$> ps_labels pt_story)
         (priority_of (ps_estimate pt_story)) in
     created_issue ←
       api (create_issue (JiraProject.key jira_project) issue_type
              (ps_name pt_story) (ps_description pt_story) issue_data);
     key ← lift (getitem created_issue "key");
     (match ps_estimate pt_story with
      | Some story_points =>
          if Qeq_bool story_points 0 then mret ()
          else api (update_issue key (JIRA_STORY_POINTS_FIELD cfg) story_points);; mret ()
      | None => mret ()
      end : M unit);;
     (if decide (status = "Unstarted") then mret ()
      else api (transition_issue key status);; mret () : M unit);;
     (match ps_tasks pt_story with
      | [] => mret ()
      | tasks => migrate_tasks key tasks;; mret ()
      end : M unit);;
     mret (JiraIssue.mk key (ps_name pt_story) issue_type status
             (replace_spaces <$> ps_labels pt_story)))
    (λ e, raise IssueMigrationError
            ("Failed to migrate issue " ++ str_of_int (ps_id pt_story) ++ ": " ++ msg e)).

Definition migrate_issues (cfg : config) (jira_project : JiraProject.t)
    (pt_stories : list prepared_story) : M (gmap Z json) :=
  for_fold
    (λ migrated_issues pt_story,
       catch IssueMigrationError
         (jira_issue ← migrate_issue cfg jira_project pt_story;
          mret (<[ps_id pt_story := JiraIssue.key jira_issue]> migrated_issues))
         (λ _, mret migrated_issues))
    pt_stories ∅.

Definition migrate_epic (jira_project : JiraProject.t) (pt_epic : prepared_epic)
  : M JiraEpic.t :=
  catch Exception
    (created_epic ←
       api (create_epic (JiraProject.key jira_project) (pe_name pt_epic)
              (pe_description pt_epic));
     key ← lift (getitem created_epic "key");
     mret (JiraEpic.mk key (pe_name pt_epic)))
    (λ e, raise IssueMigrationError
            ("Failed to migrate epic " ++ str_of_int (pe_id pt_epic) ++ ": " ++ msg e)).

Definition migrate_epics (jira_project : JiraProject.t) (pt_epics : list prepared_epic)
  : M (gmap Z json) :=
  for_fold
    (λ epic_map pt_epic,
       catch IssueMigrationError
         (jira_epic ← migrate_epic jira_project pt_epic;
          mret (<[pe_label_id pt_epic := JiraEpic.key jira_epic]> epic_map))
         (λ _, mret epic_map))
    pt_epics ∅.

(** The reference a blocker description holds, as [process_blockers] reads
    it: the text after the first [#] up to the next [#] or space, when it is
    made of digits. [int] raises on the digits that are not decimal. *)
Definition blocker_reference (blocker_content : string) : result (option Z) :=
  if contains "#" blocker_content then
    match split "#" blocker_content with
    | _ :: piece :: _ =>
        let blocker_id := hd EmptyString (split " " piece) in
        if isdigit blocker_id then
          match int_of_str blocker_id with
          | Ok n => Ok (Some n)
          | Raise e => Raise e
          end
        else Ok None
    | _ => Raise (mk_exn IndexError "list index out of range")
    end
  else Ok None.

Definition process_blocker (jira_issue_map : gmap Z json) (pt_story : prepared_story)
    (blocker : Blocker.t) : M unit :=
  if Blocker.resolved blocker then mret ()
  else
    reference ← lift (blocker_reference (Blocker.description blocker));
    match reference with
    | Some blocker_id =>
        match jira_issue_map !! blocker_id, jira_issue_map !! ps_id pt_story with
        | Some blocker_key, Some blocked_key =>
            catch Exception
              (api (create_blocker_link blocker_key blocked_key);; mret ())
              (λ _, mret ())
        | _, _ => mret ()
        end
    | None => mret ()
    end.

Definition process_blockers (jira_issue_map : gmap Z json)
    (pt_stories : list prepared_story) : M unit :=
  for_each
    (λ pt_story, for_each (process_blocker jira_issue_map pt_story) (ps_blockers pt_story))
    pt_stories.

(** The loop over the labels of one story in [link_issues_to_epics]; it
    leaves at the first link that succeeds. *)
Fixpoint link_first (label_mapping : gmap string Z) (label_to_epic : gmap Z json)
    (jira_issue_key : json) (labels : list string) : M unit :=
  match labels with
  | [] => mret ()
  | label_name :: rest =>
      match label_mapping !! label_name ≫= (label_to_epic !!.) with
      | Some epic_key =>
          linked ← catch Exception
                     (api (link_issue_to_epic jira_issue_key epic_key);; mret true)
                     (λ _, mret false);
          if linked : bool then mret ()
          else link_first label_mapping label_to_epic jira_issue_key rest
      | None => link_first label_mapping label_to_epic jira_issue_key rest
      end
  end.

Definition link_issues_to_epics (jira_issue_map epic_map : gmap Z json)
    (pt_stories : list prepared_story) (label_mapping : gmap string Z) : M unit :=
  for_each
    (λ pt_story,
       match jira_issue_map !! ps_id pt_story with
       | Some jira_issue_key =>
           if truthy jira_issue_key
           then link_first label_mapping epic_map jira_issue_key (ps_labels pt_story)
           else mret ()
       | None => mret ()
       end)
    pt_stories.

(** ** [migrators/sprint_migrator.py] *)

Definition migrate_sprint (jira_project : JiraProject.t)
    (pt_iteration : prepared_iteration) : M JiraSprint.t :=
  catch Exception
    (board_id ← match JiraProject.board_id jira_project with
                | Some b => mret b
                | None => raise AttributeError
                            "'JiraProject' object has no attribute 'board_id'"
                end;
     let data :=
       mk_sprint_data ("Sprint " ++ str_of_int (pi_number pt_iteration))
         (pi_start pt_iteration) (pi_finish pt_iteration) board_id
         ("Iteration " ++ str_of_int (pi_number pt_iteration) ++ " from Pivotal Tracker") in
     created_sprint ← api (create_sprint data);
     id ← lift (getitem created_sprint "id");
     name ← lift (getitem created_sprint "name");
     mret (JiraSprint.mk id name board_id))
    (λ e, raise SprintMigrationError
            ("Failed to migrate iteration " ++ str_of_int (pi_number pt_iteration)
             ++ ": " ++ msg e)).

Definition migrate_sprints (jira_project : JiraProject.t)
    (pt_iterations : list prepared_iteration) : M (gmap Z json) :=
  for_fold
    (λ sprint_map pt_iteration,
       catch SprintMigrationError
         (jira_sprint ← migrate_sprint jira_project pt_iteration;
          mret (<[pi_number pt_iteration := JiraSprint.id jira_sprint]> sprint_map))
         (λ _, mret sprint_map))
    pt_iterations ∅.

Definition associate_issues_with_sprint (sprint_id : json) (issue_keys : list json)
  : M unit :=
  catch Exception
    (for_each (λ batch, api (add_issues_to_sprint sprint_id batch);; mret ())
       (chunks 45 issue_keys))
    (λ _, mret ()).

(** ** [migrators/comment_migrator.py] *)

Definition migrate_attachment (cfg : config) (jira_issue_key : json)
    (pt_attachment : FileAttachment.t) : M JiraAttachment.t :=
  catch Exception
    (file_path ← match FileAttachment.file_path pt_attachment with
                 | Some path => mret path
                 | None => raise TypeError
                             "expected str, bytes or os.PathLike object, not NoneType"
                 end;
     let full_path := path_join (path_join (base_directory cfg) "attachments") file_path in
     open_rb full_path;;
     created_attachment ←
       api (add_attachment_to_issue jira_issue_key full_path
              (FileAttachment.filename pt_attachment));
     let created_attachment :=
       match created_attachment with
       | JList (first :: _) => first
       | other => other
       end in
     attachment_id ← lift (get created_attachment "id");
     attachment_filename ← lift (get created_attachment "filename");
     attachment_size ← lift (get created_attachment "size");
     if truthy attachment_id && truthy attachment_filename && truthy attachment_size
     then mret (JiraAttachment.mk attachment_filename attachment_size)
     else raise ValueError "Incomplete attachment data received from Jira API")
    (λ e, raise CommentMigrationError
            ("Failed to migrate attachment " ++ FileAttachment.filename pt_attachment
             ++ ": " ++ msg e)).

Definition comment_body (author : option JiraUser.t) (pt_comment : prepared_comment)
    (attachments : list JiraAttachment.t) : string :=
  let comment_body := "[Migrated from Pivotal Tracker]" ++ nl ++ nl
                      ++ fmt_opt (pc_text pt_comment) in
  let comment_body :=
    match author with
    | Some author =>
        "Comment by " ++ to_text (JiraUser.display_name author) ++ ":" ++ nl ++ nl
        ++ comment_body
    | None => comment_body
    end in
  match attachments with
  | [] => comment_body
  | _ =>
      foldl (λ body attachment,
               body ++ "!" ++ to_text (JiraAttachment.filename attachment) ++ "! ")
        (comment_body ++ nl ++ nl ++ "Attachments:" ++ nl) attachments
  end.

Definition migrate_comment (jira_issue_key : json) (pt_comment : prepared_comment)
    (attachments : list JiraAttachment.t) : M JiraComment.t :=
  catch Exception
    (author ← get_jira_user (pc_person_id pt_comment);
     created_comment ←
       api (create_comment jira_issue_key (comment_body author pt_comment attachments));
     id ← lift (getitem created_comment "id");
     body ← lift (getitem created_comment "body");
     mret (JiraComment.mk (to_text id) body))
    (λ e, raise CommentMigrationError
            ("Failed to migrate comment " ++ str_of_int (pc_id pt_comment) ++ ": " ++ msg e)).

Definition migrate_comments (cfg : config) (jira_issue_key : json)
    (pt_comments : list prepared_comment) : M (list string) :=
  for_fold
    (λ migrated_comments pt_comment,
       catch CommentMigrationError
         (match pc_attachments pt_comment with
          | [] =>
              jira_comment ← migrate_comment jira_issue_key pt_comment [];
              mret (migrated_comments ++ [JiraComment.id jira_comment])%list
          | pt_attachments =>
              attachments ←
                for_fold
                  (λ attachments pt_attachment,
                     jira_attachment ← migrate_attachment cfg jira_issue_key pt_attachment;
                     mret (attachments ++ [jira_attachment])%list)
                  pt_attachments [];
              jira_comment ← migrate_comment jira_issue_key pt_comment attachments;
              mret (migrated_comments ++ [JiraComment.id jira_comment])%list
          end)
         (λ _, mret migrated_comments))
    pt_comments [].

(** ** [main.py]: [MigrationOrchestrator.migrate_project] *)

(** [d[k]] for a dictionary of the migration keyed by an [int]. *)
Definition lookup_or_raise (d : gmap Z json) (k : Z) : M json :=
  match d !! k with
  | Some v => mret v
  | None => raise KeyError (str_of_int k)
  end.

Definition migrate_project (cfg : config) (pt_project : Project.t)
    (force_update : bool) : M (option JiraProject.t) :=
  let project_id := Project.id pt_project in
  imported_projects ← get_imported_projects;
  if bool_decide (VInt project_id ∈ imported_projects) && negb force_update then
    mret None
  else
    catch Exception
      (jira_project ← migrate cfg pt_project;
       migrate_users (Project.members pt_project);;
       let label_mapping := get_pt_label_mapping (Project.labels pt_project) in
       let epics := _prepare_epics (Project.epics pt_project) in
       epic_map ← migrate_epics jira_project epics;
       let stories := _prepare_stories (Project.stories pt_project) in
       issue_map ← migrate_issues cfg jira_project stories;
       link_issues_to_epics issue_map epic_map stories label_mapping;;
       process_blockers issue_map stories;;
       let iterations := _prepare_iterations (Project.iterations pt_project) in
       match iterations with
       | [] => mret ()
       | _ =>
           sprint_map ← migrate_sprints jira_project iterations;
           for_each
             (λ pt_iteration,
                sprint_id ← lookup_or_raise sprint_map (Iteration.number pt_iteration);
                let iteration_issue_keys :=
                  omap (λ story, issue_map !! Story.id story)
                    (Iteration.stories pt_iteration) in
                associate_issues_with_sprint sprint_id iteration_issue_keys)
             (Project.iterations pt_project)
       end;;
       for_each
         (λ pt_story,
            jira_issue_key ← lookup_or_raise issue_map (Story.id pt_story);
            let comments := _prepare_comments (Story.comments pt_story) in
            migrate_comments cfg jira_issue_key comments;; mret ())
         (Project.stories pt_project);;
       mark_project_as_imported project_id;;
       mret (Some jira_project))
      (λ e, raise JiraMigrationError
              ("Migration failed for project " ++ Project.name pt_project ++ ": " ++ msg e)).

End Jira.

(** * The Linear migration: [linear/utils.py], [linear/migrators/*.py],
    [linear/main.py] *)

Module Linear.

(** ** [linear/utils.py] *)

Definition allowed_char (c : ascii) : bool :=
  isalnum_char c || bool_decide (c ∈ [" "%char; "-"%char; "_"%char]).

(** [sanitize_name(name, max_length)]. *)
Definition sanitize_name_upto (max_length : Z) (name : string) : string :=
  let sanitized := str_filter allowed_char name in
  strip (slice_to max_length sanitized).

(** [sanitize_name(name)], with the default [max_length=50]. *)
Definition sanitize_name (name : string) : string := sanitize_name_upto 50 name.

Definition map_priority (pt_priority : option string) : result Z :=
  match pt_priority with
  | None => Raise (mk_exn AttributeError "'NoneType' object has no attribute 'lower'")
  | Some pt_priority =>
      let p := lower pt_priority in
      Ok (if decide (p = "p0") then 1
          else if decide (p = "p1") then 2
          else if decide (p = "p2") then 3
          else if decide (p = "p3") then 4
          else 0)
  end.

Definition map_state (pt_state : string) : string :=
  let st := lower pt_state in
  if decide (st = "unstarted") then "Todo"
  else if decide (st = "started") then "In Progress"
  else if decide (st = "finished") then "In Review"
  else if decide (st = "delivered") then "Done"
  else if decide (st = "accepted") then "Done"
  else if decide (st = "rejected") then "Todo"
  else "Todo".

(** ** [linear/models.py]: the destination objects *)

Module LinearUser.
Record t := mk { id : json; name : json; email : json }.
End LinearUser.

Module LinearTeam.
Record t := mk { id : json; name : json; key : json; description : json }.
End LinearTeam.

Module LinearProject.
Record t := mk { id : json; name : json; description : json; team_id : json }.
End LinearProject.

Module LinearCycle.
Record t := mk { id : json; number : json; name : json; team_id : json }.
End LinearCycle.

Module LinearIssue.
Record t := mk
  { id : json;
    title : json;
    description : json;
    team_id : json;
    project_id : option json;
    cycle_id : option json;
    assignee_id : option json;
    creator_id : option json;
    state_id : option json;
    priority : Z;
    labels : list string }.
End LinearIssue.

Module LinearComment.
Record t := mk { id : json; body : json; user_id : option json; issue_id : json }.
End LinearComment.

Module LinearIssueRelation.
Record t := mk { id : json; issue_id : json; related_issue_id : json; type : string }.
End LinearIssueRelation.

(** ** The calls of [LinearAPI] the migrators make *)

(** The keyword arguments of [create_issue]; [None] is a keyword left out
    or given as [None]. *)
Record issue_kwargs := mk_issue_kwargs
  { kw_state_id : option json;
    kw_priority : option Z;
    kw_estimate : option Q;
    kw_assignee_id : option json;
    kw_creator_id : option json;
    kw_project_id : option json;
    kw_cycle_id : option json;
    kw_labels : option (list string);
    kw_parent_id : option json }.

Inductive call :=
| create_team (name key : string) (description : option string)
| get_workflow_states (team_id : json)
| create_workflow_state (team_id : json) (name type color description : string)
| get_or_create_label (team_id : json) (label : string) (is_epic : bool)
| get_user (email : string)
| invite_user (email : string) (team_id : option json)
| add_user_to_team (user_id : json) (team_id : option json)
| create_project (team_id : json) (name : string) (description : option string)
| create_cycle (team_id : json) (name start_date end_date : string)
| create_issue (team_id : json) (title description : string) (kwargs : issue_kwargs)
| update_issue (issue_id : json) (state_id : option json)
| create_comment (issue_id : json) (body : string)
| create_attachment (issue_id : json) (url title : string)
| create_issue_relation (issue_id related_issue_id : json) (type : string).

(** ** The mutable state: the file [linear/processed_teams.txt] and the
    maps the migrators keep *)

Record state := mk_state
  { processed_teams_file : option string;
    user_map : gmap Z LinearUser.t;
    linear_team_id : option json;
    project_map : gmap Z LinearProject.t;
    cycle_map : gmap Z LinearCycle.t;
    issue_map : gmap Z LinearIssue.t;
    workflow_states : gmap string json;
    label_epic_map : gmap Z Z }.

Definition initial : state := mk_state None ∅ None ∅ ∅ ∅ ∅ ∅.

Definition set_file (f : option string → option string) (st : state) : state :=
  mk_state (f (processed_teams_file st)) (user_map st) (linear_team_id st)
    (project_map st) (cycle_map st) (issue_map st) (workflow_states st)
    (label_epic_map st).

Definition set_user_map (f : gmap Z LinearUser.t → gmap Z LinearUser.t) (st : state) : state :=
  mk_state (processed_teams_file st) (f (user_map st)) (linear_team_id st)
    (project_map st) (cycle_map st) (issue_map st) (workflow_states st)
    (label_epic_map st).

Definition set_linear_team_id (team_id : option json) (st : state) : state :=
  mk_state (processed_teams_file st) (user_map st) team_id
    (project_map st) (cycle_map st) (issue_map st) (workflow_states st)
    (label_epic_map st).

Definition set_project_map (f : gmap Z LinearProject.t → gmap Z LinearProject.t)
    (st : state) : state :=
  mk_state (processed_teams_file st) (user_map st) (linear_team_id st)
    (f (project_map st)) (cycle_map st) (issue_map st) (workflow_states st)
    (label_epic_map st).

Definition set_cycle_map (f : gmap Z LinearCycle.t → gmap Z LinearCycle.t)
    (st : state) : state :=
  mk_state (processed_teams_file st) (user_map st) (linear_team_id st)
    (project_map st) (f (cycle_map st)) (issue_map st) (workflow_states st)
    (label_epic_map st).

Definition set_issue_map (f : gmap Z LinearIssue.t → gmap Z LinearIssue.t)
    (st : state) : state :=
  mk_state (processed_teams_file st) (user_map st) (linear_team_id st)
    (project_map st) (cycle_map st) (f (issue_map st)) (workflow_states st)
    (label_epic_map st).

Definition set_workflow_states (m : gmap string json) (st : state) : state :=
  mk_state (processed_teams_file st) (user_map st) (linear_team_id st)
    (project_map st) (cycle_map st) (issue_map st) m (label_epic_map st).

Definition set_label_epic_map (m : gmap Z Z) (st : state) : state :=
  mk_state (processed_teams_file st) (user_map st) (linear_team_id st)
    (project_map st) (cycle_map st) (issue_map st) (workflow_states st) m.

Abbreviation M := (Eff.M call state).

(** ** [linear/utils.py]: the processed teams *)

Definition mark_team_as_processed (team_id : Z) : M unit :=
  modify (set_file (λ f, Some (default "" f ++ str_of_int team_id ++ nl))).

(** [set(line.strip() for line in f if line.strip())]: the lines stay
    text. The content of the file is text, as the program writes it. *)
Definition get_processed_teams : M (list value) :=
  st ← get_state;
  match processed_teams_file st with
  | None => mret []
  | Some content =>
      mret (VStr <$> List.filter (λ line, negb (is_empty line))
                       (strip <$> lines content))
  end.

(** ** [linear/linear_setup.py] *)

Definition required_states : list (string * string * string) :=
  [("Unstarted", "unstarted", "#FFB3BA"); ("Started", "started", "#FFDFBA");
   ("Finished", "started", "#FFFFBA"); ("Delivered", "completed", "#BAFFC9");
   ("Accepted", "completed", "#BAE1FF"); ("Rejected", "unstarted", "#DFBAFF")].

Definition setup_workflow_states (team_id : json) : M unit :=
  existing_states ← api (get_workflow_states team_id);
  existing_states ← lift (iterate existing_states);
  existing_state_names ←
    for_fold (λ names state,
                name ← lift (getitem state "name");
                name ← lift (json_lower name);
                mret (names ++ [name])%list)
      existing_states [];
  for_each
    (λ '(state_name, state_type, color_code),
       if bool_decide (lower state_name ∈ (existing_state_names : list string))
       then mret ()
       else
         catch Exception
           (api (create_workflow_state team_id state_name state_type color_code
                   ("PT " ++ lower state_name ++ " state"));; mret ())
           (λ e, raise ConfigurationError
                   ("Failed to create workflow state " ++ state_name ++ ": " ++ msg e)))
    required_states.

(** The key of the team: the first letters of the first four words. *)
Definition team_key (pt_project_name : string) : string :=
  String.concat ""
    ((λ word, match word with
              | String c _ => upper_char c
              | EmptyString => EmptyString
              end) <$> take 4 (split_ws pt_project_name)).

Definition setup_team (pt_project_name : string)
    (pt_project_description : option string) : M json :=
  let key := team_key pt_project_name in
  catch Exception
    (team ← api (create_team pt_project_name key pt_project_description);
     _ ← lift (getitem team "name");
     team_id ← lift (getitem team "id");
     setup_workflow_states team_id;;
     mret team)
    (λ e, raise ConfigurationError
            ("Failed to create team for project " ++ pt_project_name ++ ": " ++ msg e)).

Definition setup_labels (team_id : json) (pt_labels : list (string * bool)) : M unit :=
  for_each
    (λ '(label_name, is_epic),
       catch Exception
         (api (get_or_create_label team_id label_name is_epic);; mret ())
         (λ _, mret ()))
    pt_labels.

(** ** [migrators/team_migrator.py] *)

(** The labels of the project, each with whether an epic refers to it. *)
Definition get_pt_project_labels (pt_project : Project.t) : list (string * bool) :=
  (λ label,
     (Label.name label,
      bool_decide (Label.id label ∈ (Epic.label_id <$> Project.epics pt_project))))
    <$> Project.labels pt_project.

Definition migrate_team (pt_project : Project.t) : M LinearTeam.t :=
  catch Exception
    (let sanitized_name := sanitize_name (Project.name pt_project) in
     linear_team_data ← setup_team sanitized_name (Project.description pt_project);
     id ← lift (getitem linear_team_data "id");
     name ← lift (getitem linear_team_data "name");
     key ← lift (getitem linear_team_data "key");
     description ← lift (get linear_team_data "description");
     let linear_team := LinearTeam.mk id name key description in
     setup_labels id (get_pt_project_labels pt_project);;
     mret linear_team)
    (λ e, raise TeamCreationError
            ("Failed to migrate project " ++ Project.name pt_project ++ ": " ++ msg e)).

(** ** [migrators/user_migrator.py] *)

(** [LinearUser] built with the entries of the dictionary as keyword
    arguments: the keys must be [id], [name] and [email], no more and no
    less. *)
Definition LinearUser_of (linear_user : json) : result LinearUser.t :=
  match linear_user with
  | JDict d =>
      if forallb (λ kv, bool_decide (kv.1 ∈ ["id"; "name"; "email"])) d then
        match assoc "id" d, assoc "name" d, assoc "email" d with
        | Some id, Some name, Some email => Ok (LinearUser.mk id name email)
        | _, _, _ =>
            Raise (mk_exn TypeError "LinearUser.__init__() missing required positional arguments")
        end
      else Raise (mk_exn TypeError "LinearUser.__init__() got an unexpected keyword argument")
  | _ => Raise (mk_exn TypeError "argument after ** must be a mapping")
  end.

Definition get_linear_user (pt_user_id : Z) : M (option LinearUser.t) :=
  st ← get_state;
  mret (user_map st !! pt_user_id).

Definition migrate_user (pt_user : Person.t) : M unit :=
  catch Exception
    (st ← get_state;
     linear_user ←
       (match user_map st !! Person.id pt_user with
        | Some u => mret (Some u)
        | None =>
            found ← api (get_user (Person.email pt_user));
            if truthy found then
              u ← lift (LinearUser_of found);
              modify (set_user_map <[Person.id pt_user := u]>);;
              mret (Some u)
            else
              api (invite_user (Person.email pt_user) (linear_team_id st));;
              mret None
        end : M (option LinearUser.t));
     match linear_user with
     | Some u => api (add_user_to_team (LinearUser.id u) (linear_team_id st));; mret ()
     | None => mret ()
     end)
    (λ e, raise LinearUserMigrationError
            ("Failed to migrate user " ++ Person.name pt_user ++ ": " ++ msg e)).

Definition migrate_users (pt_users : list Person.t) (team_id : json)
  : M (gmap Z LinearUser.t) :=
  modify (set_linear_team_id (Some team_id));;
  for_each
    (λ pt_user, catch LinearUserMigrationError (migrate_user pt_user) (λ _, mret ()))
    pt_users;;
  st ← get_state;
  mret (user_map st).

(** ** [migrators/project_migrator.py]: epics become projects *)

Definition migrate_epic (pt_epic : Epic.t) (team_id : json) : M LinearProject.t :=
  catch Exception
    (sanitized_name ←
       match Epic.name pt_epic with
       | Some name => mret (sanitize_name name)
       | None => raise TypeError "'NoneType' object is not iterable"
       end;
     linear_project_data ←
       api (create_project team_id sanitized_name (Epic.description pt_epic));
     id ← lift (getitem linear_project_data "id");
     name ← lift (getitem linear_project_data "name");
     description ← lift (get linear_project_data "description");
     mret (LinearProject.mk id name description team_id))
    (λ e, raise LinearProjectCreationError
            ("Failed to migrate epic " ++ fmt_opt (Epic.name pt_epic) ++ ": " ++ msg e)).

Definition migrate_projects (pt_epics : list Epic.t) (team_id : json)
  : M (gmap Z LinearProject.t) :=
  for_each
    (λ pt_epic,
       catch LinearProjectCreationError
         (linear_project ← migrate_epic pt_epic team_id;
          modify (set_project_map <[Epic.id pt_epic := linear_project]>))
         (λ _, mret ()))
    pt_epics;;
  st ← get_state;
  mret (project_map st).

(** ** [migrators/cycle_migrator.py] *)

Definition isoformat (date : option string) : M string :=
  match date with
  | Some text => mret text
  | None => raise AttributeError "'NoneType' object has no attribute 'isoformat'"
  end.

Definition migrate_cycle (pt_project : Project.t) (pt_iteration : Iteration.t)
    (team_id : json) : M LinearCycle.t :=
  catch Exception
    (start_date ← isoformat (Iteration.start pt_iteration);
     end_date ← isoformat (Iteration.finish pt_iteration);
     linear_cycle_data ←
       api (create_cycle team_id
              (Project.name pt_project ++ " - Iteration "
               ++ str_of_int (Iteration.number pt_iteration))
              start_date end_date);
     id ← lift (getitem linear_cycle_data "id");
     number ← lift (getitem linear_cycle_data "number");
     name ← lift (getitem linear_cycle_data "name");
     _ ← lift (getitem linear_cycle_data "startDate");
     _ ← lift (getitem linear_cycle_data "endDate");
     mret (LinearCycle.mk id number name team_id))
    (λ e, raise CycleMigrationError
            ("Failed to migrate iteration " ++ str_of_int (Iteration.number pt_iteration)
             ++ ": " ++ msg e)).

Definition migrate_cycles (pt_iterations : list Iteration.t) (team_id : json)
    (pt_project : Project.t) : M (gmap Z LinearCycle.t) :=
  for_each
    (λ pt_iteration,
       catch CycleMigrationError
         (linear_cycle ← migrate_cycle pt_project pt_iteration team_id;
          modify (set_cycle_map <[Iteration.number pt_iteration := linear_cycle]>))
         (λ _, mret ()))
    pt_iterations;;
  st ← get_state;
  mret (cycle_map st).

(** ** [migrators/issue_migrator.py] *)

(** The attributes [migrate_issue] reads on the story it is given.
    [owner_ids] and [label_ids] are [None] on an object without the
    attribute, as the rows of [models.Story] are: reading them raises
    [AttributeError]. *)
Record story_view := mk_story_view
  { sv_id : Z;
    sv_name : string;
    sv_description : option string;
    sv_current_state : string;
    sv_story_priority : option string;
    sv_estimate : option Q;
    sv_labels : list Label.t;
    sv_owner_ids : option (list Z);
    sv_requested_by_id : Z;
    sv_label_ids : option (list Z);
    sv_iteration : option Z;
    sv_tasks : list Task.t }.

(** A row of [models.Story], as [main.py] hands it over. *)
Definition story_row (story : Story.t) : story_view :=
  mk_story_view (Story.id story) (Story.name story) (Story.description story)
    (Story.current_state story) (Story.story_priority story) (Story.estimate story)
    (Story.labels story) None (Story.requested_by_id story) None
    (Story.iteration story) (Story.tasks story).

Definition attribute {A} (name : string) (o : option A) : M A :=
  match o with
  | Some a => mret a
  | None => raise AttributeError ("'Story' object has no attribute '" ++ name ++ "'")
  end.

Definition fetch_workflow_states (linear_team_id : json) : M unit :=
  states ← api (get_workflow_states linear_team_id);
  states ← lift (iterate states);
  workflow_states ←
    for_fold (λ (m : gmap string json) state,
                name ← lift (getitem state "name");
                name ← lift (dict_key name);
                id ← lift (getitem state "id");
                mret (<[name := id]> m))
      states ∅;
  modify (set_workflow_states workflow_states).

(** [LinearIssue] is built here without its required [creator_id]: the
    constructor raises once its arguments are evaluated, and what follows
    in the [try] does not run. *)
Definition migrate_tasks (pt_tasks : list Task.t) (parent_issue : LinearIssue.t)
    (linear_team_id : json) : M unit :=
  for_each
    (λ pt_task,
       catch Exception
         (st ← get_state;
          sub_issue_data ←
            api (create_issue linear_team_id (sanitize_name (Task.description pt_task)) ""
                   (mk_issue_kwargs (workflow_states st !! "Todo") None None None None
                      None None None (Some (LinearIssue.id parent_issue))));
          _ ← lift (getitem sub_issue_data "id");
          _ ← lift (getitem sub_issue_data "title");
          _ ← lift (getitem sub_issue_data "description");
          sub_issue ←
            (raise TypeError
               "LinearIssue.__init__() missing 1 required positional argument: 'creator_id'"
             : M LinearIssue.t);
          if Task.complete pt_task
          then api (update_issue (LinearIssue.id sub_issue) (workflow_states st !! "Done"));;
               mret ()
          else mret ())
         (λ _, mret ()))
    pt_tasks.

(** The loop over [label_ids], left at the first label whose epic has a
    project. *)
Fixpoint first_project (label_epic_map : gmap Z Z)
    (project_map : gmap Z LinearProject.t) (label_ids : list Z) : option json :=
  match label_ids with
  | [] => None
  | label_id :: rest =>
      match label_epic_map !! label_id ≫= (project_map !!.) with
      | Some linear_project => Some (LinearProject.id linear_project)
      | None => first_project label_epic_map project_map rest
      end
  end.

Definition migrate_issue (pt_story : story_view) (linear_team_id : json)
  : M LinearIssue.t :=
  catch Exception
    (st ← get_state;
     let title := sanitize_name (sv_name pt_story) in
     let description := default "" (sv_description pt_story) in
     let state_id := workflow_states st !! map_state (sv_current_state pt_story) in
     priority ← lift (map_priority (sv_story_priority pt_story));
     let estimate := sv_estimate pt_story in
     let labels := Label.name <$> sv_labels pt_story in
     owner_ids ← attribute "owner_ids" (sv_owner_ids pt_story);
     let assignee_id :=
       match owner_ids with
       | owner :: _ => LinearUser.id <$> user_map st !! owner
       | [] => None
       end in
     let creator_id :=
       if sv_requested_by_id pt_story =? 0 then None
       else LinearUser.id <$> user_map st !! sv_requested_by_id pt_story in
     label_ids ← attribute "label_ids" (sv_label_ids pt_story);
     let project_id := first_project (label_epic_map st) (project_map st) label_ids in
     let cycle_id :=
       match sv_iteration pt_story with
       | Some number => LinearCycle.id <$> cycle_map st !! number
       | None => None
       end in
     linear_issue_data ←
       api (create_issue linear_team_id title description
              (mk_issue_kwargs state_id (Some priority) estimate assignee_id creator_id
                 project_id cycle_id (Some labels) None));
     id ← lift (getitem linear_issue_data "id");
     title' ← lift (getitem linear_issue_data "title");
     description' ← lift (getitem linear_issue_data "description");
     let linear_issue :=
       LinearIssue.mk id title' description' linear_team_id project_id cycle_id
         assignee_id creator_id state_id priority labels in
     (match sv_tasks pt_story with
      | [] => mret ()
      | tasks => migrate_tasks tasks linear_issue linear_team_id
      end : M unit);;
     mret linear_issue)
    (λ e, raise LinearIssueMigrationError
            ("Failed to migrate story " ++ str_of_int (sv_id pt_story) ++ ": " ++ msg e)).

(** [get_label_epic_map] is defined in the body of the class, so the bare
    name is not bound where [migrate_issues] uses it: the call raises
    [NameError], outside any [try] of this method. *)
Definition get_label_epic_map (pt_project_id : Z) : M (gmap Z Z) :=
  raise NameError "name 'get_label_epic_map' is not defined".

Definition migrate_issues (pt_stories : list story_view) (linear_team_id : json)
    (pt_project_id : Z) : M (gmap Z LinearIssue.t) :=
  label_epic_map ← get_label_epic_map pt_project_id;
  modify (set_label_epic_map label_epic_map);;
  fetch_workflow_states linear_team_id;;
  for_each
    (λ pt_story,
       catch LinearIssueMigrationError
         (linear_issue ← migrate_issue pt_story linear_team_id;
          modify (set_issue_map <[sv_id pt_story := linear_issue]>))
         (λ _, mret ()))
    pt_stories;;
  st ← get_state;
  mret (issue_map st).

Definition get_linear_issue (pt_story_id : Z) : M (option LinearIssue.t) :=
  st ← get_state;
  mret (issue_map st !! pt_story_id).

(** ** [migrators/comment_migrator.py] *)

(** [Config.get_attachment_path] takes a project id, a story id and a file
    name; it is called with the path alone and raises [TypeError]. *)
Definition get_attachment_path (file_path : option string) : M string :=
  raise TypeError
    "Config.get_attachment_path() missing 2 required positional arguments: 'story_id' and 'filename'".

Definition migrate_attachments (pt_attachments : list FileAttachment.t)
    (linear_issue_id : json) : M unit :=
  for_each
    (λ pt_attachment,
       catch Exception
         (file_path ← get_attachment_path (FileAttachment.file_path pt_attachment);
          found ← path_exists file_path;
          if negb found then mret ()
          else
            linear_attachment_data ←
              api (create_attachment linear_issue_id file_path
                     (FileAttachment.filename pt_attachment));
            _ ← lift (getitem linear_attachment_data "id");
            _ ← lift (getitem linear_attachment_data "title");
            _ ← lift (getitem linear_attachment_data "url");
            mret ())
         (λ _, mret ()))
    pt_attachments.

Definition migrate_comment (pt_comment : Comment.t) (linear_issue_id : json)
  : M LinearComment.t :=
  catch Exception
    (linear_user ← get_linear_user (Comment.person_id pt_comment);
     let user_id := LinearUser.id <$> linear_user in
     let comment_body := "[Migrated from Pivotal Tracker]" ++ nl ++ nl
                         ++ fmt_opt (Comment.text pt_comment) in
     linear_comment_data ← api (create_comment linear_issue_id comment_body);
     id ← lift (getitem linear_comment_data "id");
     body ← lift (getitem linear_comment_data "body");
     let linear_comment := LinearComment.mk id body user_id linear_issue_id in
     (match Comment.file_attachments pt_comment with
      | [] => mret ()
      | file_attachments => migrate_attachments file_attachments linear_issue_id
      end : M unit);;
     mret linear_comment)
    (λ e, raise LinearCommentMigrationError
            ("Failed to migrate comment " ++ str_of_int (Comment.id pt_comment)
             ++ ": " ++ msg e)).

Definition migrate_comments (pt_comments : list Comment.t) (linear_issue_id : json)
  : M (list json) :=
  for_fold
    (λ migrated_comments pt_comment,
       catch LinearCommentMigrationError
         (linear_comment ← migrate_comment pt_comment linear_issue_id;
          mret (migrated_comments ++ [LinearComment.id linear_comment])%list)
         (λ _, mret migrated_comments))
    pt_comments [].

(** ** [migrators/relation_migrator.py] *)

(** The loop over the blockers of one story. [blocker.story] is the story
    the blocker belongs to. *)
Definition migrate_blocker (linear_issue : LinearIssue.t)
    (migrated_relations : list LinearIssueRelation.t) (blocker : Blocker.t)
  : M (list LinearIssueRelation.t) :=
  if Blocker.resolved blocker then mret migrated_relations
  else
    blocker_story_id ←
      match Blocker.story_id blocker with
      | Some id => mret id
      | None => raise AttributeError "'NoneType' object has no attribute 'id'"
      end;
    linear_blocker_issue ← get_linear_issue blocker_story_id;
    match linear_blocker_issue with
    | None => mret migrated_relations
    | Some linear_blocker_issue =>
        relation_data ←
          api (create_issue_relation (LinearIssue.id linear_blocker_issue)
                 (LinearIssue.id linear_issue) "blocks");
        id ← lift (getitem relation_data "id");
        mret (migrated_relations
              ++ [LinearIssueRelation.mk id (LinearIssue.id linear_blocker_issue)
                    (LinearIssue.id linear_issue) "blocks"])%list
    end.

Definition migrate_story_relations (pt_story : Story.t)
  : M (list LinearIssueRelation.t) :=
  catch Exception
    (linear_issue ← get_linear_issue (Story.id pt_story);
     match linear_issue with
     | None => mret []
     | Some linear_issue =>
         for_fold (migrate_blocker linear_issue) (Story.blockers pt_story) []
     end)
    (λ e, raise RelationMigrationError
            ("Failed to migrate relations for story " ++ str_of_int (Story.id pt_story)
             ++ ": " ++ msg e)).

Definition migrate_relations (pt_stories : list Story.t)
  : M (list LinearIssueRelation.t) :=
  for_fold
    (λ migrated_relations pt_story,
       catch RelationMigrationError
         (relations ← migrate_story_relations pt_story;
          mret (migrated_relations ++ relations)%list)
         (λ _, mret migrated_relations))
    pt_stories [].

(** ** [main.py]: [MigrationOrchestrator.migrate_project] *)

Definition migrate_project (pt_project : Project.t) (force_update : bool)
  : M (option LinearTeam.t) :=
  let project_id := Project.id pt_project in
  processed_teams ← get_processed_teams;
  if bool_decide (VInt project_id ∈ processed_teams) && negb force_update then
    mret None
  else
    catch Exception
      (linear_team ← migrate_team pt_project;
       let team_id := LinearTeam.id linear_team in
       migrate_users (Project.members pt_project) team_id;;
       migrate_projects (Project.epics pt_project) team_id;;
       migrate_cycles (Project.iterations pt_project) team_id pt_project;;
       migrate_issues (story_row <$> Project.stories pt_project) team_id
         (Project.id pt_project);;
       for_each
         (λ pt_story,
            linear_issue ← get_linear_issue (Story.id pt_story);
            match linear_issue with
            | Some linear_issue =>
                migrate_comments (Story.comments pt_story) (LinearIssue.id linear_issue);;
                mret ()
            | None => mret ()
            end)
         (Project.stories pt_project);;
       migrate_relations (Project.stories pt_project);;
       mark_team_as_processed project_id;;
       mret (Some linear_team))
      (λ e, raise LinearMigrationError
              ("Migration failed for project " ++ Project.name pt_project ++ ": " ++ msg e)).

End Linear.

(** * [utils.py]: the processed projects of the extraction *)

Module Utils.

(** The file [processed_projects.txt] is [None] while it does not exist.
    The set [get_processed_projects] returns is given as the list of its
    elements in the order of the file; only membership is read from it. *)




End Utils.

(** * [jira/api.py]: the methods above [_request] *)

Module JiraClient.

(** [j.get(k, d)], defined on dictionaries only. *)
Definition get_or (j : json) (k : string) (d : json) : result json :=
  match j with
  | JDict dict => Ok (default d (assoc k dict))
  | _ => Raise (mk_exn AttributeError "object has no attribute 'get'")
  end.

(** [j[i]] for an [int]: a negative index counts from the end. *)
Definition item (j : json) (i : Z) : result json :=
  let at_index {A} (l : list A) (what : string) : result A :=
    let n := Z.of_nat (List.length l) in
    let i := if i <? 0 then i + n else i in
    match (if (0 <=? i) && (i <? n) then l !! Z.to_nat i else None) with
    | Some x => Ok x
    | None => Raise (mk_exn IndexError (what ++ " index out of range"))
    end in
  match j with
  | JList l => at_index l "list"
  | JStr s =>
      match at_index (list_ascii_of_string s) "string" with
      | Ok c => Ok (JStr (String c EmptyString))
      | Raise e => Raise e
      end
  | JDict _ => Raise (mk_exn KeyError (str_of_int i))
  | _ => Raise (mk_exn TypeError "object is not subscriptable")
  end.

Section Methods.
(** [Config.JIRA_URL]. *)
Variable base_url : string.

(** A call of a method is a sequence of calls of [_request]; the remote
    answers each with what [_request] returns or raises, retries
    included. The keys and ids put into the endpoints are text. *)
Definition M := Eff.M JiraAPI.request unit.

Definition _request (method endpoint : string) (data : json) (api_version : Z)
    (url : option string) : M json :=
  let built := base_url ++ "/rest/api/" ++ str_of_int api_version ++ "/" ++ endpoint in
  let url := match url with
             | Some u => if is_empty u then built else u
             | None => built
             end in
  api (JiraAPI.mk_request method url data).

(** The loop of [transition_issue] over the available transitions, left at
    the first one that leads to the status; [None] when there is none. *)
Fixpoint find_transition (status : string) (available_transitions : list json)
  : result json :=
  match available_transitions with
  | [] => Ok JNull
  | transition :: rest =>
      match getitem transition "to" with
      | Raise e => Raise e
      | Ok to =>
          match getitem to "name" with
          | Raise e => Raise e
          | Ok name =>
              match json_lower name with
              | Raise e => Raise e
              | Ok name =>
                  if decide (name = lower status) then getitem transition "id"
                  else find_transition status rest
              end
          end
      end
  end.

Definition transition_issue (issue_key status : string) : M json :=
  response ← _request "GET" ("issue/" ++ issue_key ++ "/transitions") JNull 3 None;
  available_transitions ← lift (get_or response "transitions" (JList []));
  available_transitions ← lift (iterate available_transitions);
  transition_id ← lift (find_transition status available_transitions);
  if negb (truthy transition_id) then
    raise JiraAPIError ("Transition to status '" ++ status ++ "' not found.")
  else
    _request "POST" ("issue/" ++ issue_key ++ "/transitions")
      (JDict [("transition", JDict [("id", transition_id)])]) 3 None.

Definition get_issue_screen_ids (project_key : string) : M json :=
  screen_data ←
    _request "GET" ("screens?queryString=" ++ project_key ++ "&maxResults=2000")
      JNull 3 None;
  screens ← lift (getitem screen_data "values");
  n ← lift (len screens);
  create_screen ← lift (item screens (n - 3));
  create_id ← lift (getitem create_screen "id");
  n ← lift (len screens);
  edit_screen ← lift (item screens (n - 2));
  edit_id ← lift (getitem edit_screen "id");
  mret (JList [create_id; edit_id]).

Definition get_screen_tab_id (screen_id : string) : M json :=
  tab_data ← _request "GET" ("screens/" ++ screen_id ++ "/tabs") JNull 3 None;
  tab ← lift (item tab_data 0);
  lift (getitem tab "id").

End Methods.

End JiraClient.

(** * [linear/utils.py]: lists in chunks *)

Module LinearUtils.

(** [chunk_list(lst, chunk_size)]: [range] raises on a step of zero and is
    empty on a negative step. *)
Definition chunk_list {A} (lst : list A) (chunk_size : Z) : result (list (list A)) :=
  if chunk_size =? 0 then Raise (mk_exn ValueError "range() arg 3 must not be zero")
  else if chunk_size <? 0 then Ok []
  else Ok (chunks (Z.to_nat chunk_size) lst).

End LinearUtils.

(** * [linear/main.py]: [run_migration] *)

Module LinearMain.

(** [run_migration], from the projects [get_pt_projects] returned on;
    [run_global_setup] only writes to the log. *)
Definition run_migration (pt_projects : list Project.t) (force_update : bool)
  : Linear.M unit :=
  catch Exception
    (for_each
       (λ pt_project,
          catch LinearMigrationError
            (Linear.migrate_project pt_project force_update;; mret ())
            (λ _, mret ()))
       pt_projects)
    (λ _, mret ()).

End LinearMain.

(** * Theorems *)

(** ** The rate limiter *)

Section RateLimiterProofs.
Import RateLimiter.


End RateLimiterProofs.

Section RateLimiterDoubles.
Import PrimFloat Doubles Doubles.RateLimiter.

(** The exact value of a number that is neither infinite nor a NaN. *)
Definition exact_value (x : num) : option Q :=
  match x with
  | Int z => Some (inject_Z z)
  | Float f =>
      match FloatOps.Prim2SF f with
      | SpecFloat.S754_zero _ => Some 0%Q
      | SpecFloat.S754_finite s m e =>
          Some (inject_Z (SpecFloat.cond_Zopp s (Zpos m)) * 2 ^ e)%Q
      | _ => None
      end
  end.

(** C9 as the specification words it, for one call of [acquire] at the
    clock reading [current], on the exact values of the numbers: the
    call returns; the allowance [a] is brought to the smaller of
    [a + t * R / I] and [R]; below one token the caller sleeps exactly the
    difference and the allowance is left at zero, otherwise one token is
    taken and nothing is slept. *)
Definition token_bucket_as_specified (self : t) (current : float) : Prop :=
  ∀ a elapsed r i,
    exact_value (allowance self) = Some a →
    exact_value (Float (PrimFloat.sub current (last_check self))) = Some elapsed →
    exact_value (rate self) = Some r →
    exact_value (interval self) = Some i →
    ∃ self' zs,
      acquire current self = (Ok (), self', zs)
      ∧ let refilled := (a + elapsed * r / i)%Q in
        let available := if Qlt_le_dec r refilled then r else refilled in
        if Qlt_le_dec available 1
        then ∃ d delay left,
               zs = [d] ∧ exact_value d = Some delay ∧ (delay == 1 - available)%Q
               ∧ exact_value (allowance self') = Some left ∧ (left == 0)%Q
        else zs = []
             ∧ ∃ left, exact_value (allowance self') = Some left
                       ∧ (left == available - 1)%Q.

(** The limiter of the program, [RateLimiter(rate=6, interval=5)]: what
    its allowance can be after any number of calls. *)
Definition program_limiter (self : t) : Prop :=
  rate self = Int 6
  ∧ interval self = Int 5
  ∧ (allowance self = Int 6 ∨ allowance self = Int 5 ∨ allowance self = Int 0
     ∨ ∃ f, allowance self = Float f).

(** Calls of [acquire] at the clock readings [readings], one after the
    other, up to the first that raises. *)
Fixpoint acquire_all (readings : list float) (self : t) : result unit * t * list num :=
  match readings with
  | [] => (Ok (), self, [])
  | current :: rest =>
      match acquire current self with
      | (Ok _, self, zs) =>
          let '(r, self, zs') := acquire_all rest self in (r, self, (zs ++ zs')%list)
      | failed => failed
      end
  end.

Lemma float_of_int_1 : float_of_int 1 = Ok 1%float.
Proof. vm_compute. reflexivity. Qed.

Lemma float_of_int_0 : float_of_int 0 = Ok 0%float.
Proof. vm_compute. reflexivity. Qed.

(** Neither [1 - x] nor [x - 1] raises. *)
Lemma sub_from_one (x : num) : ∃ d, sub (Int 1) x = Ok d.
Proof.
  destruct x as [z|f]; unfold sub, arith, to_float; [by eexists|].
  rewrite float_of_int_1. by eexists.
Qed.

Lemma sub_one (x : num) : ∃ d, sub x (Int 1) = Ok d.
Proof.
  destruct x as [z|f]; unfold sub, arith, to_float; [by eexists|].
  rewrite float_of_int_1. by eexists.
Qed.

(** A sum with a [float] is a [float]. *)
Lemma add_float (a : num) (x : float) (s : num) :
  add a (Float x) = Ok s → ∃ f, s = Float f.
Proof.
  unfold add, arith. destruct a as [z|f]; unfold to_float.
  - destruct (float_of_int z); [|done]. intros [= <-]. by eexists.
  - intros [= <-]. by eexists.
Qed.

Lemma acquire_raises_division (self : t) (current : float) e :
  truediv (rate self) (interval self) = Raise e →
  acquire current self
  = (Raise e, mk (rate self) (interval self) (allowance self) current, []).
Proof. intros H. unfold acquire. cbn [rate interval allowance]. by rewrite H. Qed.

Lemma acquire_raises_sum (self : t) (current : float) per_second e :
  truediv (rate self) (interval self) = Ok per_second →
  add (allowance self)
    (Float (PrimFloat.mul (PrimFloat.sub current (last_check self)) per_second))
  = Raise e →
  acquire current self
  = (Raise e, mk (rate self) (interval self) (allowance self) current, []).
Proof. intros H1 H2. unfold acquire. cbn [rate interval allowance]. by rewrite H1, H2. Qed.

Lemma acquire_returns (self : t) (current : float) per_second refilled :
  truediv (rate self) (interval self) = Ok per_second →
  add (allowance self)
    (Float (PrimFloat.mul (PrimFloat.sub current (last_check self)) per_second))
  = Ok refilled →
  let available := if gt refilled (rate self) then rate self else refilled in
  if lt available (Int 1)
  then ∃ delay,
         sub (Int 1) available = Ok delay
         ∧ acquire current self
           = (Ok (), mk (rate self) (interval self) (Int 0) current, [delay])
  else ∃ left,
         sub available (Int 1) = Ok left
         ∧ acquire current self
           = (Ok (), mk (rate self) (interval self) left current, []).
Proof.
  intros H1 H2. unfold acquire. cbn [rate interval allowance]. rewrite H1, H2.
  unfold set_allowance. cbn [rate interval allowance last_check].
  destruct (gt refilled (rate self)); cbn [rate interval allowance last_check];
    cbv zeta.
  - destruct (lt (rate self) (Int 1)).
    + destruct (sub_from_one (rate self)) as (d & Hd). rewrite Hd. by exists d.
    + destruct (sub_one (rate self)) as (d & Hd). rewrite Hd. by exists d.
  - destruct (lt refilled (Int 1)).
    + destruct (sub_from_one refilled) as (d & Hd). rewrite Hd. by exists d.
    + destruct (sub_one refilled) as (d & Hd). rewrite Hd. by exists d.
Qed.

Lemma acquire_zero_interval (self : t) (current : float) :
  interval self = Int 0 →
  ∃ e, acquire current self
       = (Raise e, mk (rate self) (interval self) (allowance self) current, [])
       ∧ cls e = ZeroDivisionError.
Proof.
  intros Hi.
  assert (H : ∃ e, truediv (rate self) (interval self) = Raise e
                   ∧ cls e = ZeroDivisionError).
  { rewrite Hi. destruct (rate self) as [z|f]; unfold truediv, to_float.
    - by eexists.
    - rewrite float_of_int_0. by eexists. }
  destruct H as (e & He & Hc). exists e. split; [|done].
  by apply acquire_raises_division.
Qed.

(** A limiter whose numbers are floats raises when its interval is a zero,
    and only then. *)
Lemma acquire_floats (self : t) (current : float) (r i : float) :
  rate self = Float r →
  interval self = Float i →
  (PrimFloat.eqb i PrimFloat.zero = true →
   ∃ e, acquire current self
        = (Raise e, mk (rate self) (interval self) (allowance self) current, [])
        ∧ cls e = ZeroDivisionError)
  ∧ (PrimFloat.eqb i PrimFloat.zero = false →
     ∀ a, allowance self = Float a →
          ∃ self' zs, acquire current self = (Ok (), self', zs)).
Proof.
  intros Hr Hi. split.
  - intros Hz. exists (mk_exn ZeroDivisionError "float division by zero").
    split; [|done].
    apply acquire_raises_division. rewrite Hr, Hi. unfold truediv, to_float.
    by rewrite Hz.
  - intros Hz a Ha.
    assert (Hq : truediv (rate self) (interval self) = Ok (PrimFloat.div r i)).
    { rewrite Hr, Hi. unfold truediv, to_float. by rewrite Hz. }
    pose proof (acquire_returns self current _ (Float _) Hq
                  ltac:(rewrite Ha; reflexivity)) as Hrun.
    cbv zeta in Hrun.
    destruct (lt _ (Int 1)); destruct Hrun as (x & _ & ->); by eexists _, _.
Qed.

Lemma float_of_int_raises (z : Z) e :
  float_of_int z = Raise e → cls e = OverflowError.
Proof.
  unfold float_of_int.
  destruct (SpecFloat.binary_normalize _ _ _ _ _); by intros [= <-].
Qed.

Lemma to_float_raises (x : num) e : to_float x = Raise e → cls e = OverflowError.
Proof. destruct x; [apply float_of_int_raises|done]. Qed.

Lemma truediv_raises (a b : num) e :
  truediv a b = Raise e → cls e = ZeroDivisionError ∨ cls e = OverflowError.
Proof.
  assert (Hmixed : ∀ a b,
             match to_float a with
             | Raise e => Raise e
             | Ok x =>
                 match to_float b with
                 | Raise e => Raise e
                 | Ok y =>
                     if PrimFloat.eqb y zero
                     then Raise (mk_exn ZeroDivisionError "float division by zero")
                     else Ok (PrimFloat.div x y)
                 end
             end = Raise e →
             cls e = ZeroDivisionError ∨ cls e = OverflowError).
  { intros x y. destruct (to_float x) as [fx|ex] eqn:Ex.
    - destruct (to_float y) as [fy|ey] eqn:Ey.
      + destruct (PrimFloat.eqb fy zero); [|done]. intros [= <-]. by left.
      + intros [= <-]. right. by eapply to_float_raises.
    - intros [= <-]. right. by eapply to_float_raises. }
  destruct a as [a|a], b as [b|b]; try apply Hmixed.
  unfold truediv. destruct (b =? 0).
  - intros [= <-]. by left.
  - destruct (SpecFloat.SFdiv _ _ _ _); try done. intros [= <-]. by right.
Qed.

Lemma add_raises (a : num) (x : float) e :
  add a (Float x) = Raise e → cls e = OverflowError.
Proof.
  unfold add, arith. destruct a as [z|f]; [|done].
  destruct (to_float (Int z)) as [y|e'] eqn:E; [done|].
  intros [= <-]. by eapply to_float_raises.
Qed.

(** The only exceptions of [acquire]. *)
Lemma acquire_raises (self : t) (current : float) e self' zs :
  acquire current self = (Raise e, self', zs) →
  cls e = ZeroDivisionError ∨ cls e = OverflowError.
Proof.
  destruct (truediv (rate self) (interval self)) as [q|e1] eqn:Hq.
  - destruct (add (allowance self)
                (Float (PrimFloat.mul (PrimFloat.sub current (last_check self)) q)))
      as [refilled|e2] eqn:Hsum.
    + pose proof (acquire_returns self current q refilled Hq Hsum) as Hrun.
      cbv zeta in Hrun.
      destruct (lt _ (Int 1)); destruct Hrun as (x & _ & ->); done.
    + rewrite (acquire_raises_sum self current q e2 Hq Hsum).
      intros [= <- _ _]. right. by eapply add_raises.
  - rewrite (acquire_raises_division self current e1 Hq).
    intros [= <- _ _]. by eapply truediv_raises.
Qed.

Lemma program_quotient : truediv (Int 6) (Int 5) = Ok 0x1.3333333333333p+0%float.
Proof. vm_compute. reflexivity. Qed.

Lemma program_limiter_sum (a : num) (x : float) :
  a = Int 6 ∨ a = Int 5 ∨ a = Int 0 ∨ (∃ f, a = Float f) →
  ∃ f, add a (Float x) = Ok (Float f).
Proof.
  intros [->|[->|[->|[f ->]]]]; unfold add, arith, to_float.
  - replace (float_of_int 6) with (Ok 6%float : result float)
      by (vm_compute; reflexivity).
    by eexists.
  - replace (float_of_int 5) with (Ok 5%float : result float)
      by (vm_compute; reflexivity).
    by eexists.
  - rewrite float_of_int_0. by eexists.
  - by eexists.
Qed.

(** A call on the limiter of the program returns and leaves a limiter of
    the program, checked at the reading of the call. *)
Lemma program_limiter_acquire (self : t) (current : float) :
  program_limiter self →
  ∃ self' zs,
    acquire current self = (Ok (), self', zs)
    ∧ program_limiter self'
    ∧ last_check self' = current.
Proof.
  intros (Hr & Hi & Ha).
  pose proof program_quotient as Hq. rewrite <- Hr, <- Hi in Hq.
  destruct (program_limiter_sum (allowance self)
              (PrimFloat.mul (PrimFloat.sub current (last_check self))
                 0x1.3333333333333p+0%float) Ha) as (f & Hsum).
  pose proof (acquire_returns self current _ _ Hq Hsum) as Hrun.
  cbv zeta in Hrun. rewrite Hr, Hi in *.
  destruct (gt (Float f) (Int 6)).
  - replace (lt (Int 6) (Int 1)) with false in Hrun by (vm_compute; reflexivity).
    destruct Hrun as (left & Hleft & ->).
    unfold sub, arith in Hleft. injection Hleft as <-.
    eexists _, _. split; [done|]. split; [|done].
    split_and!; cbn; [done|done|]. right. by left.
  - destruct (lt (Float f) (Int 1)).
    + destruct Hrun as (delay & _ & ->).
      eexists _, _. split; [done|]. split; [|done].
      split_and!; cbn; [done|done|]. right. right. by left.
    + destruct Hrun as (left & Hleft & ->).
      unfold sub, arith, to_float in Hleft. rewrite float_of_int_1 in Hleft.
      injection Hleft as <-.
      eexists _, _. split; [done|]. split; [|done].
      split_and!; cbn; [done|done|]. right. right. right. by eexists.
Qed.

Lemma program_limiter_acquire_all (readings : list float) :
  ∀ self, program_limiter self →
          ∃ self' zs, acquire_all readings self = (Ok (), self', zs)
                      ∧ program_limiter self'.
Proof.
  induction readings as [|current rest IH]; intros self Hp.
  - by exists self, [].
  - cbn [acquire_all].
    destruct (program_limiter_acquire self current Hp) as (self1 & zs & -> & Hp1 & _).
    destruct (IH self1 Hp1) as (self' & zs' & -> & Hp').
    by eexists _, _.
Qed.

(** C9. [acquire] in double precision. With [t] the clock reading less
    [last_check], the allowance is increased by [t * (R / I)], the
    quotient, the product and the sum each rounded to the nearest double,
    and replaced by [R] when it exceeds [R]; below 1 the caller sleeps [1]
    less the allowance and the allowance is set to 0, otherwise 1 is taken
    from the allowance and nothing is slept. The call raises exactly when
    the quotient or the sum raises, once [last_check] is assigned and
    with the allowance as it was: [ZeroDivisionError] for the interval 0,
    [OverflowError] for an [int] beyond the doubles. The limiter of the
    program, [RateLimiter(rate=6, interval=5)], never raises, however many
    calls are made and whatever the clock reads. *)
Theorem acquire_token_bucket (self : t) (current : float) :
  let elapsed := PrimFloat.sub current (last_check self) in
  let checked := mk (rate self) (interval self) (allowance self) current in
  (∀ e, truediv (rate self) (interval self) = Raise e →
        acquire current self = (Raise e, checked, []))
  ∧ (∀ per_second e,
       truediv (rate self) (interval self) = Ok per_second →
       add (allowance self) (Float (PrimFloat.mul elapsed per_second)) = Raise e →
       acquire current self = (Raise e, checked, []))
  ∧ (∀ per_second refilled,
       truediv (rate self) (interval self) = Ok per_second →
       add (allowance self) (Float (PrimFloat.mul elapsed per_second)) = Ok refilled →
       let available := if gt refilled (rate self) then rate self else refilled in
       if lt available (Int 1)
       then ∃ delay,
              sub (Int 1) available = Ok delay
              ∧ acquire current self
                = (Ok (), mk (rate self) (interval self) (Int 0) current, [delay])
       else ∃ left,
              sub available (Int 1) = Ok left
              ∧ acquire current self
                = (Ok (), mk (rate self) (interval self) left current, []))
  ∧ (interval self = Int 0 →
     ∃ e, acquire current self = (Raise e, checked, []) ∧ cls e = ZeroDivisionError)
  ∧ (∀ r i,
       rate self = Float r →
       interval self = Float i →
       (PrimFloat.eqb i PrimFloat.zero = true →
        ∃ e, acquire current self = (Raise e, checked, []) ∧ cls e = ZeroDivisionError)
       ∧ (PrimFloat.eqb i PrimFloat.zero = false →
          ∀ a, allowance self = Float a →
               ∃ self' zs, acquire current self = (Ok (), self', zs)))
  ∧ (∀ e self' zs,
       acquire current self = (Raise e, self', zs) →
       cls e = ZeroDivisionError ∨ cls e = OverflowError)
  ∧ (∀ readings now,
       ∃ self' zs,
         acquire_all readings (init (Int 6) (Int 5) now) = (Ok (), self', zs)).
Proof.
  cbv zeta. split_and!.
  - intros e. apply acquire_raises_division.
  - intros per_second e. apply acquire_raises_sum.
  - intros per_second refilled. apply acquire_returns.
  - apply acquire_zero_interval.
  - intros r i. apply acquire_floats.
  - intros e self' zs. apply acquire_raises.
  - intros readings now.
    destruct (program_limiter_acquire_all readings (init (Int 6) (Int 5) now))
      as (self' & zs & Hrun & _).
    + split_and!; cbn; [done|done|by left].
    + by exists self', zs.
Qed.

(** The limiter of the program with a tenth of a token, three quarters of
    a second after the last check: the sum is just below 1, and the call
    sleeps. *)
Lemma acquire_token_bucket_witness :
  acquire 0.75 (mk (Int 6) (Int 5) (Float 0x1.999999999999ap-4) 0)
  = (Ok (), mk (Int 6) (Int 5) (Int 0) 0.75, [Float 0x1p-53]).
Proof.
  destruct (acquire_token_bucket (mk (Int 6) (Int 5) (Float 0x1.999999999999ap-4) 0) 0.75)
    as (_ & _ & Hrun & _).
  specialize (Hrun 0x1.3333333333333p+0%float (Float 0x1.fffffffffffffp-1)
                ltac:(vm_compute; reflexivity) ltac:(vm_compute; reflexivity)).
  cbv zeta in Hrun.
  replace (gt (Float 0x1.fffffffffffffp-1) (rate (mk (Int 6) (Int 5) (Float 0x1.999999999999ap-4) 0)))
    with false in Hrun by (vm_compute; reflexivity).
  replace (lt (Float 0x1.fffffffffffffp-1) (Int 1)) with true in Hrun
    by (vm_compute; reflexivity).
  destruct Hrun as (delay & Hdelay & Hrun).
  rewrite Hrun. vm_compute in Hdelay. by injection Hdelay as <-.
Defined.

(** The claim fails at that call, where the exact sum is not below 1 and
    no sleep is specified, and at a limiter whose interval is 0, where the
    call raises. *)
Lemma acquire_token_bucket_counterexample :
  ¬ token_bucket_as_specified (mk (Int 6) (Int 5) (Float 0x1.999999999999ap-4) 0) 0.75
  ∧ ¬ token_bucket_as_specified (mk (Int 6) (Int 0) (Int 6) 0) 1.
Proof.
  split; intros H.
  - destruct (H _ _ _ _ eq_refl eq_refl eq_refl eq_refl) as (self' & zs & Hrun & Hspec).
    vm_compute in Hrun. injection Hrun as <- <-.
    cbv zeta in Hspec.
    match type of Hspec with
    | context [Qlt_le_dec ?x 1] => destruct (Qlt_le_dec x 1) as [H1|H1]
    end.
    + vm_compute in H1. discriminate.
    + by destruct Hspec.
  - destruct (H _ _ _ _ eq_refl eq_refl eq_refl eq_refl) as (self' & zs & Hrun & _).
    vm_compute in Hrun. discriminate.
Qed.

End RateLimiterDoubles.

(** ** Pagination *)

Section PaginateProofs.
Import PivotalTrackerAPI.

Variable fetch : nat → Z → result json.

(** The offset of the [i]-th request. *)
Definition offset_of (i : nat) : Z := limit * Z.of_nat i.

(** Page [i] is a list of at least [limit] items. *)
Definition full_page (pages : nat → list json) (i : nat) : Prop :=
  fetch i (offset_of i) = Ok (JList (pages i))
  ∧ limit ≤ Z.of_nat (List.length (pages i)).

(** Page [i] is a list of fewer than [limit] items. *)
Definition short_page (pages : nat → list json) (i : nat) : Prop :=
  fetch i (offset_of i) = Ok (JList (pages i))
  ∧ Z.of_nat (List.length (pages i)) < limit.

Definition not_a_list (j : json) : Prop :=
  match j with JList _ => False | _ => True end.

Lemma offset_of_S (i : nat) : offset_of i + limit = offset_of (S i).
Proof. unfold offset_of. lia. Qed.

Lemma paginate_loop_lists (pages : nat → list json) (m : nat) :
  ∀ n fuel acc asked,
    (∀ i, (n ≤ i < n + m)%nat → full_page pages i) →
    short_page pages (n + m) →
    (m < fuel)%nat →
    paginate_loop fetch fuel n (offset_of n) acc asked
    = (Some (Ok (JList (acc ++ List.concat (pages <$> seq n (S m)))%list)),
       (asked ++ (offset_of <$> seq n (S m)))%list).
Proof.
  induction m as [|m IH]; intros n fuel acc asked Hfull Hshort Hfuel.
  - destruct fuel as [|fuel]; [lia|]. cbn [paginate_loop].
    rewrite Nat.add_0_r in Hshort. destruct Hshort as [-> Hlen].
    apply Z.ltb_lt in Hlen. rewrite Hlen. cbn. by rewrite app_nil_r.
  - destruct fuel as [|fuel]; [lia|]. cbn [paginate_loop].
    destruct (Hfull n) as [-> Hlen]; [lia|].
    apply Z.ltb_ge in Hlen. rewrite Hlen. rewrite offset_of_S.
    rewrite IH.
    + cbn [seq fmap list_fmap List.concat]. f_equal.
      * by rewrite <- !app_assoc.
      * by rewrite <- app_assoc.
    + intros i Hi. apply Hfull. lia.
    + by replace (S n + m)%nat with (n + S m)%nat by lia.
    + lia.
Qed.

Lemma paginate_loop_object (pages : nat → list json) (o : json) (m : nat) :
  ∀ n fuel acc asked,
    (∀ i, (n ≤ i < n + m)%nat → full_page pages i) →
    fetch (n + m) (offset_of (n + m)) = Ok o →
    not_a_list o →
    (m < fuel)%nat →
    paginate_loop fetch fuel n (offset_of n) acc asked
    = (Some (Ok o), (asked ++ (offset_of <$> seq n (S m)))%list).
Proof.
  induction m as [|m IH]; intros n fuel acc asked Hfull Hobj Hnl Hfuel.
  - destruct fuel as [|fuel]; [lia|]. cbn [paginate_loop].
    rewrite Nat.add_0_r in Hobj. rewrite Hobj.
    by destruct o.
  - destruct fuel as [|fuel]; [lia|]. cbn [paginate_loop].
    destruct (Hfull n) as [-> Hlen]; [lia|].
    apply Z.ltb_ge in Hlen. rewrite Hlen. rewrite offset_of_S.
    rewrite (IH (S n)); try done.
    + cbn [seq fmap list_fmap]. by rewrite <- app_assoc.
    + intros i Hi. apply Hfull. lia.
    + by replace (S n + m)%nat with (n + S m)%nat by lia.
    + lia.
Qed.

(** C8. When the endpoint answers [k] pages of at least [limit] items and
    then a shorter page, [_paginate] asks for the offsets
    [0, limit, ..., k * limit], each once and in this order, and returns
    the pages concatenated in order; when instead of a page the endpoint
    answers a value that is not a list, that value is returned as it is. *)
Theorem paginate_concatenates (pages : nat → list json) (k fuel : nat) :
  (∀ i, (i < k)%nat → full_page pages i) →
  (k < fuel)%nat →
  (short_page pages k →
     _paginate fetch fuel
     = (Some (Ok (JList (List.concat (pages <$> seq 0 (S k))))),
        offset_of <$> seq 0 (S k)))
  ∧ (∀ o, fetch k (offset_of k) = Ok o → not_a_list o →
       _paginate fetch fuel = (Some (Ok o), offset_of <$> seq 0 (S k))).
Proof.
  intros Hfull Hfuel. split.
  - intros Hshort. unfold _paginate.
    change 0 with (offset_of 0).
    rewrite (paginate_loop_lists pages k); try done.
    intros i Hi. apply Hfull. lia.
  - intros o Ho Hnl. unfold _paginate.
    change 0 with (offset_of 0).
    rewrite (paginate_loop_object pages o k); try done.
    intros i Hi. apply Hfull. lia.
Qed.

End PaginateProofs.

(** Two pages of a hundred items and a last page of one. *)
Definition three_pages (n : nat) : list json :=
  if (n <? 2)%nat then repeat (JInt (Z.of_nat n)) 100 else [JInt (Z.of_nat n)].

Definition three_pages_endpoint (n : nat) (offset : Z) : result json :=
  if offset =? PivotalTrackerAPI.limit * Z.of_nat n
  then Ok (JList (three_pages n))
  else Raise (mk_exn APIError "API request failed").

Lemma paginate_concatenates_witness :
  PivotalTrackerAPI._paginate three_pages_endpoint 3
  = (Some (Ok (JList (three_pages 0 ++ three_pages 1 ++ three_pages 2 ++ [])%list)),
     [0; 100; 200]).
Proof.
  apply (proj1 (paginate_concatenates three_pages_endpoint three_pages 2 3
                  ltac:(intros [|[|i]] Hi; [split; [reflexivity|vm_compute; discriminate]
                                           |split; [reflexivity|vm_compute; discriminate]
                                           |lia])
                  ltac:(lia))).
  split; [reflexivity|reflexivity].
Defined.

(** ** The Jira client: rate limiting and error responses *)

Section JiraRequestProofs.
Import JiraAPI.

Variable MAX_RETRIES : Z.
Variable RATE_LIMIT_PAUSE : Q.
Variable server : nat → outcome.
Variable req : request.

Abbreviation loop := (request_loop MAX_RETRIES RATE_LIMIT_PAUSE server req).










End JiraRequestProofs.

(** Servers and a request to try the client on. *)
Definition a_request : JiraAPI.request :=
  JiraAPI.mk_request "POST" "https://example.atlassian.net/rest/api/3/issue" JNull.








(** ** Error responses: the Jira client and the Linear client *)

Section LinearRetryProofs.
Import LinearAPI.


End LinearRetryProofs.






(** ** What a computation adds to the trace *)

Section Emits.
Context {C S : Type}.
Implicit Types (P : C → Prop).

(** Every call [m] issues satisfies [P]. *)
Definition emits {A} P (m : Eff.M C S A) : Prop :=
  ∀ e w, ∃ new, trace (m e w).2 = (trace w ++ new)%list ∧ Forall P new.

(** [m] issues no call. *)
Definition silent {A} (m : Eff.M C S A) : Prop :=
  ∀ e w, trace (m e w).2 = trace w.

Lemma silent_emits {A} P (m : Eff.M C S A) : silent m → emits P m.
Proof. intros H e w. exists []. by rewrite H, app_nil_r. Qed.

Lemma emits_ret {A} P (a : A) : emits P (Eff.ret a : Eff.M C S A).
Proof. by apply silent_emits. Qed.

Lemma emits_raise {A} P c text : emits P (raise c text : Eff.M C S A).
Proof. by apply silent_emits. Qed.

Lemma emits_lift {A} P (r : result A) : emits P (lift r : Eff.M C S A).
Proof. by apply silent_emits. Qed.

Lemma emits_get_state P : emits P (get_state : Eff.M C S S).
Proof. by apply silent_emits. Qed.

Lemma emits_modify P f : emits P (modify f : Eff.M C S unit).
Proof. by apply silent_emits. Qed.

Lemma emits_open_rb P path : emits P (open_rb path : Eff.M C S unit).
Proof.
  apply silent_emits. intros e w. unfold open_rb. by destruct (readable e path).
Qed.

Lemma emits_path_exists P path : emits P (path_exists path : Eff.M C S bool).
Proof. by apply silent_emits. Qed.

Lemma emits_api P (c : C) : P c → emits P (api c : Eff.M C S json).
Proof. intros Hc e w. exists [c]. split; [done|]. by constructor. Qed.

Lemma emits_bind {A B} P (m : Eff.M C S A) (k : A → Eff.M C S B) :
  emits P m → (∀ a, emits P (k a)) → emits P (Eff.bind m k).
Proof.
  intros Hm Hk e w. unfold Eff.bind.
  destruct (Hm e w) as (new1 & Ht1 & HP1).
  destruct (m e w) as [[a|x] w1]; cbn [snd] in *.
  - destruct (Hk a e w1) as (new2 & Ht2 & HP2).
    exists (new1 ++ new2)%list. rewrite Ht2, Ht1, app_assoc.
    split; [done|]. by apply Forall_app.
  - by exists new1.
Qed.

Lemma emits_catch {A} P c (body : Eff.M C S A) (h : exn → Eff.M C S A) :
  emits P body → (∀ x, emits P (h x)) → emits P (catch c body h).
Proof.
  intros Hm Hh e w. unfold catch.
  destruct (Hm e w) as (new1 & Ht1 & HP1).
  destruct (body e w) as [[a|x] w1]; cbn [snd] in *.
  - by exists new1.
  - destruct (issubclass (cls x) c).
    + destruct (Hh x e w1) as (new2 & Ht2 & HP2).
      exists (new1 ++ new2)%list. rewrite Ht2, Ht1, app_assoc.
      split; [done|]. by apply Forall_app.
    + by exists new1.
Qed.

Lemma emits_for_fold {A B} P (f : B → A → Eff.M C S B) (l : list A) :
  (∀ acc x, x ∈ l → emits P (f acc x)) → ∀ acc, emits P (for_fold f l acc).
Proof.
  induction l as [|x l IH]; intros Hf acc; cbn [for_fold].
  - apply emits_ret.
  - apply emits_bind.
    + apply Hf. by left.
    + intros b. apply IH. intros acc' y Hy. apply Hf. by right.
Qed.

Lemma emits_for_each {A} P (f : A → Eff.M C S unit) (l : list A) :
  (∀ x, x ∈ l → emits P (f x)) → emits P (for_each f l).
Proof. intros Hf. apply emits_for_fold. intros _ x Hx. by apply Hf. Qed.

Lemma emits_weaken {A} P Q (m : Eff.M C S A) :
  (∀ c, P c → Q c) → emits P m → emits Q m.
Proof.
  intros HPQ Hm e w. destruct (Hm e w) as (new & Ht & HP).
  exists new. split; [done|]. by eapply Forall_impl.
Qed.

(** [m] issues a call, and the first one satisfies [P]. *)
Definition starts_with {A} P (m : Eff.M C S A) : Prop :=
  ∀ e w, ∃ c rest, P c ∧ trace (m e w).2 = (trace w ++ c :: rest)%list.

Lemma starts_api {A} P (c : C) (k : json → Eff.M C S A) :
  P c → (∀ j, emits (λ _, True) (k j)) → starts_with P (Eff.bind (api c) k).
Proof.
  intros Hc Hk e w. unfold Eff.bind, api. exists c.
  destruct (remote e (trace w) c) as [j|x].
  - destruct (Hk j e (mk_world (trace w ++ [c]) (vars w))) as (new & Ht & _).
    exists new. split; [done|]. rewrite Ht. cbn [trace]. by rewrite <- app_assoc.
  - by exists [].
Qed.

Lemma starts_catch {A} P cl (body : Eff.M C S A) (h : exn → Eff.M C S A) :
  starts_with P body → (∀ x, emits (λ _, True) (h x)) → starts_with P (catch cl body h).
Proof.
  intros Hb Hh e w. unfold catch.
  destruct (Hb e w) as (c & rest & Hc & Ht). exists c.
  destruct (body e w) as [[a|x] w1]; cbn [snd] in *; [by exists rest|].
  destruct (issubclass (cls x) cl); [|by exists rest].
  destruct (Hh x e w1) as (new & Ht2 & _).
  exists (rest ++ new)%list. split; [done|]. rewrite Ht2, Ht. by rewrite <- app_assoc.
Qed.

Lemma starts_get_state {A} P (k : S → Eff.M C S A) :
  (∀ st, starts_with P (k st)) → starts_with P (Eff.bind get_state k).
Proof. intros Hk e w. apply (Hk (vars w)). Qed.

Lemma starts_bind {A B} P (m : Eff.M C S A) (k : A → Eff.M C S B) :
  starts_with P m → (∀ a, emits (λ _, True) (k a)) → starts_with P (Eff.bind m k).
Proof.
  intros Hm Hk e w. unfold Eff.bind.
  destruct (Hm e w) as (c & rest & Hc & Ht). exists c.
  destruct (m e w) as [[a|x] w1]; cbn [snd] in *; [|by exists rest].
  destruct (Hk a e w1) as (new & Ht2 & _).
  exists (rest ++ new)%list. split; [done|]. rewrite Ht2, Ht. by rewrite <- app_assoc.
Qed.

End Emits.

(** One step of a proof that a computation only issues calls of a kind. *)
Ltac emits_step :=
  lazymatch goal with
  | |- emits _ (mbind _ _) => apply emits_bind; [|intros ?]
  | |- emits _ (Eff.bind _ _) => apply emits_bind; [|intros ?]
  | |- emits _ (mret _) => apply emits_ret
  | |- emits _ (Eff.ret _) => apply emits_ret
  | |- emits _ (catch _ _ _) => apply emits_catch; [|intros ?]
  | |- emits _ (raise _ _) => apply emits_raise
  | |- emits _ (lift _) => apply emits_lift
  | |- emits _ get_state => apply emits_get_state
  | |- emits _ (modify _) => apply emits_modify
  | |- emits _ (open_rb _) => apply emits_open_rb
  | |- emits _ (path_exists _) => apply emits_path_exists
  | |- emits _ (match ?x with _ => _ end) => destruct x eqn:?
  | |- emits _ (let _ := _ in _) => cbv zeta
  end.

Lemma emits_bind_raise {C S A B} (P : C → Prop) c text (k : A → Eff.M C S B) :
  emits P (Eff.bind (raise c text) k).
Proof. by apply silent_emits. Qed.

(** ** Strings *)

Definition chars (s : string) : list ascii := list_ascii_of_string s.

Lemma str_take_length (n : nat) (s : string) :
  (String.length (str_take n s) ≤ n)%nat ∧ (String.length (str_take n s) ≤ String.length s)%nat.
Proof.
  revert s. induction n as [|n IH]; intros [|c s]; cbn; try lia.
  destruct (IH s). lia.
Qed.

Lemma lstrip_length (s : string) : (String.length (lstrip s) ≤ String.length s)%nat.
Proof.
  induction s as [|c s IH]; cbn; [lia|].
  destruct (isspace_char c); cbn; lia.
Qed.

Lemma rstrip_length (s : string) : (String.length (rstrip s) ≤ String.length s)%nat.
Proof.
  induction s as [|c s IH]; cbn; [lia|].
  destruct (isspace_char c && is_empty (rstrip s)); cbn; lia.
Qed.

Lemma str_forall_filter (p : ascii → bool) (s : string) :
  str_forall p (str_filter p s) = true.
Proof.
  induction s as [|c s IH]; cbn; [done|].
  destruct (p c) eqn:E; cbn; [by rewrite E|done].
Qed.

Lemma str_forall_take (p : ascii → bool) (n : nat) (s : string) :
  str_forall p s = true → str_forall p (str_take n s) = true.
Proof.
  revert s. induction n as [|n IH]; intros [|c s]; cbn; try done.
  intros [Hc Hs]%andb_true_iff. by rewrite Hc, IH.
Qed.

Lemma str_forall_lstrip (p : ascii → bool) (s : string) :
  str_forall p s = true → str_forall p (lstrip s) = true.
Proof.
  induction s as [|c s IH]; cbn; [done|].
  intros [Hc Hs]%andb_true_iff.
  destruct (isspace_char c); [by apply IH|]. cbn. by rewrite Hc, Hs.
Qed.

Lemma str_forall_rstrip (p : ascii → bool) (s : string) :
  str_forall p s = true → str_forall p (rstrip s) = true.
Proof.
  induction s as [|c s IH]; cbn; [done|].
  intros [Hc Hs]%andb_true_iff.
  destruct (isspace_char c && is_empty (rstrip s)); [done|].
  cbn. by rewrite Hc, IH.
Qed.

Lemma str_filter_sublist (p : ascii → bool) (s : string) :
  sublist (chars (str_filter p s)) (chars s).
Proof.
  induction s as [|c s IH]; cbn; [constructor|].
  destruct (p c); cbn; by constructor.
Qed.

Lemma str_take_sublist (n : nat) (s : string) : sublist (chars (str_take n s)) (chars s).
Proof.
  revert s. induction n as [|n IH]; intros [|c s]; cbn; try apply sublist_nil_l.
  constructor. apply IH.
Qed.

Lemma lstrip_sublist (s : string) : sublist (chars (lstrip s)) (chars s).
Proof.
  induction s as [|c s IH]; cbn; [constructor|].
  destruct (isspace_char c); cbn; [by constructor|done].
Qed.

Lemma rstrip_sublist (s : string) : sublist (chars (rstrip s)) (chars s).
Proof.
  induction s as [|c s IH]; cbn; [constructor|].
  destruct (isspace_char c && is_empty (rstrip s)); cbn;
    [apply sublist_nil_l|by constructor].
Qed.

Lemma lstrip_first (s : string) (c : ascii) :
  first_char (lstrip s) = Some c → isspace_char c = false.
Proof.
  induction s as [|d s IH]; cbn; [done|].
  destruct (isspace_char d) eqn:E; [done|]. cbn. by intros [= <-].
Qed.

Lemma rstrip_first (s : string) (c : ascii) :
  (∀ d, first_char s = Some d → isspace_char d = false) →
  first_char (rstrip s) = Some c → isspace_char c = false.
Proof.
  destruct s as [|d s]; cbn; [done|].
  intros Hd. rewrite (Hd d eq_refl). cbn. intros [= <-]. by apply Hd.
Qed.

Lemma rstrip_last (s : string) (c : ascii) :
  last_char (rstrip s) = Some c → isspace_char c = false.
Proof.
  induction s as [|d s IH]; cbn [rstrip]; [done|].
  destruct (isspace_char d) eqn:Ed; cbn [andb].
  - destruct (rstrip s) as [|d' s'] eqn:Er; cbn [is_empty]; [done|].
    cbn [last_char]. apply IH.
  - destruct (rstrip s) as [|d' s'] eqn:Er.
    + cbn. by intros [= <-].
    + cbn [last_char]. apply IH.
Qed.

(** A string without surrounding whitespace is left as it is by
    [strip]. *)
Lemma lstrip_id (s : string) :
  (∀ c, first_char s = Some c → isspace_char c = false) → lstrip s = s.
Proof. destruct s as [|d s]; cbn; [done|]. intros H. by rewrite (H d eq_refl). Qed.

Lemma rstrip_id (s : string) :
  (∀ c, last_char s = Some c → isspace_char c = false) → rstrip s = s.
Proof.
  induction s as [|d s IH]; [done|]. intros H. cbn [rstrip].
  destruct s as [|d' s'].
  - cbn. by rewrite (H d eq_refl).
  - rewrite IH; [|intros c Hc; by apply H].
    cbn [is_empty]. by rewrite andb_false_r.
Qed.

Lemma str_filter_id (p : ascii → bool) (s : string) :
  str_forall p s = true → str_filter p s = s.
Proof.
  induction s as [|c s IH]; cbn; [done|].
  intros [Hc Hs]%andb_true_iff. by rewrite Hc, IH.
Qed.

Lemma str_take_id (n : nat) (s : string) :
  (String.length s ≤ n)%nat → str_take n s = s.
Proof.
  revert s. induction n as [|n IH]; intros [|c s]; cbn; try done; try lia.
  intros H. rewrite IH; [done|lia].
Qed.

(** ** Exceptions and handlers *)

Lemma issubclass_Exception (c : exn_class) : issubclass c Exception = true.
Proof. by destruct c. Qed.

Lemma issubclass_refl (c : exn_class) : issubclass c c = true.
Proof. by destruct c. Qed.

(** [try: body / except Exception as e: raise c(f(e))] turns every
    exception of [body] into one of class [c]. *)
Lemma catch_wrap {C S A} (c : exn_class) (f : exn → string) (body : Eff.M C S A) e w :
  catch Exception body (λ x, raise c (f x)) e w
  = match body e w with
    | (Ok a, w') => (Ok a, w')
    | (Raise x, w') => (Raise (mk_exn c (f x)), w')
    end.
Proof.
  unfold catch, raise. destruct (body e w) as [[a|x] w']; [done|].
  by rewrite issubclass_Exception.
Qed.

(** A world is its trace and its variables. *)
Lemma world_eta {C S} (w : Eff.world C S) : mk_world (trace w) (vars w) = w.
Proof. by destruct w. Qed.

(** Unfolding the operations of the monad. *)
Ltac run_monad :=
  unfold mbind, M_bind, Eff.bind, mret, M_ret, Eff.ret, open_rb, api, lift, raise,
    get_state, modify.

(** ** The titles of the Linear issues *)

Section LinearTitles.
Import Linear.

Lemma sanitize_name_length (name : string) :
  (String.length (sanitize_name name) ≤ 50)%nat.
Proof.
  unfold sanitize_name, sanitize_name_upto, strip, slice_to. cbn [Z.leb Z.compare].
  etrans; [apply rstrip_length|]. etrans; [apply lstrip_length|].
  apply (str_take_length (Z.to_nat 50)).
Qed.

Lemma sanitize_name_allowed (name : string) :
  str_forall allowed_char (sanitize_name name) = true.
Proof.
  unfold sanitize_name, sanitize_name_upto, strip, slice_to. cbn [Z.leb Z.compare].
  apply str_forall_rstrip, str_forall_lstrip, str_forall_take, str_forall_filter.
Qed.

Lemma sanitize_name_sublist (name : string) :
  sublist (chars (sanitize_name name)) (chars name).
Proof.
  unfold sanitize_name, sanitize_name_upto, strip, slice_to. cbn [Z.leb Z.compare].
  etrans; [apply rstrip_sublist|]. etrans; [apply lstrip_sublist|].
  etrans; [apply str_take_sublist|]. apply str_filter_sublist.
Qed.

Lemma sanitize_name_stripped (name : string) (c : ascii) :
  (first_char (sanitize_name name) = Some c → isspace_char c = false)
  ∧ (last_char (sanitize_name name) = Some c → isspace_char c = false).
Proof.
  unfold sanitize_name, sanitize_name_upto, strip. split.
  - apply rstrip_first. intros d. apply lstrip_first.
  - apply rstrip_last.
Qed.

Lemma sanitize_name_clean (name : string) :
  str_forall allowed_char name = true →
  (String.length name ≤ 50)%nat →
  (∀ c, first_char name = Some c → isspace_char c = false) →
  (∀ c, last_char name = Some c → isspace_char c = false) →
  sanitize_name name = name.
Proof.
  intros Hall Hlen Hfirst Hlast.
  unfold sanitize_name, sanitize_name_upto, strip, slice_to. cbn [Z.leb Z.compare].
  rewrite str_filter_id by done.
  rewrite str_take_id by (change (Z.to_nat 50) with 50%nat; lia).
  rewrite lstrip_id by done. by apply rstrip_id.
Qed.

(** The call that creates the issue of a task of [tasks] under [parent]. *)
Definition creates_sub_issue (tasks : list Task.t) (parent : json) (c : call) : Prop :=
  ∃ team task kw,
    task ∈ tasks
    ∧ c = create_issue team (sanitize_name (Task.description task)) "" kw
    ∧ kw_parent_id kw = Some parent.

(** The call that creates the issue of the story itself. *)
Definition creates_issue (pt_story : story_view) (c : call) : Prop :=
  ∃ team kw,
    c = create_issue team (sanitize_name (sv_name pt_story))
          (default "" (sv_description pt_story)) kw
    ∧ kw_parent_id kw = None.

Lemma migrate_tasks_emits (pt_tasks : list Task.t) (parent_issue : LinearIssue.t)
    (linear_team_id : json) :
  emits (creates_sub_issue pt_tasks (LinearIssue.id parent_issue))
    (migrate_tasks pt_tasks parent_issue linear_team_id).
Proof.
  unfold migrate_tasks. apply emits_for_each. intros pt_task Hin.
  apply emits_catch; [|intros x; apply emits_ret].
  apply emits_bind; [apply emits_get_state|]. intros st.
  apply emits_bind.
  { apply emits_api. by eexists _, _, _. }
  intros sub_issue_data.
  do 3 (apply emits_bind; [apply emits_lift|]; intros ?).
  apply emits_bind_raise.
Qed.

Lemma migrate_issue_emits (pt_story : story_view) (linear_team_id : json) :
  emits (λ c, creates_issue pt_story c
              ∨ ∃ parent, creates_sub_issue (sv_tasks pt_story) parent c)
    (migrate_issue pt_story linear_team_id).
Proof.
  unfold migrate_issue, attribute.
  apply emits_catch; [|intros x; apply emits_raise].
  apply emits_bind; [apply emits_get_state|]. intros st. cbv zeta.
  apply emits_bind; [apply emits_lift|]. intros priority.
  apply emits_bind; [destruct (sv_owner_ids pt_story); [apply emits_ret|apply emits_raise]|].
  intros owner_ids.
  apply emits_bind; [destruct (sv_label_ids pt_story); [apply emits_ret|apply emits_raise]|].
  intros label_ids.
  apply emits_bind.
  { apply emits_api. left. by eexists _, _. }
  intros linear_issue_data.
  do 3 (apply emits_bind; [apply emits_lift|]; intros ?).
  apply emits_bind; [|intros ?; apply emits_ret].
  destruct (sv_tasks pt_story) as [|t l] eqn:E; [apply emits_ret|].
  eapply emits_weaken; [|apply migrate_tasks_emits].
  intros c Hc. right. by eexists.
Qed.

(** The call that creates the issue of one task under the issue [parent],
    in the state [st] of the migrators. *)
Definition sub_issue_call (st : state) (team parent : json) (task : Task.t) : call :=
  create_issue team (sanitize_name (Task.description task)) ""
    (mk_issue_kwargs (workflow_states st !! "Todo") None None None None None None None
       (Some parent)).

(** Every task has the creation of its issue issued, in the order of the
    tasks and whatever the remote answers; there is no other call. *)
Lemma migrate_tasks_calls (pt_tasks : list Task.t) (parent_issue : LinearIssue.t)
    (linear_team_id : json) e :
  ∀ w : Eff.world call state,
    migrate_tasks pt_tasks parent_issue linear_team_id e w
    = (Ok (),
       mk_world
         (trace w ++ (sub_issue_call (vars w) linear_team_id (LinearIssue.id parent_issue)
                      <$> pt_tasks))
         (vars w)).
Proof.
  unfold migrate_tasks, for_each.
  induction pt_tasks as [|pt_task rest IH]; intros w.
  - cbn. by rewrite app_nil_r, world_eta.
  - cbn [for_fold fmap list_fmap]. unfold Eff.bind at 1. unfold catch at 1.
    assert (Hturn : ∃ x,
              (st ← get_state;
               sub_issue_data ←
                 api (create_issue linear_team_id (sanitize_name (Task.description pt_task)) ""
                        (mk_issue_kwargs (workflow_states st !! "Todo") None None None None
                           None None None (Some (LinearIssue.id parent_issue))));
               _ ← lift (getitem sub_issue_data "id");
               _ ← lift (getitem sub_issue_data "title");
               _ ← lift (getitem sub_issue_data "description");
               sub_issue ←
                 (raise TypeError
                    "LinearIssue.__init__() missing 1 required positional argument: 'creator_id'"
                  : M LinearIssue.t);
               if Task.complete pt_task
               then api (update_issue (LinearIssue.id sub_issue) (workflow_states st !! "Done"));;
                    mret ()
               else mret ()) e w
              = (Raise x,
                 mk_world
                   (trace w ++ [sub_issue_call (vars w) linear_team_id
                                  (LinearIssue.id parent_issue) pt_task])
                   (vars w))).
    { run_monad. cbn [trace vars]. unfold sub_issue_call.
      destruct (remote e (trace w) _) as [j|x]; cbv beta iota; [|by eexists].
      destruct (getitem j "id") as [v1|x]; cbv beta iota; [|by eexists].
      destruct (getitem j "title") as [v2|x]; cbv beta iota; [|by eexists].
      destruct (getitem j "description") as [v3|x]; cbv beta iota; by eexists. }
    destruct Hturn as (x & ->). rewrite issubclass_Exception.
    cbn [mret M_ret Eff.ret]. rewrite IH. cbn [trace vars]. by rewrite <- app_assoc.
Qed.

(** What follows the creation of the issue of a story: when Linear
    answered with an id, a title and a description, the creation of the
    issue of each task; nothing otherwise. *)
Definition sub_issue_calls (st : state) (team : json) (answer : result json)
    (tasks : list Task.t) : list call :=
  match answer with
  | Ok created =>
      match getitem created "id", getitem created "title", getitem created "description" with
      | Ok id, Ok _, Ok _ => sub_issue_call st team id <$> tasks
      | _, _, _ => []
      end
  | Raise _ => []
  end.

(** The call that creates the issue of a story whose owners are
    [owner_ids], whose labels are [label_ids] and whose priority maps to
    [priority], in the state [st] of the migrators. *)
Definition issue_call (st : state) (team : json) (pt_story : story_view)
    (owner_ids label_ids : list Z) (priority : Z) : call :=
  create_issue team (sanitize_name (sv_name pt_story))
    (default "" (sv_description pt_story))
    (mk_issue_kwargs
       (workflow_states st !! map_state (sv_current_state pt_story))
       (Some priority)
       (sv_estimate pt_story)
       match owner_ids with
       | owner :: _ => LinearUser.id <$> user_map st !! owner
       | [] => None
       end
       (if sv_requested_by_id pt_story =? 0 then None
        else LinearUser.id <$> user_map st !! sv_requested_by_id pt_story)
       (first_project (label_epic_map st) (project_map st) label_ids)
       match sv_iteration pt_story with
       | Some number => LinearCycle.id <$> cycle_map st !! number
       | None => None
       end
       (Some (Label.name <$> sv_labels pt_story))
       None).

Lemma issue_call_creates st team pt_story owner_ids label_ids priority :
  creates_issue pt_story (issue_call st team pt_story owner_ids label_ids priority).
Proof. by eexists _, _. Qed.

(** A story object that has the attributes [migrate_issue] reads and a
    priority: the creation of its issue is issued first, under the
    sanitized name, and is followed by the creation of the issue of each
    of its tasks when Linear answered with an id, a title and a
    description; there is no other call. *)
Lemma migrate_issue_calls (pt_story : story_view) (linear_team_id : json)
    (owner_ids label_ids : list Z) (priority : Z) e (w : Eff.world call state) :
  sv_owner_ids pt_story = Some owner_ids →
  sv_label_ids pt_story = Some label_ids →
  map_priority (sv_story_priority pt_story) = Ok priority →
  let c := issue_call (vars w) linear_team_id pt_story owner_ids label_ids priority in
  trace (migrate_issue pt_story linear_team_id e w).2
  = (trace w
     ++ c :: sub_issue_calls (vars w) linear_team_id (remote e (trace w) c)
               (sv_tasks pt_story))%list.
Proof.
  intros Ho Hl Hp c. subst c.
  unfold migrate_issue, attribute. rewrite Ho, Hl, Hp.
  rewrite catch_wrap. unfold sub_issue_calls, issue_call.
  unfold mbind at 1, M_bind at 1. unfold Eff.bind at 1. cbv zeta.
  unfold get_state at 1.
  unfold mbind at 1, M_bind at 1. unfold Eff.bind at 1. unfold lift at 1.
  unfold mbind at 1, M_bind at 1. unfold Eff.bind at 1. cbn [mret M_ret Eff.ret].
  unfold mbind at 1, M_bind at 1. unfold Eff.bind at 1. cbn [mret M_ret Eff.ret].
  unfold mbind at 1, M_bind at 1. unfold Eff.bind at 1. unfold api at 1.
  destruct (remote e (trace w) _) as [j|x]; [|cbn; done].
  unfold mbind at 1, M_bind at 1. unfold Eff.bind at 1. unfold lift at 1.
  destruct (getitem j "id") as [v1|x]; [|cbn; done].
  unfold mbind at 1, M_bind at 1. unfold Eff.bind at 1. unfold lift at 1.
  destruct (getitem j "title") as [v2|x]; [|cbn; done].
  unfold mbind at 1, M_bind at 1. unfold Eff.bind at 1. unfold lift at 1.
  destruct (getitem j "description") as [v3|x]; [|cbn; done].
  unfold mbind at 1, M_bind at 1. unfold Eff.bind at 1.
  destruct (sv_tasks pt_story) as [|task tasks].
  - by cbn.
  - rewrite migrate_tasks_calls. cbn [mret M_ret Eff.ret trace vars snd LinearIssue.id].
    by rewrite <- app_assoc.
Qed.

(** A row of [models.Story] has neither [owner_ids] nor [label_ids]:
    [migrate_issue] raises before any call is made. *)
Lemma migrate_issue_row (story : Story.t) (linear_team_id : json) e
    (w : Eff.world call state) :
  ∃ x, migrate_issue (story_row story) linear_team_id e w = (Raise x, w).
Proof.
  unfold migrate_issue. rewrite catch_wrap.
  unfold story_row, attribute, map_priority. cbn [sv_story_priority sv_owner_ids].
  run_monad. cbv beta iota zeta.
  destruct (Story.story_priority story); cbv beta iota; rewrite ?world_eta; by eexists.
Qed.

End LinearTitles.

(** C10. The title of every issue the Linear migration creates for a story
    or for one of its tasks is [sanitize_name] of the source text, and the
    issues are created: every task has the creation of its issue issued,
    whatever the remote answers, and a story object with the attributes the
    migrator reads has its issue created first and the issues of its tasks
    once Linear has answered with the new issue; a row of [models.Story],
    which lacks two of these attributes, has no issue created at all. The
    sanitized text has at most 50 characters, all of them alphanumeric,
    space, hyphen or underscore, in their source order, without whitespace
    at either end; a text that already is of this form is kept, any other
    is changed without notice. *)
Theorem linear_titles_are_sanitized (name : string) (pt_story : Linear.story_view)
    (linear_team_id : json) :
  ((String.length (Linear.sanitize_name name) ≤ 50)%nat
   ∧ str_forall Linear.allowed_char (Linear.sanitize_name name) = true
   ∧ sublist (chars (Linear.sanitize_name name)) (chars name)
   ∧ (∀ c, first_char (Linear.sanitize_name name) = Some c → isspace_char c = false)
   ∧ (∀ c, last_char (Linear.sanitize_name name) = Some c → isspace_char c = false)
   ∧ (str_forall Linear.allowed_char name = true →
      (String.length name ≤ 50)%nat →
      (∀ c, first_char name = Some c → isspace_char c = false) →
      (∀ c, last_char name = Some c → isspace_char c = false) →
      Linear.sanitize_name name = name))
  ∧ emits (λ c, creates_issue pt_story c
                ∨ ∃ parent, creates_sub_issue (Linear.sv_tasks pt_story) parent c)
      (Linear.migrate_issue pt_story linear_team_id)
  ∧ (∀ (pt_tasks : list Task.t) (parent_issue : Linear.LinearIssue.t) e w,
       Linear.migrate_tasks pt_tasks parent_issue linear_team_id e w
       = (Ok (),
          mk_world
            (trace w ++ (sub_issue_call (vars w) linear_team_id
                           (Linear.LinearIssue.id parent_issue) <$> pt_tasks))
            (vars w)))
  ∧ (∀ owner_ids label_ids priority e w,
       Linear.sv_owner_ids pt_story = Some owner_ids →
       Linear.sv_label_ids pt_story = Some label_ids →
       Linear.map_priority (Linear.sv_story_priority pt_story) = Ok priority →
       let c := issue_call (vars w) linear_team_id pt_story owner_ids label_ids priority in
       creates_issue pt_story c
       ∧ trace (Linear.migrate_issue pt_story linear_team_id e w).2
         = (trace w
            ++ c :: sub_issue_calls (vars w) linear_team_id (remote e (trace w) c)
                      (Linear.sv_tasks pt_story))%list)
  ∧ (∀ (story : Story.t) e w,
       ∃ x, Linear.migrate_issue (Linear.story_row story) linear_team_id e w = (Raise x, w))
  ∧ Linear.sanitize_name "Fix: login/logout (urgent!)" = "Fix loginlogout urgent".
Proof.
  split_and!.
  - apply sanitize_name_length.
  - apply sanitize_name_allowed.
  - apply sanitize_name_sublist.
  - intros c. apply sanitize_name_stripped.
  - intros c. apply sanitize_name_stripped.
  - apply sanitize_name_clean.
  - apply migrate_issue_emits.
  - intros pt_tasks parent_issue e w. apply migrate_tasks_calls.
  - intros owner_ids label_ids priority e w Ho Hl Hp c.
    split; [apply issue_call_creates|by apply migrate_issue_calls].
  - intros story e w. apply migrate_issue_row.
  - reflexivity.
Qed.

(** A story object with every attribute and a task, and a Linear that
    answers the creation of an issue with the new issue. *)
Definition a_story_view : Linear.story_view :=
  Linear.mk_story_view 7 "Fix: login/logout (urgent!)" None "started" (Some "p1")
    None [] (Some []) 1 (Some []) None [Task.mk 1 "Write a test; run it" false].

Definition empty_answers {C} : Eff.env C := mk_env (λ _ _, Ok (JDict [])) (λ _, true).

Definition linear_creates : Eff.env Linear.call :=
  mk_env (λ _ c, match c with
                 | Linear.create_issue _ title description _ =>
                     Ok (JDict [("id", JStr "issue-1"); ("title", JStr title);
                                ("description", JStr description)])
                 | _ => Ok (JDict [])
                 end) (λ _, true).

Lemma linear_titles_are_sanitized_witness :
  trace (Linear.migrate_issue a_story_view (JStr "team") linear_creates
           (mk_world [] Linear.initial)).2
  = [Linear.create_issue (JStr "team") "Fix loginlogout urgent" ""
       (Linear.mk_issue_kwargs None (Some 2) None None None None None (Some []) None);
     Linear.create_issue (JStr "team") "Write a test run it" ""
       (Linear.mk_issue_kwargs None None None None None None None None
          (Some (JStr "issue-1")))].
Proof.
  destruct (linear_titles_are_sanitized "" a_story_view (JStr "team"))
    as (_ & _ & _ & Hcalls & _).
  destruct (Hcalls [] [] 2 linear_creates (mk_world [] Linear.initial)
              eq_refl eq_refl eq_refl) as (_ & Ht).
  rewrite Ht. reflexivity.
Defined.

(** ** The comments of a story, in Jira *)

Section JiraComments.
Import Jira.

Variable cfg : config.
Variable jira_issue_key : json.

(** The call that uploads an attachment, when it has a path. *)
Definition upload (a : FileAttachment.t) : option call :=
  (λ path, add_attachment_to_issue jira_issue_key
             (path_join (path_join (base_directory cfg) "attachments") path)
             (FileAttachment.filename a)) <$> FileAttachment.file_path a.

(** [ups] are the uploads of the first attachments of [atts], in order. *)
Definition uploads_of (atts : list FileAttachment.t) (ups : list call) : Prop :=
  Forall2 (λ a u, upload a = Some u) (take (List.length ups) atts) ups.

(** The result is a value or a [CommentMigrationError]. *)
Definition ok_or_comment_error {A} (r : result A) : Prop :=
  match r with
  | Ok _ => True
  | Raise x => cls x = CommentMigrationError
  end.

Lemma migrate_attachment_runs (a : FileAttachment.t) e w :
  ∃ r new,
    migrate_attachment cfg jira_issue_key a e w
    = (r, mk_world (trace w ++ new) (vars w))
    ∧ ok_or_comment_error r
    ∧ ((new = [] ∧ is_ok r = false) ∨ (∃ u, upload a = Some u ∧ new = [u])).
Proof.
  unfold migrate_attachment. rewrite catch_wrap. unfold upload. run_monad.
  destruct (FileAttachment.file_path a) as [path|]; cbn [fmap option_fmap option_map].
  2: { eexists _, []. rewrite app_nil_r, world_eta. cbv beta iota. split; [reflexivity|]. cbn. eauto. }
  destruct (readable e _).
  2: { eexists _, []. rewrite app_nil_r, world_eta. cbv beta iota. split; [reflexivity|]. cbn. eauto. }
  cbv beta iota. cbn [trace vars].
  destruct (remote e (trace w) _) as [j|x].
  2: { eexists _, [_]. split; [reflexivity|]. cbn. eauto. }
  cbv beta iota.
  destruct (get _ "id") as [v1|x]; [|by eexists _, [_]; split; [reflexivity|]; cbn; eauto].
  destruct (get _ "filename") as [v2|x]; [|by eexists _, [_]; split; [reflexivity|]; cbn; eauto].
  destruct (get _ "size") as [v3|x]; [|by eexists _, [_]; split; [reflexivity|]; cbn; eauto].
  destruct (truthy v1 && truthy v2 && truthy v3);
    eexists _, [_]; (split; [reflexivity|]); cbn; eauto.
Qed.

(** What migrating one comment adds to the trace: the uploads of its first
    attachments in order and then, only when every attachment was uploaded,
    the creation of the comment, whose body lists as many attachments. *)
Definition comment_segment (c : prepared_comment) (seg : list call) : Prop :=
  ∃ ups tail,
    seg = (ups ++ tail)%list
    ∧ uploads_of (pc_attachments c) ups
    ∧ (tail = []
       ∨ (List.length ups = List.length (pc_attachments c)
          ∧ ∃ author attachments,
              List.length attachments = List.length (pc_attachments c)
              ∧ tail = [create_comment jira_issue_key (comment_body author c attachments)])).

(** The body of the loop over the attachments of one comment. *)
Definition attachment_step (attachments : list JiraAttachment.t)
    (pt_attachment : FileAttachment.t) : M (list JiraAttachment.t) :=
  jira_attachment ← migrate_attachment cfg jira_issue_key pt_attachment;
  mret (attachments ++ [jira_attachment])%list.

Lemma attachments_loop_runs (atts : list FileAttachment.t) :
  ∀ acc e w,
    ∃ r ups,
      for_fold attachment_step atts acc e w
      = (r, mk_world (trace w ++ ups) (vars w))
      ∧ ok_or_comment_error r
      ∧ uploads_of atts ups
      ∧ (∀ l, r = Ok l →
           List.length ups = List.length atts
           ∧ List.length l = (List.length acc + List.length atts)%nat).
Proof.
  induction atts as [|a atts IH]; intros acc e w.
  - exists (Ok acc), []. cbn. rewrite app_nil_r, world_eta.
    split_and!; [done|done|constructor|]. intros l [= <-]. lia.
  - cbn [for_fold]. unfold Eff.bind at 1. unfold attachment_step at 1.
    unfold mbind, M_bind, Eff.bind at 1.
    destruct (migrate_attachment_runs a e w) as (r & new & -> & Hr & Hnew).
    destruct r as [ja|x].
    + destruct Hnew as [[_ ?]|(u & Hu & ->)]; [done|].
      cbn [mret M_ret Eff.ret].
      destruct (IH (acc ++ [ja])%list e (mk_world (trace w ++ [u]) (vars w)))
        as (r & ups & -> & Hr' & Hups & Hlen).
      exists r, (u :: ups). cbn [trace vars]. rewrite <- app_assoc.
      split_and!; [done|done| |].
      * unfold uploads_of. cbn. by constructor.
      * intros l Hl. destruct (Hlen l Hl) as [H1 H2].
        rewrite length_app in H2. cbn in *. lia.
    + exists (Raise x), new. split_and!; [done|done| |done].
      destruct Hnew as [[-> _]|(u & Hu & ->)]; unfold uploads_of; cbn.
      * constructor.
      * by repeat constructor.
Qed.

Lemma migrate_comment_runs (c : prepared_comment) (attachments : list JiraAttachment.t) e w :
  ∃ r,
    migrate_comment jira_issue_key c attachments e w
    = (r, mk_world
            (trace w ++ [create_comment jira_issue_key
                           (comment_body (user_map (vars w) !! pc_person_id c) c attachments)])
            (vars w))
    ∧ ok_or_comment_error r.
Proof.
  unfold migrate_comment. rewrite catch_wrap. unfold get_jira_user. run_monad.
  cbv beta iota. cbn [trace vars].
  destruct (remote e (trace w) _) as [j|x]; [|by eexists].
  cbv beta iota.
  destruct (getitem j "id") as [v1|x]; [|by eexists].
  destruct (getitem j "body") as [v2|x]; [|by eexists].
  by eexists.
Qed.

(** The body of the loop of [migrate_comments]. *)
Definition comment_step (migrated_comments : list string) (pt_comment : prepared_comment)
  : M (list string) :=
  catch CommentMigrationError
    (match pc_attachments pt_comment with
     | [] =>
         jira_comment ← migrate_comment jira_issue_key pt_comment [];
         mret (migrated_comments ++ [JiraComment.id jira_comment])%list
     | pt_attachments =>
         attachments ← for_fold attachment_step pt_attachments [];
         jira_comment ← migrate_comment jira_issue_key pt_comment attachments;
         mret (migrated_comments ++ [JiraComment.id jira_comment])%list
     end)
    (λ _, mret migrated_comments).

Lemma comment_step_runs (migrated : list string) (c : prepared_comment) e w :
  ∃ migrated' seg,
    comment_step migrated c e w = (Ok migrated', mk_world (trace w ++ seg) (vars w))
    ∧ comment_segment c seg.
Proof.
  unfold comment_step, catch.
  destruct (pc_attachments c) as [|a atts] eqn:Hatts.
  - unfold mbind, M_bind, Eff.bind.
    destruct (migrate_comment_runs c [] e w) as (r & -> & Hr).
    assert (Hseg : comment_segment c
              [create_comment jira_issue_key
                 (comment_body (user_map (vars w) !! pc_person_id c) c [])]).
    { eexists [], _. rewrite Hatts. split_and!; [reflexivity|constructor|].
      right. split; [done|]. by eexists _, []. }
    destruct r as [jc|x]; cbn [mret M_ret Eff.ret].
    + by eexists _, _.
    + cbn in Hr. rewrite Hr. cbn. by eexists _, _.
  - unfold mbind, M_bind. unfold Eff.bind at 1.
    destruct (attachments_loop_runs (a :: atts) [] e w) as (r & ups & -> & Hr & Hups & Hlen).
    destruct r as [l|x].
    + destruct (Hlen l eq_refl) as [Hl1 Hl2].
      unfold Eff.bind.
      destruct (migrate_comment_runs c l e (mk_world (trace w ++ ups) (vars w)))
        as (r & -> & Hr').
      cbn [trace vars].
      assert (Hseg : comment_segment c
                (ups ++ [create_comment jira_issue_key
                           (comment_body (user_map (vars w) !! pc_person_id c) c l)])).
      { eexists ups, _. rewrite Hatts. split_and!; [reflexivity|done|].
        right. split; [done|]. by eexists _, l. }
      rewrite <- app_assoc.
      destruct r as [jc|x]; cbn [mret M_ret Eff.ret].
      * by eexists _, _.
      * cbn in Hr'. rewrite Hr'. cbn. by eexists _, _.
    + cbn in Hr. rewrite Hr. cbn. eexists _, ups. split; [done|].
      exists ups, []. rewrite app_nil_r, Hatts. split_and!; [done|done|by left].
Qed.

Lemma migrate_comments_eq (pt_comments : list prepared_comment) :
  migrate_comments cfg jira_issue_key pt_comments = for_fold comment_step pt_comments [].
Proof. reflexivity. Qed.

Lemma comments_loop_runs (cs : list prepared_comment) :
  ∀ acc e w,
    ∃ ids segs,
      for_fold comment_step cs acc e w
      = (Ok ids, mk_world (trace w ++ List.concat segs) (vars w))
      ∧ Forall2 comment_segment cs segs.
Proof.
  induction cs as [|c cs IH]; intros acc e w.
  - exists acc, []. cbn. by rewrite app_nil_r, world_eta.
  - cbn [for_fold]. unfold Eff.bind.
    destruct (comment_step_runs acc c e w) as (acc' & seg & -> & Hseg).
    destruct (IH acc' e (mk_world (trace w ++ seg) (vars w))) as (ids & segs & -> & Hsegs).
    exists ids, (seg :: segs). cbn [trace vars List.concat]. rewrite <- app_assoc.
    split; [done|]. by constructor.
Qed.

End JiraComments.

(** ** The comments of a story, in Linear *)

Section LinearComments.
Import Linear.

Lemma migrate_attachments_emits (pt_attachments : list FileAttachment.t)
    (linear_issue_id : json) :
  emits (λ _, False) (migrate_attachments pt_attachments linear_issue_id).
Proof.
  unfold migrate_attachments. apply emits_for_each. intros a _.
  apply emits_catch; [|intros x; apply emits_ret].
  unfold get_attachment_path. apply emits_bind_raise.
Qed.

(** The first call for a comment is the one that creates it, whatever
    attachments it has. *)
Lemma migrate_comment_starts (pt_comment : Comment.t) (linear_issue_id : json) :
  starts_with
    (λ c, c = create_comment linear_issue_id
                ("[Migrated from Pivotal Tracker]" ++ nl ++ nl
                 ++ fmt_opt (Comment.text pt_comment)))
    (migrate_comment pt_comment linear_issue_id).
Proof.
  unfold migrate_comment, get_linear_user.
  apply starts_catch; [|intros x; apply emits_raise].
  intros e w. unfold mbind, M_bind.
  change (Eff.bind (Eff.bind get_state ?k1) ?k2 e w) with (k2 (user_map (vars w) !! Comment.person_id pt_comment) e w).
  cbv beta zeta.
  apply starts_api; [done|].
  intros j. do 2 (apply emits_bind; [apply emits_lift|]; intros ?). cbv zeta.
  apply emits_bind; [|intros ?; apply emits_ret].
  destruct (Comment.file_attachments pt_comment); [apply emits_ret|].
  eapply emits_weaken; [|apply migrate_attachments_emits]. done.
Qed.

End LinearComments.

(** ** The calls made for the comments of a story, in Jira *)

Section JiraCommentCalls.
Import Jira.

Variable cfg : config.
Variable jira_issue_key : json.
Variable e : Eff.env call.

(** The attachment that the answer of Jira to an upload describes: the
    answer, or its first element when it is a list, has to hold an id, a
    file name and a size. *)
Definition attachment_of (answer : json) : option JiraAttachment.t :=
  let created := match answer with JList (first :: _) => first | other => other end in
  match get created "id", get created "filename", get created "size" with
  | Ok id, Ok filename, Ok size =>
      if truthy id && truthy filename && truthy size
      then Some (JiraAttachment.mk filename size)
      else None
  | _, _, _ => None
  end.

(** The file of the attachment is there to be read. *)
Definition file_found (a : FileAttachment.t) : Prop :=
  ∃ path,
    FileAttachment.file_path a = Some path
    ∧ readable e (path_join (path_join (base_directory cfg) "attachments") path) = true.

(** [uploads history atts ups r]: after the calls [history], the uploads
    [ups] are what is issued for the attachments [atts], one after the
    other and in their order, up to the first one that fails. An upload
    fails without a call when the file is not found and, after its call,
    when Jira refuses it or answers without an id, a file name or a size.
    [r] is the list of the attachments Jira answered with when every upload
    succeeded, and [None] when one failed. *)
Inductive uploads
  : list call → list FileAttachment.t → list call → option (list JiraAttachment.t) → Prop :=
| uploads_done history : uploads history [] [] (Some [])
| uploads_next history a atts u answer attachment ups r :
    upload cfg jira_issue_key a = Some u → file_found a →
    remote e history u = Ok answer → attachment_of answer = Some attachment →
    uploads (history ++ [u]) atts ups r →
    uploads history (a :: atts) (u :: ups) (cons attachment <$> r)
| uploads_no_file history a atts :
    ¬ file_found a → uploads history (a :: atts) [] None
| uploads_refused history a atts u :
    upload cfg jira_issue_key a = Some u → file_found a →
    (∀ answer, remote e history u = Ok answer → attachment_of answer = None) →
    uploads history (a :: atts) [u] None.

(** What one comment adds to the calls [history], with the users
    [users] migrated so far: the uploads of its attachments and then, when
    and only when every upload succeeded (and so always for a comment
    without attachments), the creation of the comment, whose body names the
    attachments as Jira answered them. *)
Definition comment_calls (users : gmap Z JiraUser.t) (history : list call)
    (c : prepared_comment) (seg : list call) : Prop :=
  ∃ ups r,
    uploads history (pc_attachments c) ups r
    ∧ seg = (ups ++ match r with
                    | Some attachments =>
                        [create_comment jira_issue_key
                           (comment_body (users !! pc_person_id c) c attachments)]
                    | None => []
                    end)%list.

(** The calls of the comments of a story, one comment after the other. *)
Fixpoint comments_calls (users : gmap Z JiraUser.t) (history : list call)
    (cs : list prepared_comment) (segs : list (list call)) : Prop :=
  match cs, segs with
  | [], [] => True
  | c :: cs, seg :: segs =>
      comment_calls users history c seg
      ∧ comments_calls users (history ++ seg) cs segs
  | _, _ => False
  end.

Lemma file_found_dec (a : FileAttachment.t) : file_found a ∨ ¬ file_found a.
Proof.
  unfold file_found. destruct (FileAttachment.file_path a) as [path|].
  - destruct (readable e (path_join (path_join (base_directory cfg) "attachments") path))
      eqn:Hr.
    + left. by exists path.
    + right. intros (path' & [= <-] & H). congruence.
  - right. by intros (path' & [=] & _).
Qed.

(** One attachment: no call when its file is not found; otherwise its
    upload, which succeeds exactly when Jira answers with an attachment. *)
Lemma migrate_attachment_calls (a : FileAttachment.t) (w : Eff.world call state) :
  (¬ file_found a →
     ∃ x, migrate_attachment cfg jira_issue_key a e w = (Raise x, w)
          ∧ cls x = CommentMigrationError)
  ∧ (∀ u, upload cfg jira_issue_key a = Some u → file_found a →
       ∃ r, migrate_attachment cfg jira_issue_key a e w
            = (r, mk_world (trace w ++ [u]) (vars w))
            ∧ match remote e (trace w) u with
              | Ok answer =>
                  match attachment_of answer with
                  | Some attachment => r = Ok attachment
                  | None => ∃ x, r = Raise x ∧ cls x = CommentMigrationError
                  end
              | Raise _ => ∃ x, r = Raise x ∧ cls x = CommentMigrationError
              end).
Proof.
  unfold migrate_attachment, file_found, upload, attachment_of.
  rewrite catch_wrap. run_monad.
  destruct (FileAttachment.file_path a) as [path|]; cbn [fmap option_fmap option_map].
  2: { split; [|by intros u [=]]. intros _. by eexists. }
  destruct (readable e _) eqn:Hr; cbv beta iota.
  2: { split.
       - intros _. by eexists.
       - intros u _ (path' & [= <-] & H). congruence. }
  split.
  { intros H. destruct H. by exists path. }
  intros u [= <-] _. cbn [trace vars].
  destruct (remote e (trace w) _) as [answer|x]; cbv beta iota.
  2: { eexists. split; [reflexivity|]. by eexists. }
  set (created := match answer with JList (first :: _) => first | other => other end).
  destruct (get created "id") as [v1|x]; cbv beta iota.
  2: { eexists. split; [reflexivity|]. by eexists. }
  destruct (get created "filename") as [v2|x]; cbv beta iota.
  2: { eexists. split; [reflexivity|]. by eexists. }
  destruct (get created "size") as [v3|x]; cbv beta iota.
  2: { eexists. split; [reflexivity|]. by eexists. }
  destruct (truthy v1 && truthy v2 && truthy v3); cbv beta iota.
  - eexists. split; reflexivity.
  - eexists. split; [reflexivity|]. by eexists.
Qed.

(** The loop over the attachments of one comment. *)
Lemma attachments_loop_calls (atts : list FileAttachment.t) :
  ∀ acc (w : Eff.world call state),
    ∃ res ups r,
      for_fold (attachment_step cfg jira_issue_key) atts acc e w
      = (res, mk_world (trace w ++ ups) (vars w))
      ∧ uploads (trace w) atts ups r
      ∧ match r with
        | Some attachments => res = Ok (acc ++ attachments)%list
        | None => ∃ x, res = Raise x ∧ cls x = CommentMigrationError
        end.
Proof.
  induction atts as [|a atts IH]; intros acc w.
  - exists (Ok acc), [], (Some []). cbn. rewrite !app_nil_r, world_eta.
    split_and!; [done|constructor|done].
  - cbn [for_fold]. unfold Eff.bind at 1. unfold attachment_step at 1.
    unfold mbind, M_bind, Eff.bind at 1.
    destruct (migrate_attachment_calls a w) as [Hmissing Hfound].
    destruct (file_found_dec a) as [Hf|Hf].
    + assert (Hu : ∃ u, upload cfg jira_issue_key a = Some u).
      { destruct Hf as (path & Hp & _). unfold upload. rewrite Hp. by eexists. }
      destruct Hu as (u & Hu).
      destruct (Hfound u Hu Hf) as (r & -> & Hr).
      destruct (remote e (trace w) u) as [answer|x] eqn:Hrem.
      * destruct (attachment_of answer) as [attachment|] eqn:Hatt.
        -- subst r. cbn [mret M_ret Eff.ret].
           destruct (IH (acc ++ [attachment])%list
                       (mk_world (trace w ++ [u]) (vars w)))
             as (res & ups & r & -> & Hups & Hres).
           exists res, (u :: ups), (cons attachment <$> r).
           cbn [trace vars] in *. rewrite <- app_assoc.
           split_and!; [done|by econstructor|].
           destruct r as [attachments|]; cbn; [|done].
           by rewrite Hres, <- app_assoc.
        -- destruct Hr as (x & -> & Hx).
           exists (Raise x), [u], None. split_and!; [done| |by eexists].
           apply uploads_refused; [done|done|]. intros answer' Ha. congruence.
      * destruct Hr as (x' & -> & Hx).
        exists (Raise x'), [u], None. split_and!; [done| |by eexists].
        apply uploads_refused; [done|done|]. intros answer' Ha. congruence.
    + destruct (Hmissing Hf) as (x & -> & Hx).
      exists (Raise x), [], None. rewrite app_nil_r, world_eta.
      split_and!; [done|by constructor|by eexists].
Qed.

(** The creation of one comment. *)
Lemma migrate_comment_calls (c : prepared_comment) (attachments : list JiraAttachment.t)
    (w : Eff.world call state) :
  ∃ r,
    migrate_comment jira_issue_key c attachments e w
    = (r, mk_world
            (trace w ++ [create_comment jira_issue_key
                           (comment_body (user_map (vars w) !! pc_person_id c) c attachments)])
            (vars w))
    ∧ ok_or_comment_error r.
Proof. apply migrate_comment_runs. Qed.

Lemma comment_step_calls (migrated : list string) (c : prepared_comment)
    (w : Eff.world call state) :
  ∃ migrated' seg,
    comment_step cfg jira_issue_key migrated c e w
    = (Ok migrated', mk_world (trace w ++ seg) (vars w))
    ∧ comment_calls (user_map (vars w)) (trace w) c seg.
Proof.
  unfold comment_step, catch, comment_calls.
  destruct (pc_attachments c) as [|a atts] eqn:Hatts.
  - unfold mbind, M_bind, Eff.bind.
    destruct (migrate_comment_calls c [] w) as (r & -> & Hr).
    destruct r as [jc|x]; cbn [mret M_ret Eff.ret].
    + eexists _, _. split; [reflexivity|]. exists [], (Some []).
      split; [constructor|done].
    + cbn in Hr. rewrite Hr. cbn. eexists _, _. split; [reflexivity|].
      exists [], (Some []). split; [constructor|done].
  - unfold mbind, M_bind. unfold Eff.bind at 1.
    destruct (attachments_loop_calls (a :: atts) [] w) as (res & ups & r & -> & Hups & Hres).
    destruct r as [attachments|].
    + subst res. cbn [app]. unfold Eff.bind.
      destruct (migrate_comment_calls c attachments (mk_world (trace w ++ ups) (vars w)))
        as (r & -> & Hr).
      cbn [trace vars]. rewrite <- app_assoc.
      destruct r as [jc|x]; cbn [mret M_ret Eff.ret].
      * eexists _, _. split; [reflexivity|]. by exists ups, (Some attachments).
      * cbn in Hr. rewrite Hr. cbn. eexists _, _. split; [reflexivity|].
        by exists ups, (Some attachments).
    + destruct Hres as (x & -> & Hx). rewrite Hx. cbn.
      eexists _, ups. split; [reflexivity|]. exists ups, None.
      split; [done|]. by rewrite app_nil_r.
Qed.

Lemma comments_loop_calls (cs : list prepared_comment) :
  ∀ acc (w : Eff.world call state),
    ∃ ids segs,
      for_fold (comment_step cfg jira_issue_key) cs acc e w
      = (Ok ids, mk_world (trace w ++ List.concat segs) (vars w))
      ∧ comments_calls (user_map (vars w)) (trace w) cs segs.
Proof.
  induction cs as [|c cs IH]; intros acc w.
  - exists acc, []. cbn. by rewrite app_nil_r, world_eta.
  - cbn [for_fold]. unfold Eff.bind.
    destruct (comment_step_calls acc c w) as (acc' & seg & -> & Hseg).
    destruct (IH acc' (mk_world (trace w ++ seg) (vars w))) as (ids & segs & -> & Hsegs).
    exists ids, (seg :: segs). cbn [trace vars List.concat] in *. rewrite <- app_assoc.
    split; [done|]. by split.
Qed.

End JiraCommentCalls.

(** C5 as the specification words it, for the Linear migrator: when the
    comment is created, each of its attachments has been created before. *)
Definition linear_attachments_first : Prop :=
  ∀ (comment : Comment.t) (issue : json) e w (i : nat) (body : string),
    trace (Linear.migrate_comment comment issue e w).2 !! i
    = Some (Linear.create_comment issue body) →
    ∀ a, a ∈ Comment.file_attachments comment →
      ∃ (j : nat) url,
        (j < i)%nat
        ∧ trace (Linear.migrate_comment comment issue e w).2 !! j
          = Some (Linear.create_attachment issue url (FileAttachment.filename a)).

Definition a_comment : Comment.t :=
  Comment.mk 1 (Some "see the screenshot") 1
    [FileAttachment.mk 1 "screen.png" (Some 1) (Some "99/42/1_screen.png")].

Lemma comments_order_counterexample : ¬ linear_attachments_first.
Proof.
  intros H.
  destruct (H a_comment (JStr "issue") empty_answers (mk_world [] Linear.initial) 0%nat
              ("[Migrated from Pivotal Tracker]" ++ nl ++ nl ++ "see the screenshot")
              eq_refl (FileAttachment.mk 1 "screen.png" (Some 1) (Some "99/42/1_screen.png"))
              ltac:(by left)) as (j & url & Hj & _).
  lia.
Qed.

(** C5, as the code has it. In Jira the comments of a story are handled in
    their order and the migration of the comments never raises. Each
    comment adds to the calls the uploads of its attachments, in their
    order and up to the first one that fails; the creation of the comment
    follows them when and only when every upload succeeded, with a body
    that names the attachments as Jira answered them, so that a comment
    without attachments is always created and a comment with a failed
    upload never is. In Linear the first call for a comment is the one that
    creates it. *)
Theorem comments_order :
  (∀ cfg jira_issue_key (db_comments : list Comment.t) e w,
     ∃ ids segs,
       Jira.migrate_comments cfg jira_issue_key (Jira._prepare_comments db_comments) e w
       = (Ok ids, mk_world (trace w ++ List.concat segs) (vars w))
       ∧ comments_calls cfg jira_issue_key e (Jira.user_map (vars w)) (trace w)
           (Jira._prepare_comments db_comments) segs)
  ∧ (∀ (pt_comment : Comment.t) linear_issue_id,
       starts_with
         (λ c, c = Linear.create_comment linear_issue_id
                     ("[Migrated from Pivotal Tracker]" ++ nl ++ nl
                      ++ fmt_opt (Comment.text pt_comment)))
         (Linear.migrate_comment pt_comment linear_issue_id)).
Proof.
  split.
  - intros cfg key db_comments e w. rewrite migrate_comments_eq.
    apply comments_loop_calls.
  - apply migrate_comment_starts.
Qed.

(** ** The reference in a blocker description *)

Section BlockerReference.
Import Jira.

Lemma append_nil_l (s : string) : ("" ++ s)%string = s.
Proof. reflexivity. Qed.

Lemma append_cons (c : ascii) (a b : string) :
  (String c a ++ b)%string = String c (a ++ b).
Proof. reflexivity. Qed.

Lemma split_aux_app (sep : ascii) (a b : string) :
  contains sep a = false →
  split_aux sep (a ++ b) = ((a ++ (split_aux sep b).1)%string, (split_aux sep b).2).
Proof.
  induction a as [|c a IH]; cbn [contains]; intros H.
  - rewrite !append_nil_l. by destruct (split_aux sep b).
  - destruct (decide (sep = c)) as [->|Hne]; [done|].
    rewrite !append_cons. cbn [split_aux]. rewrite (IH H).
    destruct (decide (c = sep)); [congruence|done].
Qed.

Lemma split_aux_sep (sep : ascii) (r : string) :
  split_aux sep (String sep r) = (EmptyString, (split_aux sep r).1 :: (split_aux sep r).2).
Proof.
  cbn [split_aux]. destruct (split_aux sep r).
  by destruct (decide (sep = sep)).
Qed.

Lemma split_aux_nil (sep : ascii) : split_aux sep EmptyString = (EmptyString, []).
Proof. reflexivity. Qed.

Lemma append_nil_r (s : string) : (s ++ "")%string = s.
Proof. induction s as [|c s IH]; [done|]. by rewrite append_cons, IH. Qed.

Lemma contains_app (c : ascii) (a b : string) :
  contains c (a ++ b) = contains c a || contains c b.
Proof.
  induction a as [|d a IH]; [done|]. rewrite append_cons. cbn [contains].
  destruct (decide (c = d)); [done|apply IH].
Qed.

(** The text [process_blockers] tests for digits: what stands between the
    first [#] and the next [#] or space. *)
Definition blocker_token (blocker_content : string) : option string :=
  match split "#" blocker_content with
  | _ :: piece :: _ => Some (hd EmptyString (split " " piece))
  | _ => None
  end.

Definition ends_token (rest : string) : Prop :=
  rest = EmptyString ∨ ∃ r, rest = String " " r ∨ rest = String "#" r.

Lemma blocker_token_spec (pre tok rest : string) :
  contains "#" pre = false → contains "#" tok = false → contains " " tok = false →
  ends_token rest →
  blocker_token (pre ++ "#" ++ tok ++ rest) = Some tok.
Proof.
  intros Hpre Htok1 Htok2 Hrest. unfold blocker_token, split.
  rewrite (split_aux_app _ pre) by done.
  change ("#" ++ tok ++ rest)%string with (String "#" (tok ++ rest)).
  rewrite split_aux_sep. cbn [fst snd].
  rewrite (split_aux_app "#" tok) by done. cbn [fst snd].
  f_equal.
  destruct Hrest as [-> | [r [-> | ->]]].
  - rewrite split_aux_nil. cbn [fst snd]. rewrite append_nil_r.
    rewrite <- (append_nil_r tok) at 1.
    rewrite (split_aux_app " " tok) by done. cbn. by rewrite append_nil_r.
  - cbn [split_aux]. destruct (split_aux "#" r) as [h t]. cbn [decide].
    destruct (decide (" "%char = "#"%char)); [done|]. cbn [fst snd].
    rewrite (split_aux_app " " tok) by done.
    change (String " " h) with (String " " h). rewrite split_aux_sep.
    cbn. by rewrite append_nil_r.
  - rewrite split_aux_sep. cbn [fst snd]. rewrite append_nil_r.
    rewrite <- (append_nil_r tok) at 1.
    rewrite (split_aux_app " " tok) by done. cbn. by rewrite append_nil_r.
Qed.

Lemma blocker_reference_token (s : string) :
  contains "#" s = true →
  blocker_reference s
  = match blocker_token s with
    | Some blocker_id =>
        if isdigit blocker_id then
          match int_of_str blocker_id with
          | Ok n => Ok (Some n)
          | Raise e => Raise e
          end
        else Ok None
    | None => Raise (mk_exn IndexError "list index out of range")
    end.
Proof.
  intros H. unfold blocker_reference, blocker_token. rewrite H.
  by destruct (split "#" s) as [|? [|? ?]].
Qed.

(** The number a run of decimal digits writes. *)
Definition decimal_value (digits : string) : Z :=
  match NilEmpty.uint_of_string digits with
  | Some u => Z.of_uint u
  | None => 0
  end.






Lemma str_forall_first (p : ascii → bool) (s : string) (c : ascii) :
  str_forall p s = true → first_char s = Some c → p c = true.
Proof. destruct s; cbn; [done|]. intros [H _]%andb_true_iff [= <-]. done. Qed.

Lemma str_forall_last (p : ascii → bool) (s : string) (c : ascii) :
  str_forall p s = true → last_char s = Some c → p c = true.
Proof.
  induction s as [|d s IH]; cbn [str_forall last_char]; [done|].
  intros [Hd Hs]%andb_true_iff. destruct s; [by intros [= <-]|by apply IH].
Qed.

Lemma str_forall_impl (p q : ascii → bool) (s : string) :
  (∀ c, p c = true → q c = true) → str_forall p s = true → str_forall q s = true.
Proof.
  intros Hpq. induction s as [|c s IH]; cbn; [done|].
  intros [Hc Hs]%andb_true_iff. by rewrite (Hpq c Hc), IH.
Qed.




(** The reference as the specification words it: the first run of digits
    that follows a [#]. *)
Fixpoint digit_run (s : string) : string :=
  match s with
  | String c r => if isdecimal_char c then String c (digit_run r) else EmptyString
  | EmptyString => EmptyString
  end.

Fixpoint first_hash_digit_run (s : string) : option string :=
  match s with
  | EmptyString => None
  | String c r =>
      if decide (c = "#"%char) then
        if is_empty (digit_run r) then first_hash_digit_run r else Some (digit_run r)
      else first_hash_digit_run r
  end.

Definition reference_by_spec (s : string) : option Z :=
  decimal_value <$> first_hash_digit_run s.

Lemma first_hash_digit_run_none (s : string) :
  contains "#" s = false → first_hash_digit_run s = None.
Proof.
  induction s as [|c s IH]; cbn; [done|].
  destruct (decide ("#"%char = c)) as [<-|Hne]; [done|].
  destruct (decide (c = "#"%char)); [congruence|done].
Qed.



End BlockerReference.



Example blocker_reference_full_stop :
  Jira.blocker_reference "Blocked by #42." = Ok None
  ∧ reference_by_spec "Blocked by #42." = Some 42.
Proof. split; reflexivity. Qed.



(** ** Computations that cannot return *)

Section Fails.
Context {C S : Type}.

(** [m] raises, whatever the remote answers. *)
Definition fails {A} (m : Eff.M C S A) : Prop :=
  ∀ e w, ∃ x w', m e w = (Raise x, w').

Lemma fails_raise {A} c text : fails (raise c text : Eff.M C S A).
Proof. intros e w. by eexists _, _. Qed.

Lemma fails_bind_l {A B} (m : Eff.M C S A) (k : A → Eff.M C S B) :
  fails m → fails (Eff.bind m k).
Proof.
  intros Hm e w. unfold Eff.bind. destruct (Hm e w) as (x & w' & ->). by eexists _, _.
Qed.

Lemma fails_bind_r {A B} (m : Eff.M C S A) (k : A → Eff.M C S B) :
  (∀ a, fails (k a)) → fails (Eff.bind m k).
Proof.
  intros Hk e w. unfold Eff.bind. destruct (m e w) as [[a|x] w'].
  - apply Hk.
  - by eexists _, _.
Qed.

End Fails.

(** ** The Linear orchestrator *)

Section LinearOrchestrator.
Import Linear.

(** The processed teams are read as text: no [int] is among them. *)
Lemma get_processed_teams_text e w :
  ∃ l, get_processed_teams e w = (Ok l, w) ∧ ∀ n, VInt n ∉ l.
Proof.
  unfold get_processed_teams. run_monad. cbv beta iota.
  destruct (processed_teams_file (vars w)) as [content|].
  - eexists. split; [reflexivity|]. intros n [s [? _]]%list_elem_of_fmap. done.
  - exists []. split; [done|]. intros n Hn. by apply not_elem_of_nil in Hn.
Qed.

Lemma migrate_issues_fails pt_stories linear_team_id pt_project_id :
  fails (migrate_issues pt_stories linear_team_id pt_project_id).
Proof. unfold migrate_issues. apply fails_bind_l, fails_raise. Qed.

(** Whatever the file of processed teams holds and whatever the remote
    answers, [migrate_project] goes on to migrate and ends with a
    [LinearMigrationError]. *)
Lemma migrate_project_raises (pt_project : Project.t) (force_update : bool) e w :
  ∃ x w', migrate_project pt_project force_update e w = (Raise x, w')
          ∧ cls x = LinearMigrationError.
Proof.
  unfold migrate_project. unfold mbind at 1, M_bind at 1. unfold Eff.bind at 1.
  destruct (get_processed_teams_text e w) as (l & -> & Hl).
  rewrite bool_decide_eq_false_2 by apply Hl. cbn [andb].
  rewrite catch_wrap.
  match goal with
  | |- context [let (_, _) := ?m e w in _] =>
      assert (Hf : fails m); [|destruct (Hf e w) as (x & w' & ->); by eexists _, _]
  end.
  do 4 (apply fails_bind_r; intros ?).
  apply fails_bind_l, migrate_issues_fails.
Qed.

End LinearOrchestrator.

Lemma emits_bind_fails {C S A B} (P : C → Prop) (m : Eff.M C S A) (k : A → Eff.M C S B) :
  emits P m → fails m → emits P (Eff.bind m k).
Proof.
  intros Hm Hf e w. unfold Eff.bind.
  destruct (Hm e w) as (new & Ht & HP). destruct (Hf e w) as (x & w' & Hrun).
  rewrite Hrun in *. by exists new.
Qed.

(** A proof that a computation built from the operations of the monad only
    adds calls to the trace. *)
Ltac emits_any :=
  repeat first
    [ emits_step
    | apply emits_api; exact I
    | apply emits_for_each; intros ? _
    | apply emits_for_fold; intros ? ? _
    | progress cbv beta ].

Section LinearExtends.
Import Linear.

Lemma migrate_team_starts (pt_project : Project.t) :
  starts_with
    (λ c, c = create_team (sanitize_name (Project.name pt_project))
                (team_key (sanitize_name (Project.name pt_project)))
                (Project.description pt_project))
    (migrate_team pt_project).
Proof.
  unfold migrate_team, setup_team. cbv zeta.
  apply starts_catch; [|intros x; apply emits_raise].
  apply starts_bind.
  - apply starts_catch; [|intros x; apply emits_raise].
    apply starts_api; [done|]. intros team.
    unfold setup_workflow_states. emits_any.
  - intros data. unfold setup_labels. emits_any.
Qed.

(** Whatever is in the file of processed teams, and with or without
    [force_update], the first thing [migrate_project] does is to create the
    team. *)
Lemma migrate_project_starts (pt_project : Project.t) (force_update : bool) :
  starts_with
    (λ c, c = create_team (sanitize_name (Project.name pt_project))
                (team_key (sanitize_name (Project.name pt_project)))
                (Project.description pt_project))
    (migrate_project pt_project force_update).
Proof.
  intros e w.
  unfold migrate_project. unfold mbind at 1, M_bind at 1. unfold Eff.bind at 1.
  destruct (get_processed_teams_text e w) as (l & -> & Hl).
  rewrite bool_decide_eq_false_2 by apply Hl. cbn [andb].
  revert e w. apply starts_catch; [|intros x; apply emits_raise].
  apply starts_bind; [apply migrate_team_starts|]. intros linear_team. cbv zeta.
  unfold migrate_users, migrate_user, migrate_projects, migrate_epic, migrate_cycles,
    migrate_cycle, isoformat.
  apply emits_bind; [emits_any|intros ?].
  apply emits_bind; [emits_any|intros ?].
  apply emits_bind; [emits_any|intros ?].
  apply emits_bind_fails; [|apply migrate_issues_fails].
  unfold migrate_issues, get_label_epic_map. apply emits_bind_raise.
Qed.

End LinearExtends.

(** Both facts at once: marking a project as processed does not keep
    [migrate_project] from migrating it again. *)
Lemma linear_marked_project_starts (pt_project : Project.t) e w :
  ∃ rest,
    trace (Linear.migrate_project pt_project false e
             (Linear.mark_team_as_processed (Project.id pt_project) e w).2).2
    = (trace w
       ++ Linear.create_team (Linear.sanitize_name (Project.name pt_project))
            (Linear.team_key (Linear.sanitize_name (Project.name pt_project)))
            (Project.description pt_project) :: rest)%list.
Proof.
  destruct (migrate_project_starts pt_project false e
              (Linear.mark_team_as_processed (Project.id pt_project) e w).2)
    as (c & rest & -> & Ht).
  exists rest. by rewrite Ht.
Qed.

(** ** The Jira orchestrator *)

Section JiraOrchestrator.
Import Jira.

Lemma get_imported_projects_reads e w : (get_imported_projects e w).2 = w.
Proof.
  unfold get_imported_projects. unfold mbind at 1, M_bind at 1. unfold Eff.bind at 1.
  unfold get_state at 1.
  destruct (imported_projects_file (vars w)) as [content|]; [|done].
  assert (H : ∀ (ls : list string) (acc : list value),
            (for_fold
               (λ acc line,
                  if is_empty (strip line) then mret acc
                  else n ← lift (int_of_str (strip line)); mret (acc ++ [VInt n])%list)
               ls acc e w).2 = w); [|apply H].
  induction ls as [|line ls IH]; intros acc; [done|].
  cbn [for_fold]. unfold Eff.bind at 1.
  destruct (is_empty (strip line)).
  - cbn [mret M_ret Eff.ret]. apply IH.
  - unfold mbind at 1, M_bind at 1. unfold Eff.bind at 1. unfold lift.
    destruct (int_of_str (strip line)) as [n|x]; [|done].
    cbn [mret M_ret Eff.ret]. apply IH.
Qed.


(** The loop of [migrate_project] over the stories that migrates their
    comments. *)
Definition comments_of_stories (cfg : config) (issue_map : gmap Z json)
    (stories : list Story.t) : M unit :=
  for_each
    (λ pt_story,
       jira_issue_key ← lookup_or_raise issue_map (Story.id pt_story);
       let comments := _prepare_comments (Story.comments pt_story) in
       migrate_comments cfg jira_issue_key comments;; mret ())
    stories.

(** It raises [KeyError] as soon as a story is not in the issue map. *)
Lemma comments_of_stories_raises (cfg : config) (issue_map : gmap Z json)
    (stories : list Story.t) :
  (∃ s, s ∈ stories ∧ issue_map !! Story.id s = None) →
  ∀ e w, ∃ x w', comments_of_stories cfg issue_map stories e w = (Raise x, w')
                 ∧ cls x = KeyError.
Proof.
  unfold comments_of_stories, for_each.
  induction stories as [|s0 stories IH]; intros (s & Hin & Hs) e w.
  - by apply not_elem_of_nil in Hin.
  - cbn [for_fold]. unfold Eff.bind at 1. unfold mbind at 1, M_bind at 1. unfold Eff.bind at 1.
    unfold lookup_or_raise.
    destruct (issue_map !! Story.id s0) as [key|] eqn:Hs0.
    + cbn [mret M_ret Eff.ret]. cbv zeta.
      unfold mbind, M_bind, Eff.bind at 1.
      rewrite migrate_comments_eq.
      destruct (comments_loop_runs cfg key (_prepare_comments (Story.comments s0)) [] e w)
        as (ids & segs & -> & _).
      cbn [mret M_ret Eff.ret]. apply IH.
      apply elem_of_cons in Hin as [->|Hin]; [congruence|by exists s].
    + by eexists _, _.
Qed.

End JiraOrchestrator.

(** ** Runs of the two migrations *)

(** A Jira that accepts every call. Issues get the keys DEMO-1, DEMO-2, ...
    in the order of their creation. *)
Definition created_issues (history : list Jira.call) : nat :=
  List.length
    (List.filter
       (λ c, match c with
             | Jira.create_issue _ _ _ _ _ | Jira.create_subtask _ _ => true
             | _ => false
             end)
       history).

Definition jira_accepts (history : list Jira.call) (c : Jira.call) : result json :=
  match c with
  | Jira.create_project key _ _ =>
      Ok (JDict [("id", JStr "10000"); ("key", JStr key);
                 ("self", JStr "https://example.atlassian.net/rest/api/3/project/10000")])
  | Jira.create_filter_for_project _ => Ok (JDict [("id", JStr "10001")])
  | Jira.create_board _ _ => Ok (JDict [("id", JInt 1)])
  | Jira.get_issue_screen_ids _ => Ok (JList [JInt 1; JInt 2])
  | Jira.get_screen_tab_id _ => Ok (JInt 10)
  | Jira.get_project_role_id _ _ => Ok (JStr "10002")
  | Jira.get_user _ => Ok (JList [])
  | Jira.create_user email =>
      Ok (JDict [("emailAddress", JStr email); ("displayName", JStr email);
                 ("accountId", JStr ("account-" ++ email))])
  | Jira.create_epic _ _ _ => Ok (JDict [("key", JStr "DEMO-EPIC")])
  | Jira.create_issue _ _ _ _ _ | Jira.create_subtask _ _ =>
      Ok (JDict [("key", JStr ("DEMO-" ++ str_of_int (Z.of_nat (S (created_issues history)))))])
  | Jira.create_sprint _ => Ok (JDict [("id", JInt 1); ("name", JStr "Sprint 1")])
  | Jira.add_attachment_to_issue _ _ filename =>
      Ok (JList [JDict [("id", JStr "1"); ("filename", JStr filename); ("size", JInt 1)]])
  | Jira.create_comment _ body => Ok (JDict [("id", JInt 1); ("body", JStr body)])
  | _ => Ok JNull
  end.

(** The same Jira, except that it refuses the issue with the given
    summary. *)
Definition jira_refuses (summary : string) (history : list Jira.call) (c : Jira.call)
  : result json :=
  match c with
  | Jira.create_issue _ _ s _ _ =>
      if decide (s = summary)
      then Raise (mk_exn JiraAPIError "HTTP Error: 400, message='Bad Request: ', url=''")
      else jira_accepts history c
  | _ => jira_accepts history c
  end.

Definition jira_config : Jira.config :=
  Jira.mk_config (Some "admin-account") "customfield_10036" 10004 "/srv/tracker".

Definition jira_start : Eff.world Jira.call Jira.state :=
  mk_world [] (Jira.mk_state ∅ None).

Definition a_story (id : Z) (blockers : list Blocker.t) : Story.t :=
  Story.mk id ("Story " ++ str_of_int id) None "feature" "unstarted" None 1 None
    [] [] [] blockers [] None.

Definition ten_stories : list Story.t :=
  (λ id, a_story id []) <$> [1; 2; 3; 4; 5; 6; 7; 8; 9; 10].

Definition ten_story_project : Project.t :=
  Project.mk 7 "Ten stories" None [] [] [] [] ten_stories.

Definition ten_story_jira_project : Jira.JiraProject.t :=
  Jira.JiraProject.mk (JStr "TENSTORIES") "Ten stories" ""
    (JStr "https://example.atlassian.net/rest/api/3/project/10000") (Some (JInt 1)).

(** The stories of a list that have an entry in an issue map. *)
Definition mapped {V} (stories : list Story.t) (r : result (gmap Z V)) : list bool :=
  match r with
  | Ok issue_map => (λ s, bool_decide (is_Some (issue_map !! Story.id s))) <$> stories
  | Raise _ => []
  end.

(** C2, on the code. Jira refuses the fifth of ten stories: the other nine
    are in the issue map, and yet the project fails, with the id of the
    missing story as the [KeyError] that the loop over the comments raised,
    and is not recorded as imported. That loop raises whenever a story is
    missing from the map. The Linear [migrate_project] raises in every
    run. *)
Theorem failed_story_fails_project :
  (mapped ten_stories
     (Jira.migrate_issues jira_config ten_story_jira_project
        (Jira._prepare_stories ten_stories)
        (mk_env (jira_refuses "Story 5") (λ _, true)) jira_start).1
   = [true; true; true; true; false; true; true; true; true; true])
  ∧ (Jira.migrate_project jira_config ten_story_project false
       (mk_env (jira_refuses "Story 5") (λ _, true)) jira_start).1
    = Raise (mk_exn JiraMigrationError "Migration failed for project Ten stories: 5")
  ∧ Jira.imported_projects_file
      (vars (Jira.migrate_project jira_config ten_story_project false
               (mk_env (jira_refuses "Story 5") (λ _, true)) jira_start).2)
    = None
  ∧ (∀ cfg issue_map stories e w,
       (∃ s, s ∈ stories ∧ issue_map !! Story.id s = None) →
       ∃ x w', comments_of_stories cfg issue_map stories e w = (Raise x, w')
               ∧ cls x = KeyError)
  ∧ (∀ pt_project force_update e w,
       ∃ x w', Linear.migrate_project pt_project force_update e w = (Raise x, w')
               ∧ cls x = LinearMigrationError).
Proof.
  split_and!.
  - by vm_compute.
  - by vm_compute.
  - by vm_compute.
  - intros cfg issue_map stories e w H. by apply comments_of_stories_raises.
  - apply migrate_project_raises.
Qed.

(** With a Jira that accepts every story the same project is imported, and
    a second run returns at once, without a call. *)
Example jira_second_run_skips :
  let first := Jira.migrate_project jira_config ten_story_project false
                 (mk_env jira_accepts (λ _, true)) jira_start in
  let second := Jira.migrate_project jira_config ten_story_project false
                  (mk_env jira_accepts (λ _, true)) first.2 in
  is_ok first.1 = true
  ∧ Jira.imported_projects_file (vars first.2) = Some ("7" ++ nl)
  ∧ second = (Ok None, first.2).
Proof. by vm_compute. Qed.

(** C1, on the code. After [mark_team_as_processed] has recorded a project,
    [migrate_project] with [force_update=False] still creates the team
    again: the file gives the ids back as text, and the id of the project
    is an [int]. *)
Theorem linear_marked_project_is_migrated_again (pt_project : Project.t) e w :
  (∃ l, Linear.get_processed_teams e
          (Linear.mark_team_as_processed (Project.id pt_project) e w).2
        = (Ok l, (Linear.mark_team_as_processed (Project.id pt_project) e w).2)
        ∧ VInt (Project.id pt_project) ∉ l)
  ∧ ∃ rest,
      trace (Linear.migrate_project pt_project false e
               (Linear.mark_team_as_processed (Project.id pt_project) e w).2).2
      = (trace w
         ++ Linear.create_team (Linear.sanitize_name (Project.name pt_project))
              (Linear.team_key (Linear.sanitize_name (Project.name pt_project)))
              (Project.description pt_project) :: rest)%list.
Proof.
  split.
  - destruct (get_processed_teams_text e
                (Linear.mark_team_as_processed (Project.id pt_project) e w).2)
      as (l & Hl & Hn).
    exists l. split; [done|apply Hn].
  - apply linear_marked_project_starts.
Qed.

Example linear_processed_teams_are_text :
  (Linear.get_processed_teams empty_answers
     (Linear.mark_team_as_processed 42 empty_answers (mk_world [] Linear.initial)).2).1
  = Ok [VStr "42"].
Proof. reflexivity. Qed.

(** ** Blockers *)

Section JiraBlockers.
Import Jira.

(** One unresolved blocker whose description refers to a story: a link is
    created from the issue of that story to the issue of the blocked story
    when both are in the map, in one call whose failure is swallowed;
    otherwise nothing is done, and nothing is raised. *)
Lemma process_blocker_spec (jira_issue_map : gmap Z json) (pt_story : prepared_story)
    (blocker : Blocker.t) (reference : Z) e w :
  Blocker.resolved blocker = false →
  blocker_reference (Blocker.description blocker) = Ok (Some reference) →
  process_blocker jira_issue_map pt_story blocker e w
  = match jira_issue_map !! reference, jira_issue_map !! ps_id pt_story with
    | Some blocker_key, Some blocked_key =>
        (Ok (), mk_world (trace w ++ [create_blocker_link blocker_key blocked_key])
                  (vars w))
    | _, _ => (Ok (), w)
    end.
Proof.
  intros Hres Href. unfold process_blocker. rewrite Hres.
  unfold mbind at 1, M_bind at 1. unfold Eff.bind at 1. unfold lift. rewrite Href.
  destruct (jira_issue_map !! reference) as [k1|]; [|done].
  destruct (jira_issue_map !! ps_id pt_story) as [k2|]; [|done].
  unfold catch, mbind, M_bind, Eff.bind, api.
  destruct (remote e (trace w) _) as [j|x]; [done|].
  by rewrite issubclass_Exception.
Qed.

End JiraBlockers.

Section LinearBlockers.
Import Linear.

(** In Linear the issue on the blocking side is looked up under
    [blocker.story], the story the blocker belongs to: an unresolved
    blocker of a migrated story gives a relation from the issue of the
    story to itself, whatever its description says. *)
Lemma migrate_blocker_self (linear_issue : LinearIssue.t) (pt_story_id : Z)
    (acc : list LinearIssueRelation.t) (blocker : Blocker.t) e w :
  issue_map (vars w) !! pt_story_id = Some linear_issue →
  Blocker.story_id blocker = Some pt_story_id →
  Blocker.resolved blocker = false →
  ∃ r,
    migrate_blocker linear_issue acc blocker e w
    = (r, mk_world (trace w ++ [create_issue_relation (LinearIssue.id linear_issue)
                                  (LinearIssue.id linear_issue) "blocks"])
            (vars w)).
Proof.
  intros Hmap Hstory Hres. unfold migrate_blocker. rewrite Hres, Hstory.
  unfold get_linear_issue. run_monad. cbv beta iota. rewrite Hmap.
  cbv beta iota. cbn [trace vars].
  destruct (remote e (trace w) _) as [j|x]; [|by eexists].
  cbv beta iota. destruct (getitem j "id"); by eexists.
Qed.

End LinearBlockers.

(** A Linear that accepts every call. *)
Definition linear_accepts (history : list Linear.call) (c : Linear.call) : result json :=
  match c with
  | Linear.create_team name key _ =>
      Ok (JDict [("id", JStr "team-1"); ("name", JStr name); ("key", JStr key)])
  | Linear.get_workflow_states _ =>
      Ok (JList [JDict [("id", JStr "state-1"); ("name", JStr "Todo")];
                 JDict [("id", JStr "state-2"); ("name", JStr "Done")]])
  | Linear.get_user _ => Ok JNull
  | Linear.create_issue _ title description _ =>
      Ok (JDict [("id", JStr ("issue-" ++ title)); ("title", JStr title);
                 ("description", JStr description)])
  | Linear.create_comment _ body => Ok (JDict [("id", JStr "comment-1"); ("body", JStr body)])
  | Linear.create_issue_relation _ _ type =>
      Ok (JDict [("id", JStr "relation-1"); ("type", JStr type)])
  | _ => Ok (JDict [("id", JStr "id-1"); ("name", JStr "name")])
  end.

Definition linear_issue_of (id : string) : Linear.LinearIssue.t :=
  Linear.LinearIssue.mk (JStr id) (JStr "") (JStr "") (JStr "team-1")
    None None None None None 0 [].

(** Story 43 is blocked by story 42. *)
Definition the_blocker : Blocker.t :=
  Blocker.mk 1 (Some 43) "Blocked by #42 pending review" false.

Definition blocked_stories : list Story.t := [a_story 42 []; a_story 43 [the_blocker]].

(** Both stories have their Linear issue, or only story 43 has. *)
Definition linear_with_issues (issues : gmap Z Linear.LinearIssue.t)
  : Eff.world Linear.call Linear.state :=
  mk_world [] (Linear.mk_state None ∅ None ∅ ∅ issues ∅ ∅).

Definition both_issues : gmap Z Linear.LinearIssue.t :=
  <[42 := linear_issue_of "issue-42"]> (<[43 := linear_issue_of "issue-43"]> ∅).

Definition only_issue_43 : gmap Z Linear.LinearIssue.t :=
  <[43 := linear_issue_of "issue-43"]> ∅.

Definition both_keys : gmap Z json :=
  <[42 := JStr "DEMO-42"]> (<[43 := JStr "DEMO-43"]> ∅).

(** C3, on the code. In Linear the blocker of story 43 that names story 42
    gives one relation, from the issue of story 43 to itself and none from
    the issue of story 42; the same relation is created when story 42 has
    no issue. In Jira the same stories give the link from the issue of 42
    to the issue of 43, and no call and no error when story 42 is not in
    the map. *)
Theorem blocker_links_story_to_itself :
  trace (Linear.migrate_relations blocked_stories (mk_env linear_accepts (λ _, true))
           (linear_with_issues both_issues)).2
  = [Linear.create_issue_relation (JStr "issue-43") (JStr "issue-43") "blocks"]
  ∧ trace (Linear.migrate_relations blocked_stories (mk_env linear_accepts (λ _, true))
             (linear_with_issues only_issue_43)).2
    = [Linear.create_issue_relation (JStr "issue-43") (JStr "issue-43") "blocks"]
  ∧ Jira.process_blockers both_keys (Jira._prepare_stories blocked_stories)
      (mk_env jira_accepts (λ _, true)) jira_start
    = (Ok (), mk_world [Jira.create_blocker_link (JStr "DEMO-42") (JStr "DEMO-43")]
                (vars jira_start))
  ∧ Jira.process_blockers (delete 42 both_keys) (Jira._prepare_stories blocked_stories)
      (mk_env jira_accepts (λ _, true)) jira_start
    = (Ok (), jira_start).
Proof. split_and!; by vm_compute. Qed.

(** * Further properties *)

(** ** The rate limiter over several calls *)

Section RateLimiterRuns.
Import RateLimiter.






End RateLimiterRuns.

(** ** Pagination: the offsets, and a page that fails *)

Section PaginateMore.
Import PivotalTrackerAPI.

Variable fetch : nat → Z → result json.

Lemma paginate_loop_offsets (fuel : nat) :
  ∀ n acc asked,
    ∃ k, (k ≤ fuel)%nat
         ∧ (paginate_loop fetch fuel n (offset_of n) acc asked).2
           = (asked ++ (offset_of <$> seq n k))%list
         ∧ ((paginate_loop fetch fuel n (offset_of n) acc asked).1 = None → k = fuel)
         ∧ ((0 < fuel)%nat → (0 < k)%nat).
Proof.
  induction fuel as [|fuel IH]; intros n acc asked.
  - exists 0%nat. cbn. rewrite app_nil_r. split_and!; [lia|done|done|lia].
  - cbn [paginate_loop].
    destruct (fetch n (offset_of n)) as [[| | | |items|]|e];
      try (exists 1%nat; cbn; split_and!; [lia|done|done|lia]).
    destruct (Z.of_nat (List.length items) <? limit).
    + exists 1%nat. cbn. split_and!; [lia|done|done|lia].
    + rewrite offset_of_S.
      destruct (IH (S n) (acc ++ items)%list (asked ++ [offset_of n])%list)
        as (k & Hk & Hasked & Hnone & _).
      exists (S k). rewrite Hasked. cbn [seq fmap list_fmap]. rewrite <- app_assoc.
      split_and!; [lia|done| |lia]. intros H. by rewrite Hnone.
Qed.

(** Whatever the endpoint answers, the offsets asked for are
    [0, limit, 2 * limit, ...], without a gap and without a repeat, at
    least one and no more than the fuel allows; the call is only cut short
    when all the fuel is used. *)
Theorem paginate_asks_consecutive_offsets (fuel : nat) :
  ∃ k, (k ≤ fuel)%nat
       ∧ (_paginate fetch fuel).2 = offset_of <$> seq 0 k
       ∧ ((_paginate fetch fuel).1 = None → k = fuel)
       ∧ ((0 < fuel)%nat → (0 < k)%nat).
Proof.
  unfold _paginate. change 0 with (offset_of 0) at 1 2.
  destruct (paginate_loop_offsets fuel 0 [] []) as (k & H). by exists k.
Qed.

Lemma paginate_loop_raises (pages : nat → list json) (e : exn) (m : nat) :
  ∀ n fuel acc asked,
    (∀ i, (n ≤ i < n + m)%nat → full_page fetch pages i) →
    fetch (n + m) (offset_of (n + m)) = Raise e →
    (m < fuel)%nat →
    paginate_loop fetch fuel n (offset_of n) acc asked
    = (Some (Raise e), (asked ++ (offset_of <$> seq n (S m)))%list).
Proof.
  induction m as [|m IH]; intros n fuel acc asked Hfull Hraise Hfuel.
  - destruct fuel as [|fuel]; [lia|]. cbn [paginate_loop].
    rewrite Nat.add_0_r in Hraise. by rewrite Hraise.
  - destruct fuel as [|fuel]; [lia|]. cbn [paginate_loop].
    destruct (Hfull n) as [-> Hlen]; [lia|].
    apply Z.ltb_ge in Hlen. rewrite Hlen. rewrite offset_of_S.
    rewrite (IH (S n)); try done.
    + cbn [seq fmap list_fmap]. by rewrite <- app_assoc.
    + intros i Hi. apply Hfull. lia.
    + by replace (S n + m)%nat with (n + S m)%nat by lia.
    + lia.
Qed.

(** When a request fails after [k] full pages, [_paginate] raises the same
    exception; the items of the pages already fetched are not returned. *)
Theorem paginate_failure_loses_pages (pages : nat → list json) (e : exn) (k fuel : nat) :
  (∀ i, (i < k)%nat → full_page fetch pages i) →
  fetch k (offset_of k) = Raise e →
  (k < fuel)%nat →
  _paginate fetch fuel = (Some (Raise e), offset_of <$> seq 0 (S k)).
Proof.
  intros Hfull Hraise Hfuel. unfold _paginate. change 0 with (offset_of 0).
  rewrite (paginate_loop_raises pages e k); try done.
  intros i Hi. apply Hfull. lia.
Qed.

End PaginateMore.

(** A page of a hundred items, then the endpoint fails. *)
Definition fails_on_second_page (n : nat) (offset : Z) : result json :=
  if (n =? 0)%nat then Ok (JList (three_pages 0))
  else Raise (mk_exn APIError "API request failed: 500").

Lemma paginate_failure_loses_pages_witness :
  PivotalTrackerAPI._paginate fails_on_second_page 5
  = (Some (Raise (mk_exn APIError "API request failed: 500")), [0; 100]).
Proof.
  apply (paginate_failure_loses_pages fails_on_second_page three_pages _ 1 5).
  - intros [|i] Hi; [|lia]. split; [reflexivity|vm_compute; discriminate].
  - reflexivity.
  - lia.
Defined.

(** ** Numbers written and read back *)









Lemma strip_no_space (s : string) :
  str_forall (λ c, negb (isspace_char c)) s = true → strip s = s.
Proof.
  intros H. unfold strip.
  rewrite lstrip_id.
  - apply rstrip_id. intros c Hc. apply negb_true_iff.
    by apply (str_forall_last (λ c, negb (isspace_char c)) s).
  - intros c Hc. apply negb_true_iff.
    by apply (str_forall_first (λ c, negb (isspace_char c)) s).
Qed.


(** ** Lines *)











(** ** The processed projects, written and read back *)




(** ** What a computation leaves of the state, and whether it can raise *)

Section Frames.
Context {C S : Type}.

(** The state after [m] is related by [R] to the state before it, whether
    [m] returns or raises. *)
Definition keeps {A} (R : relation S) (m : Eff.M C S A) : Prop :=
  ∀ e w, R (vars w) (vars (m e w).2).

(** [m] returns, whatever the remote answers. *)
Definition never_raises {A} (m : Eff.M C S A) : Prop :=
  ∀ e w, is_ok (m e w).1 = true.

(** Every exception [m] raises is of a class below [c]. *)
Definition raises_only {A} (c : exn_class) (m : Eff.M C S A) : Prop :=
  ∀ e w x, (m e w).1 = Raise x → issubclass (cls x) c = true.

Context (R : relation S) `{!PreOrder R}.

Lemma keeps_ret {A} (a : A) : keeps R (Eff.ret a : Eff.M C S A).
Proof. intros e w. reflexivity. Qed.

Lemma keeps_raise {A} c text : keeps R (raise c text : Eff.M C S A).
Proof. intros e w. reflexivity. Qed.

Lemma keeps_lift {A} (r : result A) : keeps R (lift r : Eff.M C S A).
Proof. intros e w. reflexivity. Qed.

Lemma keeps_api (c : C) : keeps R (api c : Eff.M C S json).
Proof. intros e w. reflexivity. Qed.

Lemma keeps_get_state : keeps R (get_state : Eff.M C S S).
Proof. intros e w. reflexivity. Qed.

Lemma keeps_open_rb path : keeps R (open_rb path : Eff.M C S unit).
Proof. intros e w. unfold open_rb. destruct (readable e path); reflexivity. Qed.

Lemma keeps_path_exists path : keeps R (path_exists path : Eff.M C S bool).
Proof. intros e w. reflexivity. Qed.

Lemma keeps_modify (f : S → S) : (∀ st, R st (f st)) → keeps R (modify f : Eff.M C S unit).
Proof. intros Hf e w. apply Hf. Qed.

Lemma keeps_bind {A B} (m : Eff.M C S A) (k : A → Eff.M C S B) :
  keeps R m → (∀ a, keeps R (k a)) → keeps R (Eff.bind m k).
Proof.
  intros Hm Hk e w. unfold Eff.bind. specialize (Hm e w).
  destruct (m e w) as [[a|x] w1]; cbn [snd] in *; [|done].
  etrans; [exact Hm|apply Hk].
Qed.

Lemma keeps_catch {A} c (body : Eff.M C S A) (h : exn → Eff.M C S A) :
  keeps R body → (∀ x, keeps R (h x)) → keeps R (catch c body h).
Proof.
  intros Hm Hh e w. unfold catch. specialize (Hm e w).
  destruct (body e w) as [[a|x] w1]; cbn [snd] in *; [done|].
  destruct (issubclass (cls x) c); [|done].
  etrans; [exact Hm|apply Hh].
Qed.

Lemma keeps_for_fold {A B} (f : B → A → Eff.M C S B) (l : list A) :
  (∀ acc x, keeps R (f acc x)) → ∀ acc, keeps R (for_fold f l acc).
Proof.
  intros Hf. induction l as [|x l IH]; intros acc; cbn [for_fold].
  - apply keeps_ret.
  - apply keeps_bind; [apply Hf|apply IH].
Qed.

Lemma keeps_for_each {A} (f : A → Eff.M C S unit) (l : list A) :
  (∀ x, keeps R (f x)) → keeps R (for_each f l).
Proof. intros Hf. apply keeps_for_fold. intros _ x. apply Hf. Qed.

Lemma never_raises_ret {A} (a : A) : never_raises (Eff.ret a : Eff.M C S A).
Proof. by intros e w. Qed.

Lemma never_raises_get_state : never_raises (get_state : Eff.M C S S).
Proof. by intros e w. Qed.

Lemma never_raises_modify f : never_raises (modify f : Eff.M C S unit).
Proof. by intros e w. Qed.

Lemma never_raises_bind {A B} (m : Eff.M C S A) (k : A → Eff.M C S B) :
  never_raises m → (∀ a, never_raises (k a)) → never_raises (Eff.bind m k).
Proof.
  intros Hm Hk e w. unfold Eff.bind. specialize (Hm e w).
  destruct (m e w) as [[a|x] w1]; [apply Hk|done].
Qed.

(** [try: body / except c: handler] returns when the handler does and
    [body] raises nothing but [c]. *)
Lemma never_raises_catch {A} c (body : Eff.M C S A) (h : exn → Eff.M C S A) :
  raises_only c body → (∀ x, never_raises (h x)) → never_raises (catch c body h).
Proof.
  intros Hb Hh e w. unfold catch. specialize (Hb e w).
  destruct (body e w) as [[a|x] w1]; [done|].
  rewrite (Hb x eq_refl). apply Hh.
Qed.

Lemma never_raises_catch_all {A} (body : Eff.M C S A) (h : exn → Eff.M C S A) :
  (∀ x, never_raises (h x)) → never_raises (catch Exception body h).
Proof.
  intros Hh e w. unfold catch.
  destruct (body e w) as [[a|x] w1]; [done|].
  rewrite issubclass_Exception. apply Hh.
Qed.

Lemma never_raises_for_fold {A B} (f : B → A → Eff.M C S B) (l : list A) :
  (∀ acc x, never_raises (f acc x)) → ∀ acc, never_raises (for_fold f l acc).
Proof.
  intros Hf. induction l as [|x l IH]; intros acc; cbn [for_fold].
  - apply never_raises_ret.
  - apply never_raises_bind; [apply Hf|apply IH].
Qed.

Lemma never_raises_for_each {A} (f : A → Eff.M C S unit) (l : list A) :
  (∀ x, never_raises (f x)) → never_raises (for_each f l).
Proof. intros Hf. apply never_raises_for_fold. intros _ x. apply Hf. Qed.

(** [try: body / except Exception as e: raise c(...)] raises nothing but
    [c]. *)
Lemma raises_only_wrap {A} c (f : exn → string) (body : Eff.M C S A) :
  raises_only c (catch Exception body (λ x, raise c (f x))).
Proof.
  intros e w x. rewrite catch_wrap.
  destruct (body e w) as [[a|y] w1]; [done|]. intros [= <-]. apply issubclass_refl.
Qed.

End Frames.

(** One step of a proof that a computation keeps a relation on the
    state. *)
Ltac keeps_with lem := apply lem; try solve [apply _].

Ltac keeps_step :=
  lazymatch goal with
  | |- keeps _ (mbind _ _) => keeps_with @keeps_bind; [|intros ?]
  | |- keeps _ (Eff.bind _ _) => keeps_with @keeps_bind; [|intros ?]
  | |- keeps _ (mret _) => keeps_with @keeps_ret
  | |- keeps _ (Eff.ret _) => keeps_with @keeps_ret
  | |- keeps _ (catch _ _ _) => keeps_with @keeps_catch; [|intros ?]
  | |- keeps _ (raise _ _) => keeps_with @keeps_raise
  | |- keeps _ (lift _) => keeps_with @keeps_lift
  | |- keeps _ (api _) => keeps_with @keeps_api
  | |- keeps _ get_state => keeps_with @keeps_get_state
  | |- keeps _ (open_rb _) => keeps_with @keeps_open_rb
  | |- keeps _ (path_exists _) => keeps_with @keeps_path_exists
  | |- keeps _ (for_each _ _) => keeps_with @keeps_for_each; intros ?
  | |- keeps _ (for_fold _ _ _) => keeps_with @keeps_for_fold; intros ? ?
  | |- keeps _ (modify _) => keeps_with @keeps_modify; intros ?; exact eq_refl
  | |- keeps _ (match ?x with _ => _ end) => destruct x eqn:?
  | |- keeps _ (let _ := _ in _) => cbv zeta
  end.

Ltac keeps_any := repeat first [ keeps_step | progress cbv beta ].

(** ** The Jira migrators and the file of imported projects *)

(** The file of imported projects is the same. *)
Definition same_file : relation Jira.state :=
  λ st st', Jira.imported_projects_file st' = Jira.imported_projects_file st.

#[global] Instance same_file_preorder : PreOrder same_file.
Proof.
  split; [by intros st|]. intros a b c Hab Hbc. unfold same_file in *. congruence.
Qed.

Section JiraFrames.
Import Jira.

Lemma migrate_keeps cfg pt_project : keeps same_file (migrate cfg pt_project).
Proof. unfold migrate. keeps_any. Qed.

Lemma migrate_users_keeps pt_users : keeps same_file (migrate_users pt_users).
Proof. unfold migrate_users, migrate_user. keeps_any. Qed.

Lemma migrate_epics_keeps jira_project pt_epics :
  keeps same_file (migrate_epics jira_project pt_epics).
Proof. unfold migrate_epics, migrate_epic. keeps_any. Qed.

Lemma migrate_issues_keeps cfg jira_project pt_stories :
  keeps same_file (migrate_issues cfg jira_project pt_stories).
Proof.
  unfold migrate_issues, migrate_issue, migrate_tasks, migrate_task, get_jira_user.
  keeps_any.
Qed.

Lemma link_first_keeps label_mapping label_to_epic jira_issue_key labels :
  keeps same_file (link_first label_mapping label_to_epic jira_issue_key labels).
Proof.
  induction labels as [|label_name rest IH]; cbn [link_first]; [keeps_step|].
  destruct (label_mapping !! label_name ≫= _); [|done].
  keeps_with @keeps_bind; [keeps_any|]. intros [|]; [keeps_step|done].
Qed.

Lemma link_issues_to_epics_keeps jira_issue_map epic_map pt_stories label_mapping :
  keeps same_file (link_issues_to_epics jira_issue_map epic_map pt_stories label_mapping).
Proof.
  unfold link_issues_to_epics. keeps_step.
  destruct (jira_issue_map !! _); [|keeps_step].
  destruct (truthy _); [apply link_first_keeps|keeps_step].
Qed.

Lemma process_blockers_keeps jira_issue_map pt_stories :
  keeps same_file (process_blockers jira_issue_map pt_stories).
Proof. unfold process_blockers, process_blocker. keeps_any. Qed.

Lemma migrate_sprints_keeps jira_project pt_iterations :
  keeps same_file (migrate_sprints jira_project pt_iterations).
Proof. unfold migrate_sprints, migrate_sprint. keeps_any. Qed.

Lemma associate_issues_with_sprint_keeps sprint_id issue_keys :
  keeps same_file (associate_issues_with_sprint sprint_id issue_keys).
Proof. unfold associate_issues_with_sprint. keeps_any. Qed.

Lemma migrate_comments_keeps cfg jira_issue_key pt_comments :
  keeps same_file (migrate_comments cfg jira_issue_key pt_comments).
Proof.
  unfold migrate_comments, migrate_comment, migrate_attachment, get_jira_user. keeps_any.
Qed.

End JiraFrames.

(** ** Jira: a project is imported once *)




Section JiraOnce.
Import Jira.



(** What the body of the [try] of [migrate_project] leaves of the file:
    the project recorded when it returns, nothing changed when it
    raises. *)
Definition marks {A} (project_id : Z) (m : M (option A)) : Prop :=
  ∀ e w,
    match (m e w).1 with
    | Ok r =>
        is_Some r
        ∧ imported_projects_file (vars (m e w).2)
          = Some (default "" (imported_projects_file (vars w))
                  ++ str_of_int project_id ++ nl)
    | Raise _ =>
        imported_projects_file (vars (m e w).2) = imported_projects_file (vars w)
    end.

Lemma marks_bind {A B} project_id (m : M A) (k : A → M (option B)) :
  keeps same_file m → (∀ a, marks project_id (k a)) → marks project_id (Eff.bind m k).
Proof.
  intros Hm Hk e w. unfold Eff.bind. specialize (Hm e w). unfold same_file in Hm.
  destruct (m e w) as [[a|x] w1]; cbn [fst snd] in *; [|done].
  specialize (Hk a e w1). destruct (k a e w1) as [[r|x] w2]; cbn [fst snd] in *.
  - by rewrite <- Hm.
  - by rewrite <- Hm.
Qed.

Lemma migrate_project_body_marks (cfg : config) (pt_project : Project.t) :
  marks (Project.id pt_project)
    (jira_project ← migrate cfg pt_project;
     migrate_users (Project.members pt_project);;
     let label_mapping := get_pt_label_mapping (Project.labels pt_project) in
     let epics := _prepare_epics (Project.epics pt_project) in
     epic_map ← migrate_epics jira_project epics;
     let stories := _prepare_stories (Project.stories pt_project) in
     issue_map ← migrate_issues cfg jira_project stories;
     link_issues_to_epics issue_map epic_map stories label_mapping;;
     process_blockers issue_map stories;;
     let iterations := _prepare_iterations (Project.iterations pt_project) in
     match iterations with
     | [] => mret ()
     | _ =>
         sprint_map ← migrate_sprints jira_project iterations;
         for_each
           (λ pt_iteration,
              sprint_id ← lookup_or_raise sprint_map (Iteration.number pt_iteration);
              let iteration_issue_keys :=
                omap (λ story, issue_map !! Story.id story)
                  (Iteration.stories pt_iteration) in
              associate_issues_with_sprint sprint_id iteration_issue_keys)
           (Project.iterations pt_project)
     end;;
     for_each
       (λ pt_story,
          jira_issue_key ← lookup_or_raise issue_map (Story.id pt_story);
          let comments := _prepare_comments (Story.comments pt_story) in
          migrate_comments cfg jira_issue_key comments;; mret ())
       (Project.stories pt_project);;
     mark_project_as_imported (Project.id pt_project);;
     mret (Some jira_project)).
Proof.
  apply marks_bind; [apply migrate_keeps|]. intros jira_project.
  apply marks_bind; [apply migrate_users_keeps|]. intros _. cbv zeta.
  apply marks_bind; [apply migrate_epics_keeps|]. intros epic_map.
  apply marks_bind; [apply migrate_issues_keeps|]. intros issue_map.
  apply marks_bind; [apply link_issues_to_epics_keeps|]. intros _.
  apply marks_bind; [apply process_blockers_keeps|]. intros _.
  apply marks_bind.
  { destruct (_prepare_iterations _); [keeps_step|].
    keeps_with @keeps_bind; [apply migrate_sprints_keeps|]. intros sprint_map.
    keeps_step. keeps_with @keeps_bind; [unfold lookup_or_raise; keeps_any|].
    intros sprint_id. apply associate_issues_with_sprint_keeps. }
  intros _.
  apply marks_bind.
  { keeps_step. keeps_with @keeps_bind; [unfold lookup_or_raise; keeps_any|].
    intros key. cbv zeta. keeps_with @keeps_bind; [apply migrate_comments_keeps|].
    intros _. keeps_step. }
  intros _. intros e w. unfold mark_project_as_imported. run_monad. cbn. eauto.
Qed.

End JiraOnce.



(** ** More on what a computation raises and issues *)

Section Frames2.
Context {C S : Type}.

Lemma never_raises_only {A} c (m : Eff.M C S A) : never_raises m → raises_only c m.
Proof. intros Hm e w x Hx. specialize (Hm e w). by rewrite Hx in Hm. Qed.

Lemma raises_only_bind {A B} c (m : Eff.M C S A) (k : A → Eff.M C S B) :
  raises_only c m → (∀ a, raises_only c (k a)) → raises_only c (Eff.bind m k).
Proof.
  intros Hm Hk e w x. unfold Eff.bind. specialize (Hm e w).
  destruct (m e w) as [[a|y] w1]; cbn [fst] in *.
  - apply Hk.
  - intros [= <-]. by apply Hm.
Qed.

Lemma keeps_for_fold_in {A B} (R : relation S) `{!PreOrder R}
    (f : B → A → Eff.M C S B) (l : list A) :
  (∀ acc x, x ∈ l → keeps R (f acc x)) → ∀ acc, keeps R (for_fold f l acc).
Proof.
  induction l as [|x l IH]; intros Hf acc; cbn [for_fold].
  - by apply keeps_ret.
  - apply keeps_bind; [done|apply Hf; by left|].
    intros b. apply IH. intros acc' y Hy. apply Hf. by right.
Qed.

(** [m] returns without a call and without a change of the state. *)
Definition reads {A} (m : Eff.M C S A) : Prop :=
  ∀ e w, ∃ a, m e w = (Ok a, w).

Lemma reads_ret {A} (a : A) : reads (Eff.ret a : Eff.M C S A).
Proof. intros e w. by exists a. Qed.

Lemma reads_get_state : reads (get_state : Eff.M C S S).
Proof. intros e w. by eexists. Qed.

Lemma reads_bind {A B} (m : Eff.M C S A) (k : A → Eff.M C S B) :
  reads m → (∀ a, reads (k a)) → reads (Eff.bind m k).
Proof.
  intros Hm Hk e w. unfold Eff.bind. destruct (Hm e w) as [a ->]. apply Hk.
Qed.

(** [m] issues a call that satisfies [P] and after it only calls that
    satisfy [Q]. *)
Definition heads {A} (P Q : C → Prop) (m : Eff.M C S A) : Prop :=
  ∀ e w, ∃ c rest,
    P c ∧ Forall Q rest ∧ trace (m e w).2 = (trace w ++ c :: rest)%list.

Lemma heads_api {A} P Q (c : C) (k : json → Eff.M C S A) :
  P c → (∀ j, emits Q (k j)) → heads P Q (Eff.bind (api c) k).
Proof.
  intros Hc Hk e w. unfold Eff.bind, api. exists c.
  destruct (remote e (trace w) c) as [j|x].
  - destruct (Hk j e (mk_world (trace w ++ [c]) (vars w))) as (new & Ht & HQ).
    exists new. split_and!; [done|done|]. rewrite Ht. cbn [trace]. by rewrite <- app_assoc.
  - by exists [].
Qed.

Lemma heads_reads {A B} P Q (m : Eff.M C S A) (k : A → Eff.M C S B) :
  reads m → (∀ a, heads P Q (k a)) → heads P Q (Eff.bind m k).
Proof.
  intros Hm Hk e w. unfold Eff.bind. destruct (Hm e w) as [a ->]. apply Hk.
Qed.

Lemma heads_bind {A B} P Q (m : Eff.M C S A) (k : A → Eff.M C S B) :
  heads P Q m → (∀ a, emits Q (k a)) → heads P Q (Eff.bind m k).
Proof.
  intros Hm Hk e w. unfold Eff.bind.
  destruct (Hm e w) as (c & rest & Hc & HQ & Ht). exists c.
  destruct (m e w) as [[a|x] w1]; cbn [snd] in *; [|by exists rest].
  destruct (Hk a e w1) as (new & Ht2 & HQ2).
  exists (rest ++ new)%list. split_and!; [done|by apply Forall_app|].
  rewrite Ht2, Ht. by rewrite <- app_assoc.
Qed.

Lemma heads_catch {A} P Q cl (body : Eff.M C S A) (h : exn → Eff.M C S A) :
  heads P Q body → (∀ x, emits Q (h x)) → heads P Q (catch cl body h).
Proof.
  intros Hb Hh e w. unfold catch.
  destruct (Hb e w) as (c & rest & Hc & HQ & Ht). exists c.
  destruct (body e w) as [[a|x] w1]; cbn [snd] in *; [by exists rest|].
  destruct (issubclass (cls x) cl); [|by exists rest].
  destruct (Hh x e w1) as (new & Ht2 & HQ2).
  exists (rest ++ new)%list. split_and!; [done|by apply Forall_app|].
  rewrite Ht2, Ht. by rewrite <- app_assoc.
Qed.

(** A loop whose every turn returns and issues its own calls: the trace
    grows by one segment for each element, in order. *)
Lemma for_fold_segments {A B} (seg : A → list C → Prop)
    (f : B → A → Eff.M C S B) (l : list A) e :
  (∀ acc x w, is_ok (f acc x e w).1 = true) →
  (∀ acc x w, ∃ new, trace (f acc x e w).2 = (trace w ++ new)%list ∧ seg x new) →
  ∀ acc w,
    ∃ segs, trace (for_fold f l acc e w).2 = (trace w ++ List.concat segs)%list
            ∧ Forall2 seg l segs.
Proof.
  intros Hok Hseg. induction l as [|x l IH]; intros acc w.
  - exists []. cbn. by rewrite app_nil_r.
  - cbn [for_fold]. unfold Eff.bind.
    destruct (Hseg acc x w) as (new & Ht & Hnew). specialize (Hok acc x w).
    destruct (f acc x e w) as [[b|y] w1]; [|done]. cbn [snd] in Ht.
    destruct (IH b w1) as (segs & Ht2 & Hsegs).
    exists (new :: segs). rewrite Ht2, Ht. cbn [List.concat]. rewrite <- app_assoc.
    split; [done|]. by constructor.
Qed.

End Frames2.

(** ** Jira: the stories of a project are migrated one by one *)

(** A loop that collects, under the key of each element, what its
    migration returned, and goes on when a migration raised [c]: it never
    raises, keeps the entries it had and adds entries for elements of the
    list only. *)
Lemma collect_runs {C S A V Y} (c : exn_class) (f : A → Eff.M C S Y) (key : A → Z)
    (val : Y → V) (l : list A) :
  (∀ x, raises_only c (f x)) →
  ∀ (acc : gmap Z V) e w,
    ∃ acc' w',
      for_fold
        (λ acc x, catch c (Eff.bind (f x) (λ y, Eff.ret (<[key x := val y]> acc)))
                    (λ _, Eff.ret acc))
        l acc e w
      = (Ok acc', w')
      ∧ (∀ k, is_Some (acc' !! k) → is_Some (acc !! k) ∨ k ∈ key <$> l)
      ∧ (∀ k, is_Some (acc !! k) → is_Some (acc' !! k)).
Proof.
  intros Hf. induction l as [|x l IH]; intros acc e w.
  - exists acc, w. split_and!; [done|by left|done].
  - cbn [for_fold]. unfold Eff.bind at 1. unfold catch at 1. unfold Eff.bind at 1.
    specialize (Hf x e w).
    destruct (f x e w) as [[y|err] w1]; cbn [fst] in Hf.
    + cbn [Eff.ret].
      destruct (IH (<[key x := val y]> acc) e w1) as (acc' & w' & -> & Hnew & Hold).
      exists acc', w'. split_and!; [done| |].
      * intros k Hk. destruct (Hnew k Hk) as [Hin|Hin].
        -- destruct (decide (k = key x)) as [->|Hne].
           ++ right. cbn. by left.
           ++ left. by rewrite lookup_insert_ne in Hin.
        -- right. cbn. by right.
      * intros k Hk. apply Hold. destruct (decide (k = key x)) as [->|Hne].
        -- by rewrite lookup_insert_eq.
        -- by rewrite lookup_insert_ne.
    + rewrite (Hf err eq_refl). cbn [Eff.ret].
      destruct (IH acc e w1) as (acc' & w' & -> & Hnew & Hold).
      exists acc', w'. split_and!; [done| |done].
      intros k Hk. destruct (Hnew k Hk) as [Hin|Hin]; [by left|].
      right. cbn. by right.
Qed.

Section JiraStories.
Import Jira.

Variable cfg : config.
Variable jira_project : JiraProject.t.

Definition is_create_issue (c : call) : Prop :=
  match c with create_issue _ _ _ _ _ => True | _ => False end.

(** The call that creates the issue of a story, whoever is assigned. *)
Definition creates_story (pt_story : prepared_story) (c : call) : Prop :=
  ∃ fields,
    c = create_issue (JiraProject.key jira_project)
          (issue_type_map (ps_story_type pt_story)) (ps_name pt_story)
          (ps_description pt_story) fields.

(** What one story adds to the trace: the creation of its issue, and then
    calls that create no issue of a story. *)
Definition story_segment (pt_story : prepared_story) (seg : list call) : Prop :=
  ∃ c rest, seg = c :: rest ∧ creates_story pt_story c ∧ Forall (λ c, ¬ is_create_issue c) rest.

Lemma get_jira_user_reads (pt_user_id : Z) : reads (get_jira_user pt_user_id).
Proof. unfold get_jira_user. apply reads_bind; [apply reads_get_state|]. intros st. apply reads_ret. Qed.

Ltac emits_other :=
  repeat first
    [ emits_step
    | apply emits_api; cbn; tauto
    | apply emits_for_each; intros ? _
    | apply emits_for_fold; intros ? ? _
    | progress cbv beta ].

Lemma migrate_tasks_no_issue (key : json) (pt_tasks : list Task.t) :
  emits (λ c, ¬ is_create_issue c) (migrate_tasks key pt_tasks).
Proof. unfold migrate_tasks, migrate_task. emits_other. Qed.

Lemma migrate_issue_heads (pt_story : prepared_story) :
  heads (creates_story pt_story) (λ c, ¬ is_create_issue c)
    (migrate_issue cfg jira_project pt_story).
Proof.
  unfold migrate_issue. cbv zeta.
  apply heads_catch; [|intros x; apply emits_raise].
  apply heads_reads.
  { destruct (ps_owner_ids pt_story); [apply reads_ret|apply get_jira_user_reads]. }
  intros assignee. apply heads_reads.
  { destruct (ps_requested_by_id pt_story =? 0); [apply reads_ret|apply get_jira_user_reads]. }
  intros reporter. apply heads_api; [by eexists|].
  intros created_issue. unfold migrate_tasks, migrate_task. emits_other.
Qed.

Lemma migrate_issue_raises_only (pt_story : prepared_story) :
  raises_only IssueMigrationError (migrate_issue cfg jira_project pt_story).
Proof. apply raises_only_wrap. Qed.

Lemma migrate_issue_keeps_state (pt_story : prepared_story) :
  keeps eq (migrate_issue cfg jira_project pt_story).
Proof.
  unfold migrate_issue, migrate_tasks, migrate_task, get_jira_user. keeps_any.
Qed.

End JiraStories.

(** [migrate_issues] never raises and leaves the state as it was. Every
    story of the list has the creation of its issue issued, in the order of
    the list and whatever became of the stories before it; the map returned
    has entries for stories of the list only. *)
Theorem jira_stories_are_migrated_one_by_one (cfg : Jira.config)
    (jira_project : Jira.JiraProject.t) (pt_stories : list Jira.prepared_story) e w :
  ∃ migrated_issues w' segs,
    Jira.migrate_issues cfg jira_project pt_stories e w = (Ok migrated_issues, w')
    ∧ vars w' = vars w
    ∧ trace w' = (trace w ++ List.concat segs)%list
    ∧ Forall2 (story_segment jira_project) pt_stories segs
    ∧ (∀ k, is_Some (migrated_issues !! k) → k ∈ Jira.ps_id <$> pt_stories).
Proof.
  pose (turn := λ (acc : gmap Z json) (pt_story : Jira.prepared_story),
          catch IssueMigrationError
            (Eff.bind (Jira.migrate_issue cfg jira_project pt_story)
               (λ y, Eff.ret (<[Jira.ps_id pt_story := Jira.JiraIssue.key y]> acc)))
            (λ _, Eff.ret acc)).
  assert (Hok : ∀ acc x, never_raises (turn acc x)).
  { intros acc x. apply never_raises_catch; [|intros ?; apply never_raises_ret].
    apply raises_only_bind; [apply migrate_issue_raises_only|].
    intros y. apply never_raises_only, never_raises_ret. }
  assert (Hseg : ∀ acc x e w, ∃ new,
             trace (turn acc x e w).2 = (trace w ++ new)%list
             ∧ story_segment jira_project x new).
  { intros acc x e0 w0.
    assert (Hh : heads (creates_story jira_project x) (λ c, ¬ is_create_issue c) (turn acc x)).
    { apply heads_catch; [|intros ?; apply emits_ret].
      apply heads_bind; [apply migrate_issue_heads|]. intros y. apply emits_ret. }
    destruct (Hh e0 w0) as (c & rest & Hc & Hrest & Ht).
    exists (c :: rest). split; [done|]. by exists c, rest. }
  assert (Hkeep : ∀ acc, keeps eq (for_fold turn pt_stories acc)).
  { intros acc. keeps_with @keeps_for_fold. intros acc' x. unfold turn.
    keeps_with @keeps_catch; [|intros ?; keeps_step].
    keeps_with @keeps_bind; [apply migrate_issue_keeps_state|intros y; keeps_step]. }
  destruct (collect_runs IssueMigrationError (Jira.migrate_issue cfg jira_project)
              Jira.ps_id Jira.JiraIssue.key pt_stories
              (migrate_issue_raises_only cfg jira_project) ∅ e w)
    as (migrated & w' & Hrun & Hnew & _).
  destruct (for_fold_segments (story_segment jira_project) turn pt_stories e
              (λ acc x w, Hok acc x e w) (λ acc x w, Hseg acc x e w) ∅ w)
    as (segs & Ht & Hsegs).
  specialize (Hkeep ∅ e w).
  change (for_fold turn pt_stories ∅ e w = (Ok migrated, w')) in Hrun.
  rewrite Hrun in Ht, Hkeep. cbn [snd] in Ht, Hkeep.
  exists migrated, w', segs. split_and!; [exact Hrun|done|done|done|].
  intros k Hk. destruct (Hnew k Hk) as [Hin|Hin]; [|done].
  rewrite lookup_empty in Hin. by destruct Hin.
Qed.

(** ** Jira: the users of a project *)

(** The file is the same, the user map has kept its entries, and its new
    entries are for users among [ids]. *)
Definition user_map_grows (ids : list Z) : relation Jira.state :=
  λ st st',
    Jira.imported_projects_file st' = Jira.imported_projects_file st
    ∧ (∀ id, is_Some (Jira.user_map st !! id) → is_Some (Jira.user_map st' !! id))
    ∧ (∀ id, is_Some (Jira.user_map st' !! id) →
         is_Some (Jira.user_map st !! id) ∨ id ∈ ids).

#[global] Instance user_map_grows_preorder ids : PreOrder (user_map_grows ids).
Proof.
  split.
  - intros st. split_and!; [done|done|by left].
  - intros a b c (Hf1 & Hk1 & Hn1) (Hf2 & Hk2 & Hn2). split_and!.
    + congruence.
    + intros id H. by apply Hk2, Hk1.
    + intros id H. destruct (Hn2 id H) as [Hb|Hin]; [by apply Hn1|by right].
Qed.

Section JiraUsers.
Import Jira.

(** The calls made for one user after the calls [history]: the search by
    email and, when and only when the search is answered with an empty
    result, the creation of the user. *)
Definition user_calls (e : Eff.env call) (history : list call) (pt_user : Person.t)
  : list call :=
  let search := get_user (Person.email pt_user) in
  match remote e history search with
  | Ok existing_user =>
      match len existing_user with
      | Ok n => if n <? 1 then [search; create_user (Person.email pt_user)] else [search]
      | Raise _ => [search]
      end
  | Raise _ => [search]
  end.

(** The calls made for the users of a list, one user after the other. *)
Fixpoint users_calls (e : Eff.env call) (history : list call) (pt_users : list Person.t)
  : list call :=
  match pt_users with
  | [] => []
  | pt_user :: rest =>
      let seg := user_calls e history pt_user in
      (seg ++ users_calls e (history ++ seg) rest)%list
  end.

Lemma migrate_user_raises_only (pt_user : Person.t) :
  raises_only UserMigrationError (migrate_user pt_user).
Proof. apply raises_only_wrap. Qed.

Lemma migrate_user_calls (pt_user : Person.t) e (w : Eff.world call state) :
  ∃ r, migrate_user pt_user e w
       = (r, mk_world (trace w ++ user_calls e (trace w) pt_user) (vars w)).
Proof.
  unfold migrate_user, user_calls. rewrite catch_wrap. run_monad. cbn [trace vars].
  destruct (remote e (trace w) (get_user (Person.email pt_user))) as [existing|x];
    cbv beta iota; [|by eexists].
  destruct (len existing) as [n|x]; cbv beta iota; [|by eexists].
  destruct (n =? 1) eqn:H1.
  { apply Z.eqb_eq in H1 as ->. cbn [Z.ltb Z.compare Pos.compare].
    destruct (first_item existing) as [user|x]; cbv beta iota; [|by eexists].
    destruct (getitem user "displayName") as [v1|x]; cbv beta iota; [|by eexists].
    destruct (getitem user "accountId") as [v2|x]; cbv beta iota; [|by eexists].
    destruct (getitem user "active") as [v3|x]; cbv beta iota; by eexists. }
  destruct (1 <? n) eqn:Hn.
  { replace (n <? 1) with false by (symmetry; apply Z.ltb_ge; apply Z.ltb_lt in Hn; lia).
    by eexists. }
  replace (n <? 1) with true
    by (symmetry; apply Z.ltb_lt; apply Z.ltb_ge in Hn; apply Z.eqb_neq in H1; lia).
  cbn [trace vars]. rewrite <- app_assoc. cbn [app].
  destruct (remote e _ (create_user (Person.email pt_user))) as [new_user|x];
    cbv beta iota; [|by eexists].
  destruct (getitem new_user "displayName") as [v1|x]; cbv beta iota; [|by eexists].
  destruct (getitem new_user "emailAddress") as [v2|x]; cbv beta iota; [|by eexists].
  destruct (getitem new_user "accountId") as [v3|x]; cbv beta iota; by eexists.
Qed.

Lemma migrate_users_loop_calls (pt_users : list Person.t) e :
  ∀ w : Eff.world call state,
    trace (for_each
             (λ pt_user,
                catch UserMigrationError
                  (jira_user ← migrate_user pt_user;
                   modify (set_user_map <[Person.id pt_user := jira_user]>))
                  (λ _, mret ()))
             pt_users e w).2
    = (trace w ++ users_calls e (trace w) pt_users)%list.
Proof.
  induction pt_users as [|pt_user rest IH]; intros w.
  - cbn. by rewrite app_nil_r.
  - unfold for_each in *. cbn [for_fold users_calls]. unfold Eff.bind at 1.
    unfold catch at 1. unfold mbind at 1, M_bind at 1. unfold Eff.bind at 1.
    pose proof (migrate_user_raises_only pt_user e w) as Hcls.
    destruct (migrate_user_calls pt_user e w) as (r & Hrun).
    rewrite Hrun in *. cbn [fst] in Hcls.
    destruct r as [jira_user|x].
    + unfold modify at 1. cbv beta iota. cbn [trace vars].
      rewrite IH. cbn [trace]. by rewrite <- app_assoc.
    + rewrite (Hcls x eq_refl). cbn [mret M_ret Eff.ret]. cbv beta iota.
      rewrite IH. cbn [trace]. by rewrite <- app_assoc.
Qed.

Lemma migrate_users_never_raises (pt_users : list Person.t) :
  never_raises (migrate_users pt_users).
Proof.
  unfold migrate_users. apply never_raises_bind.
  - apply never_raises_for_each. intros pt_user.
    apply never_raises_catch; [|intros ?; apply never_raises_ret].
    apply raises_only_bind; [apply migrate_user_raises_only|].
    intros jira_user. apply never_raises_only, never_raises_modify.
  - intros _. apply never_raises_bind; [apply never_raises_get_state|].
    intros st. apply never_raises_ret.
Qed.

Lemma migrate_users_grows (pt_users : list Person.t) :
  keeps (user_map_grows (Person.id <$> pt_users)) (migrate_users pt_users).
Proof.
  unfold migrate_users.
  keeps_with @keeps_bind; [|intros ?; keeps_any].
  keeps_with @keeps_for_fold_in. intros _ pt_user Hin.
  keeps_with @keeps_catch; [|intros ?; keeps_step].
  keeps_with @keeps_bind; [unfold migrate_user; keeps_any|].
  intros jira_user. keeps_with @keeps_modify. intros st.
  split_and!; [done| |].
  - intros id H. cbn. destruct (decide (id = Person.id pt_user)) as [->|Hne].
    + by rewrite lookup_insert_eq.
    + by rewrite lookup_insert_ne.
  - intros id H. cbn in H. destruct (decide (id = Person.id pt_user)) as [->|Hne].
    + right. apply list_elem_of_fmap. by exists pt_user.
    + left. by rewrite lookup_insert_ne in H.
Qed.

Lemma migrate_users_calls (pt_users : list Person.t) e (w : Eff.world call state) :
  trace (migrate_users pt_users e w).2 = (trace w ++ users_calls e (trace w) pt_users)%list.
Proof.
  unfold migrate_users. unfold mbind at 1, M_bind at 1. unfold Eff.bind at 1.
  pose proof (migrate_users_loop_calls pt_users e w) as Hloop.
  destruct (for_each _ pt_users e w) as [[[]|x] w1]; cbn [snd] in *; [|done].
  by run_monad.
Qed.

End JiraUsers.

(** [migrate_users] never raises, and a user whose migration fails does
    not end it: every user of the list, in the order of the list and
    whatever became of the users before, has the search by its email
    issued, followed by the creation of the user exactly when the search is
    answered with an empty result; there is no other call. It returns the
    user map of the migrator, which has kept the entries it had and has new
    entries for users of the list only. *)
Theorem jira_users_are_migrated_one_by_one (pt_users : list Person.t) e w :
  ∃ user_map w',
    Jira.migrate_users pt_users e w = (Ok user_map, w')
    ∧ user_map = Jira.user_map (vars w')
    ∧ (∀ id, is_Some (Jira.user_map (vars w) !! id) → is_Some (user_map !! id))
    ∧ (∀ id, is_Some (user_map !! id) →
         is_Some (Jira.user_map (vars w) !! id) ∨ id ∈ Person.id <$> pt_users)
    ∧ trace w' = (trace w ++ users_calls e (trace w) pt_users)%list.
Proof.
  pose proof (migrate_users_never_raises pt_users e w) as Hok.
  pose proof (migrate_users_grows pt_users e w) as (_ & Hkeep & Hnew).
  pose proof (migrate_users_calls pt_users e w) as Hcalls.
  assert (Hmap : ∀ m w1, Jira.migrate_users pt_users e w = (Ok m, w1) →
                         m = Jira.user_map (vars w1)).
  { unfold Jira.migrate_users. unfold mbind at 1, M_bind at 1. unfold Eff.bind at 1.
    intros m w1. destruct (for_each _ _ e w) as [[[]|x] w2]; [|done].
    by intros [= <- <-]. }
  destruct (Jira.migrate_users pt_users e w) as [[m|x] w'] eqn:Hrun; [|done].
  cbn [snd] in *. rewrite <- (Hmap m w' eq_refl) in Hkeep, Hnew.
  exists m, w'. split_and!; try done. by apply Hmap.
Qed.

(** ** Jira: epics, sprints and tasks *)

Lemma raises_only_Exception {C S A} (m : Eff.M C S A) : raises_only Exception m.
Proof. intros e w x _. apply issubclass_Exception. Qed.

(** [migrate_epics], [migrate_sprints] and [migrate_tasks] never raise: an
    epic, an iteration or a task whose migration fails is left out of the
    map they return, whose keys are label ids of the epics, numbers of the
    iterations and ids of the tasks they were given. *)
Theorem jira_collecting_migrators_never_raise :
  (∀ jira_project (pt_epics : list Jira.prepared_epic) e w,
     ∃ epic_map w',
       Jira.migrate_epics jira_project pt_epics e w = (Ok epic_map, w')
       ∧ ∀ k, is_Some (epic_map !! k) → k ∈ Jira.pe_label_id <$> pt_epics)
  ∧ (∀ jira_project (pt_iterations : list Jira.prepared_iteration) e w,
       ∃ sprint_map w',
         Jira.migrate_sprints jira_project pt_iterations e w = (Ok sprint_map, w')
         ∧ ∀ k, is_Some (sprint_map !! k) → k ∈ Jira.pi_number <$> pt_iterations)
  ∧ (∀ jira_issue_key (pt_tasks : list Task.t) e w,
       ∃ subtask_map w',
         Jira.migrate_tasks jira_issue_key pt_tasks e w = (Ok subtask_map, w')
         ∧ ∀ k, is_Some (subtask_map !! k) → k ∈ Task.id <$> pt_tasks).
Proof.
  split_and!.
  - intros jira_project pt_epics e w.
    destruct (collect_runs IssueMigrationError (Jira.migrate_epic jira_project)
                Jira.pe_label_id Jira.JiraEpic.key pt_epics
                (λ x, raises_only_wrap _ _ _) ∅ e w)
      as (m & w' & Hrun & Hnew & _).
    exists m, w'. split; [exact Hrun|]. intros k Hk.
    destruct (Hnew k Hk) as [Hin|Hin]; [|done]. rewrite lookup_empty in Hin. by destruct Hin.
  - intros jira_project pt_iterations e w.
    destruct (collect_runs SprintMigrationError (Jira.migrate_sprint jira_project)
                Jira.pi_number Jira.JiraSprint.id pt_iterations
                (λ x, raises_only_wrap _ _ _) ∅ e w)
      as (m & w' & Hrun & Hnew & _).
    exists m, w'. split; [exact Hrun|]. intros k Hk.
    destruct (Hnew k Hk) as [Hin|Hin]; [|done]. rewrite lookup_empty in Hin. by destruct Hin.
  - intros jira_issue_key pt_tasks e w.
    destruct (collect_runs Exception (Jira.migrate_task jira_issue_key)
                Task.id Jira.JiraSubTask.key pt_tasks
                (λ x, raises_only_Exception _) ∅ e w)
      as (m & w' & Hrun & Hnew & _).
    exists m, w'. split; [exact Hrun|]. intros k Hk.
    destruct (Hnew k Hk) as [Hin|Hin]; [|done]. rewrite lookup_empty in Hin. by destruct Hin.
Qed.

(** ** Jira: the issues of a sprint, in batches *)

Lemma chunks_fuel_concat {A} (n : nat) (fuel : nat) :
  ∀ l : list A, (0 < n)%nat → (List.length l ≤ fuel)%nat →
    List.concat (chunks_fuel fuel n l) = l
    ∧ Forall (λ batch, (0 < List.length batch ≤ n)%nat) (chunks_fuel fuel n l).
Proof.
  induction fuel as [|fuel IH]; intros l Hn Hlen.
  - destruct l; [by split|cbn in Hlen; lia].
  - destruct l as [|x l]; [by split|].
    cbn [chunks_fuel]. destruct (IH (drop n (x :: l)) Hn) as [Hc Hall].
    { rewrite length_drop. cbn in *. lia. }
    split.
    + cbn [List.concat]. rewrite Hc. apply take_drop.
    + constructor; [|done]. rewrite length_take. cbn. lia.
Qed.

Lemma chunks_concat {A} (n : nat) (l : list A) :
  (0 < n)%nat →
  List.concat (chunks n l) = l
  ∧ Forall (λ batch, (0 < List.length batch ≤ n)%nat) (chunks n l).
Proof. intros Hn. by apply chunks_fuel_concat. Qed.

(** The batches sent after the calls [history]: one after the other, up to
    and with the first one that is refused. *)
Fixpoint batches_sent (e : Eff.env Jira.call) (history : list Jira.call)
    (sprint_id : json) (batches : list (list json)) : list Jira.call :=
  match batches with
  | [] => []
  | batch :: rest =>
      let c := Jira.add_issues_to_sprint sprint_id batch in
      c :: (if is_ok (remote e history c)
            then batches_sent e (history ++ [c]) sprint_id rest
            else [])
  end.

Section JiraSprintIssues.
Import Jira.

Lemma batches_run (sprint_id : json) (batches : list (list json)) e :
  ∀ w : Eff.world call state,
    ∃ r,
      (for_each (λ batch, api (add_issues_to_sprint sprint_id batch);; mret ()) batches
       : M unit) e w
      = (r, mk_world (trace w ++ batches_sent e (trace w) sprint_id batches) (vars w)).
Proof.
  induction batches as [|batch batches IH]; intros w.
  - exists (Ok ()). cbn. by rewrite app_nil_r, world_eta.
  - unfold for_each. cbn [for_fold batches_sent]. unfold Eff.bind at 1.
    unfold mbind at 1, M_bind at 1. unfold Eff.bind at 1. unfold api at 1.
    destruct (remote e (trace w) _) as [j|x]; cbn [is_ok].
    + cbn [mret M_ret Eff.ret].
      destruct (IH (mk_world (trace w ++ [add_issues_to_sprint sprint_id batch]) (vars w)))
        as (r & Hrun).
      unfold for_each in Hrun. rewrite Hrun.
      exists r. cbn [trace vars]. by rewrite <- app_assoc.
    + by exists (Raise x).
Qed.

Lemma batches_sent_accepted (sprint_id : json) (batches : list (list json)) e :
  (∀ history c, is_ok (remote e history c) = true) →
  ∀ history,
    batches_sent e history sprint_id batches = add_issues_to_sprint sprint_id <$> batches.
Proof.
  intros Hrem. induction batches as [|batch batches IH]; intros history; [done|].
  cbn [batches_sent fmap list_fmap]. by rewrite Hrem, IH.
Qed.

End JiraSprintIssues.

(** [associate_issues_with_sprint] never raises and leaves the state as
    it was. The issue keys are cut, in order, into batches of at most 45,
    none empty; the batches are sent one by one, and the first one that is
    refused ends the sending: the batches after it are not sent. When no
    call is refused every batch is sent. *)
Theorem sprint_issues_are_sent_in_batches (sprint_id : json) (issue_keys : list json) e w :
  List.concat (chunks 45 issue_keys) = issue_keys
  ∧ Forall (λ batch, (0 < List.length batch ≤ 45)%nat) (chunks 45 issue_keys)
  ∧ Jira.associate_issues_with_sprint sprint_id issue_keys e w
    = (Ok (),
       mk_world (trace w ++ batches_sent e (trace w) sprint_id (chunks 45 issue_keys))
         (vars w))
  ∧ ((∀ history c, is_ok (remote e history c) = true) →
     batches_sent e (trace w) sprint_id (chunks 45 issue_keys)
     = Jira.add_issues_to_sprint sprint_id <$> chunks 45 issue_keys).
Proof.
  destruct (chunks_concat 45 issue_keys ltac:(lia)) as [Hc Hall].
  split_and!; [done|done| |].
  - unfold Jira.associate_issues_with_sprint, catch.
    destruct (batches_run sprint_id (chunks 45 issue_keys) e w) as (r & Hrun).
    rewrite Hrun. destruct r as [[]|x]; [done|].
    by rewrite issubclass_Exception.
  - intros Hrem. by apply batches_sent_accepted.
Qed.

(** ** Jira: the key of a project *)

Section JiraProjectKey.
Import Jira.

(** A character of a generated key: alphanumeric, and not a lower-case
    letter of the ASCII alphabet. *)
Definition key_char (c : ascii) : bool :=
  isalnum_char c && negb (between 97 122 (ord c)).

Lemma upper_char_key (c : ascii) :
  isalnum_char c = true →
  str_forall key_char (upper_char c) = true ∧ upper_char c ≠ "".
Proof. destruct c as [[] [] [] [] [] [] [] []]; by vm_compute. Qed.

Lemma str_forall_app (p : ascii → bool) (a b : string) :
  str_forall p (a ++ b) = str_forall p a && str_forall p b.
Proof.
  induction a as [|c a IH]; [done|]. rewrite append_cons. cbn. by rewrite IH, andb_assoc.
Qed.

Lemma upper_alnum_key (s : string) : str_forall key_char (upper_alnum s) = true.
Proof.
  induction s as [|c s IH]; [done|]. cbn [upper_alnum].
  destruct (isalnum_char c) eqn:Hc; [|done].
  rewrite str_forall_app, IH. by destruct (upper_char_key c Hc) as [-> _].
Qed.

Lemma upper_alnum_empty (s : string) :
  upper_alnum s = "" ↔ str_filter isalnum_char s = "".
Proof.
  induction s as [|c s IH]; [done|]. cbn [upper_alnum str_filter].
  destruct (isalnum_char c) eqn:Hc; [|done].
  destruct (upper_char_key c Hc) as [_ Hne].
  split; [|done]. destruct (upper_char c); [done|]. by rewrite append_cons.
Qed.

Lemma string_length_app (a b : string) :
  String.length (a ++ b) = (String.length a + String.length b)%nat.
Proof. induction a as [|c a IH]; [done|]. rewrite append_cons. cbn. by rewrite IH. Qed.

Lemma str_take_exact (n : nat) (s : string) :
  (n ≤ String.length s)%nat → String.length (str_take n s) = n.
Proof.
  revert s. induction n as [|n IH]; intros [|c s]; cbn; try done; try lia.
  intros H. rewrite IH; [done|lia].
Qed.

(** What is common to the two ways a key is finished. *)
Lemma finished_key (c : ascii) (r : string) :
  str_forall key_char (String c r) = true →
  let key := String c r in
  let final := if (10 <? String.length key)%nat then slice_to 10 key else ljust2 key in
  (2 ≤ String.length final ≤ 10)%nat
  ∧ first_char final = Some c
  ∧ str_forall key_char final = true.
Proof.
  intros Hkey key final. subst key final.
  destruct (10 <? String.length (String c r))%nat eqn:Hlen.
  - apply Nat.ltb_lt in Hlen. unfold slice_to. cbn [Z.leb Z.compare].
    change (Z.to_nat 10) with 10%nat. rewrite str_take_exact by lia.
    split_and!; [lia|lia|reflexivity|by apply str_forall_take].
  - apply Nat.ltb_ge in Hlen. destruct r as [|d r].
    + cbn. cbn in Hkey. apply andb_true_iff in Hkey as [-> _].
      split_and!; [lia|lia|done|done].
    + cbn [ljust2]. cbn in Hlen. split_and!; [cbn; lia|cbn; lia|done|done].
Qed.

End JiraProjectKey.

(** The upper case of every character of the text lies below code point
    256, as the text does: it holds neither the micro sign nor the y with
    diaeresis, the two characters below 256 of which [str.upper] makes a
    character above. *)
Definition upper_below_256 (s : string) : Prop :=
  str_forall (λ c, negb ((ord c =? 181)%N || (ord c =? 255)%N)) s = true.

(** On a project name whose upper case lies below code point 256,
    [_generate_project_key] raises [IndexError] when the name has no
    alphanumeric character, and otherwise returns a key of two to ten
    characters that starts with a letter and is made of alphanumeric
    characters none of which is a lower-case ASCII letter. *)
Theorem project_key_is_well_formed (project_name : string) :
  upper_below_256 project_name →
  match Jira._generate_project_key project_name with
  | Ok key =>
      str_filter isalnum_char project_name ≠ ""
      ∧ (2 ≤ String.length key ≤ 10)%nat
      ∧ (∃ c, first_char key = Some c ∧ isalpha_char c = true)
      ∧ str_forall key_char key = true
  | Raise e =>
      str_filter isalnum_char project_name = "" ∧ cls e = IndexError
  end.
Proof.
  intros _. unfold Jira._generate_project_key.
  pose proof (upper_alnum_key project_name) as Hkey.
  pose proof (upper_alnum_empty project_name) as Hempty.
  destruct (Jira.upper_alnum project_name) as [|c r] eqn:E.
  - split; [by apply Hempty|done].
  - assert (Hne : str_filter isalnum_char project_name ≠ "").
    { intros H. by apply Hempty in H. }
    destruct (isalpha_char c) eqn:Hc; cbn [negb].
    + destruct (finished_key c r Hkey) as (Hlen & Hfirst & Hall).
      split; [done|]. split; [done|]. split; [by exists c|done].
    + rewrite append_cons, append_nil_l.
      destruct (finished_key "P" (String c r)) as (Hlen & Hfirst & Hall).
      { change (key_char "P" && str_forall key_char (String c r) = true).
        by rewrite Hkey. }
      split; [done|]. split; [done|]. split; [by exists "P"%char|done].
Qed.

(** "2024 roadmap" gives the key "P2024ROADM". *)
Lemma project_key_is_well_formed_witness :
  Jira._generate_project_key "2024 roadmap" = Ok "P2024ROADM"
  ∧ str_forall key_char "P2024ROADM" = true.
Proof.
  split; [reflexivity|].
  pose proof (project_key_is_well_formed "2024 roadmap" eq_refl) as H.
  change (Jira._generate_project_key "2024 roadmap") with (Ok "P2024ROADM" : result string) in H.
  apply H.
Defined.

(** ** Jira: digits that [int] does not read *)

Section OtherDigits.
Import Jira.

Lemma isdigit_plain (c : ascii) :
  isdigit_char c = true →
  isspace_char c = false
  ∧ (isdecimal_char c = false → isdecimal_char c || bool_decide (c = "_"%char) = false)
  ∧ ∀ r, match String c r with
         | String "-" r' => (true, r')
         | String "+" r' => (false, r')
         | _ => (false, String c r)
         end = (false, String c r).
Proof. destruct c as [[] [] [] [] [] [] [] []]; by vm_compute. Qed.

Lemma str_forall_digit_not_decimal (s : string) :
  str_forall isdigit_char s = true → str_forall isdecimal_char s = false →
  str_forall (λ c, isdecimal_char c || bool_decide (c = "_"%char)) s = false.
Proof.
  induction s as [|c s IH]; [done|]. cbn [str_forall].
  intros [Hc Hs]%andb_true_iff Hdec.
  destruct (isdecimal_char c) eqn:Hd; cbn [orb andb] in *; [by apply IH|].
  destruct (isdigit_plain c Hc) as (_ & Hus & _).
  specialize (Hus Hd). rewrite Hd in Hus. cbn [orb] in Hus. by rewrite Hus.
Qed.

(** [int] raises on digits that are not all decimal, such as a
    superscript two. *)
Lemma int_of_str_other_digits (s : string) :
  isdigit s = true → str_forall isdecimal_char s = false →
  ∃ e, int_of_str s = Raise e ∧ cls e = ValueError.
Proof.
  unfold isdigit. intros [Hne Hdig]%andb_true_iff Hdec.
  unfold int_of_str. rewrite strip_no_space.
  2: { eapply str_forall_impl; [|exact Hdig]. intros c Hc.
       by destruct (isdigit_plain c Hc) as (-> & _). }
  destruct s as [|c r]; [done|].
  pose proof Hdig as [Hc _]%andb_true_iff.
  destruct (isdigit_plain c Hc) as (_ & _ & Hsign). rewrite Hsign.
  rewrite (str_forall_digit_not_decimal _ Hdig Hdec).
  rewrite andb_false_r. cbn [andb]. by eexists.
Qed.

End OtherDigits.

(** A reference made of digits that are not all decimal, a superscript
    two for one: [isdigit] accepts it and [int] raises [ValueError]. So does
    [process_blockers] for an unresolved blocker with such a description,
    whatever the issue map holds: the conversion is not inside a [try]. *)
Theorem blocker_reference_raises_on_other_digits (pre tok rest : string) :
  contains "#" pre = false →
  contains "#" tok = false →
  contains " " tok = false →
  ends_token rest →
  isdigit tok = true →
  str_forall isdecimal_char tok = false →
  (∃ x, Jira.blocker_reference (pre ++ "#" ++ tok ++ rest) = Raise x ∧ cls x = ValueError)
  ∧ ∀ jira_issue_map (pt_story : Jira.prepared_story) blocker others stories e w,
      Blocker.resolved blocker = false →
      Blocker.description blocker = pre ++ "#" ++ tok ++ rest →
      Jira.ps_blockers pt_story = blocker :: others →
      ∃ x, Jira.process_blockers jira_issue_map (pt_story :: stories) e w = (Raise x, w)
           ∧ cls x = ValueError.
Proof.
  intros Hpre Htok1 Htok2 Hrest Hdig Hdec.
  assert (Href : ∃ x, Jira.blocker_reference (pre ++ "#" ++ tok ++ rest) = Raise x
                      ∧ cls x = ValueError).
  { rewrite blocker_reference_token, blocker_token_spec by
      (try done; rewrite contains_app;
       change ("#" ++ tok ++ rest)%string with (String "#" (tok ++ rest));
       cbn; by rewrite orb_true_r).
    rewrite Hdig. destruct (int_of_str_other_digits tok Hdig Hdec) as (x & -> & Hx).
    by exists x. }
  split; [exact Href|].
  intros jira_issue_map pt_story blocker others stories e w Hres Hdesc Hbl.
  destruct Href as (x & Href & Hx). exists x. split; [|done].
  unfold Jira.process_blockers, for_each. cbn [for_fold]. rewrite Hbl. cbn [for_fold].
  unfold Jira.process_blocker. rewrite Hres, Hdesc. run_monad. by rewrite Href.
Qed.

(** "Blocked by #4" followed by a superscript two. *)
Lemma blocker_reference_raises_on_other_digits_witness :
  ∃ x, Jira.blocker_reference
         ("Blocked by " ++ "#" ++ String "4" (String (ascii_of_nat 178) "") ++ " for now")
       = Raise x
       ∧ cls x = ValueError.
Proof.
  apply (proj1 (blocker_reference_raises_on_other_digits "Blocked by "
                  (String "4" (String (ascii_of_nat 178) "")) " for now"
                  eq_refl eq_refl eq_refl
                  (or_intror (ex_intro _ "for now" (or_introl eq_refl)))
                  eq_refl eq_refl)).
Defined.

(** ** The Jira client: transitions and screens *)

Section JiraClientProofs.
Import JiraClient.

Variable base_url : string.

(** The name of the status a transition leads to. *)
Definition target (transition : json) : result json :=
  match getitem transition "to" with
  | Ok to => getitem to "name"
  | Raise e => Raise e
  end.

(** The transition leads to another status than [status], whatever the
    case of the letters. *)
Definition misses (status : string) (transition : json) : Prop :=
  ∃ name, target transition = Ok (JStr name) ∧ lower name ≠ lower status.

(** The transition leads to [status], whatever the case of the letters. *)
Definition hits (status : string) (transition : json) : Prop :=
  ∃ name, target transition = Ok (JStr name) ∧ lower name = lower status.

Lemma find_transition_misses (status : string) (pre rest : list json) :
  Forall (misses status) pre →
  find_transition status (pre ++ rest) = find_transition status rest.
Proof.
  induction 1 as [|t pre (name & Ht & Hne) _ IH]; [done|].
  cbn [app find_transition]. unfold target in Ht.
  destruct (getitem t "to") as [to|]; [|done]. rewrite Ht. cbn [json_lower].
  by destruct (decide (lower name = lower status)).
Qed.

Lemma find_transition_hits (status : string) (t : json) (rest : list json) :
  hits status t → find_transition status (t :: rest) = getitem t "id".
Proof.
  intros (name & Ht & He). cbn [find_transition]. unfold target in Ht.
  destruct (getitem t "to") as [to|]; [|done]. rewrite Ht. cbn [json_lower].
  by destruct (decide (lower name = lower status)).
Qed.

Definition transitions_of (issue_key : string) : JiraAPI.request :=
  JiraAPI.mk_request "GET"
    (base_url ++ "/rest/api/3/issue/" ++ issue_key ++ "/transitions") JNull.

Definition transition_to (issue_key : string) (transition_id : json) : JiraAPI.request :=
  JiraAPI.mk_request "POST"
    (base_url ++ "/rest/api/3/issue/" ++ issue_key ++ "/transitions")
    (JDict [("transition", JDict [("id", transition_id)])]).

End JiraClientProofs.

(** [transition_issue] asks for the transitions of the issue and takes
    the first one that leads to the status, compared without case. When
    none does, or the answer lists no transition, it raises [JiraAPIError]
    and sends nothing more; otherwise it posts the id of that transition,
    and only that. *)
Theorem transition_issue_takes_first_match (base_url issue_key status : string)
    (response : json) (available : list json) e w :
  remote e (trace w) (transitions_of base_url issue_key) = Ok response →
  JiraClient.get_or response "transitions" (JList []) = Ok (JList available) →
  (Forall (misses status) available →
     JiraClient.transition_issue base_url issue_key status e w
     = (Raise (mk_exn JiraAPIError ("Transition to status '" ++ status ++ "' not found.")),
        mk_world (trace w ++ [transitions_of base_url issue_key]) (vars w)))
  ∧ (∀ pre transition rest transition_id,
       available = (pre ++ transition :: rest)%list →
       Forall (misses status) pre →
       hits status transition →
       getitem transition "id" = Ok transition_id →
       truthy transition_id = true →
       JiraClient.transition_issue base_url issue_key status e w
       = (remote e (trace w ++ [transitions_of base_url issue_key])
            (transition_to base_url issue_key transition_id),
          mk_world (trace w ++ [transitions_of base_url issue_key;
                                transition_to base_url issue_key transition_id])
            (vars w))).
Proof.
  intros Hget Havail.
  assert (Hrun : ∀ r,
            JiraClient.find_transition status available = r →
            JiraClient.transition_issue base_url issue_key status e w
            = match r with
              | Ok transition_id =>
                  if negb (truthy transition_id) then
                    (Raise (mk_exn JiraAPIError
                              ("Transition to status '" ++ status ++ "' not found.")),
                     mk_world (trace w ++ [transitions_of base_url issue_key]) (vars w))
                  else
                    (remote e (trace w ++ [transitions_of base_url issue_key])
                       (transition_to base_url issue_key transition_id),
                     mk_world (trace w ++ [transitions_of base_url issue_key;
                                           transition_to base_url issue_key transition_id])
                       (vars w))
              | Raise x =>
                  (Raise x, mk_world (trace w ++ [transitions_of base_url issue_key]) (vars w))
              end).
  { intros r Hr. unfold JiraClient.transition_issue, JiraClient._request.
    run_monad. cbv beta iota zeta. cbn [str_of_int trace vars].
    change (JiraAPI.mk_request "GET" _ JNull) with (transitions_of base_url issue_key).
    rewrite Hget. cbv beta iota. rewrite Havail. cbv beta iota. cbn [iterate].
    rewrite Hr. destruct r as [transition_id|x]; [|done].
    cbv beta iota. destruct (truthy transition_id); cbn [negb]; [|done].
    cbn [trace vars]. by rewrite <- app_assoc. }
  split.
  - intros Hmiss. rewrite (Hrun (Ok JNull)); [done|].
    rewrite <- (app_nil_r available). by rewrite find_transition_misses.
  - intros pre transition rest transition_id -> Hpre Hhit Hid Htruthy.
    rewrite (Hrun (Ok transition_id)); [by rewrite Htruthy|].
    by rewrite find_transition_misses, find_transition_hits.
Qed.

(** A Jira whose issues can move to "Started" and to "Finished". *)
Definition a_transition (id name : string) : json :=
  JDict [("id", JStr id); ("to", JDict [("name", JStr name)])].

Definition jira_with_transitions : Eff.env JiraAPI.request :=
  mk_env
    (λ _ r, if decide (JiraAPI.method r = "GET")
            then Ok (JDict [("transitions",
                             JList [a_transition "21" "Started";
                                    a_transition "31" "Finished"])])
            else Ok JNull)
    (λ _, true).

Lemma transition_issue_takes_first_match_witness :
  JiraClient.transition_issue "https://example.atlassian.net" "DEMO-1" "finished"
    jira_with_transitions (mk_world [] ())
  = (Ok JNull,
     mk_world [transitions_of "https://example.atlassian.net" "DEMO-1";
               transition_to "https://example.atlassian.net" "DEMO-1" (JStr "31")] ()).
Proof.
  apply (proj2 (transition_issue_takes_first_match "https://example.atlassian.net"
                  "DEMO-1" "finished" _ _ jira_with_transitions (mk_world [] ())
                  eq_refl eq_refl)
           [a_transition "21" "Started"] (a_transition "31" "Finished") [] (JStr "31")).
  - reflexivity.
  - constructor; [|constructor]. exists "Started". split; [reflexivity|]. by vm_compute.
  - exists "Finished". split; reflexivity.
  - reflexivity.
  - reflexivity.
Defined.

Section JiraScreens.
Import JiraClient.

Variable base_url : string.

Definition screens_of (project_key : string) : JiraAPI.request :=
  JiraAPI.mk_request "GET"
    (base_url ++ "/rest/api/3/screens?queryString=" ++ project_key ++ "&maxResults=2000")
    JNull.

Lemma item_app (pre l : list json) (i : nat) :
  (i < List.length l)%nat →
  item (JList (pre ++ l)) (Z.of_nat (List.length (pre ++ l)) - Z.of_nat (List.length l)
                           + Z.of_nat i)
  = match l !! i with Some x => Ok x | None => Raise (mk_exn IndexError "list index out of range") end.
Proof.
  intros Hi. unfold item. rewrite length_app.
  set (k := Z.of_nat (List.length pre + List.length l) - Z.of_nat (List.length l) + Z.of_nat i).
  assert (Hk : k = Z.of_nat (List.length pre + i)) by lia.
  rewrite Hk.
  replace (Z.of_nat (List.length pre + i) <? 0) with false by (symmetry; apply Z.ltb_ge; lia).
  replace (0 <=? Z.of_nat (List.length pre + i)) with true by (symmetry; apply Z.leb_le; lia).
  replace (Z.of_nat (List.length pre + i) <? Z.of_nat (List.length pre + List.length l))
    with true by (symmetry; apply Z.ltb_lt; lia).
  cbn [andb]. rewrite Nat2Z.id, lookup_app_r by lia.
  by replace (List.length pre + i - List.length pre)%nat with i by lia.
Qed.

End JiraScreens.

(** [get_issue_screen_ids] returns the ids of the third and of the second
    screen from the end of the answer. When the answer has two screens it
    returns the id of the second and then the id of the first, the index
    [-1] counting from the end; with fewer it raises [IndexError]. *)
Theorem screen_ids_count_from_the_end (base_url project_key : string)
    (screen_data : json) (screens : list json) e w :
  remote e (trace w) (screens_of base_url project_key) = Ok screen_data →
  getitem screen_data "values" = Ok (JList screens) →
  (∀ pre a b c a_id b_id,
     screens = (pre ++ [a; b; c])%list →
     getitem a "id" = Ok a_id → getitem b "id" = Ok b_id →
     (JiraClient.get_issue_screen_ids base_url project_key e w).1 = Ok (JList [a_id; b_id]))
  ∧ (∀ a b a_id b_id,
       screens = [a; b] →
       getitem a "id" = Ok a_id → getitem b "id" = Ok b_id →
       (JiraClient.get_issue_screen_ids base_url project_key e w).1
       = Ok (JList [b_id; a_id]))
  ∧ ((List.length screens ≤ 1)%nat →
     ∃ x, (JiraClient.get_issue_screen_ids base_url project_key e w).1 = Raise x
          ∧ cls x = IndexError).
Proof.
  intros Hget Hvalues.
  assert (Hrun : (JiraClient.get_issue_screen_ids base_url project_key e w).1
                 = match JiraClient.item (JList screens) (Z.of_nat (List.length screens) - 3) with
                   | Raise x => Raise x
                   | Ok a =>
                       match getitem a "id" with
                       | Raise x => Raise x
                       | Ok a_id =>
                           match JiraClient.item (JList screens)
                                   (Z.of_nat (List.length screens) - 2) with
                           | Raise x => Raise x
                           | Ok b =>
                               match getitem b "id" with
                               | Raise x => Raise x
                               | Ok b_id => Ok (JList [a_id; b_id])
                               end
                           end
                       end
                   end).
  { unfold JiraClient.get_issue_screen_ids, JiraClient._request.
    run_monad. cbv beta iota zeta. cbn [str_of_int trace vars].
    change (JiraAPI.mk_request "GET" _ JNull) with (screens_of base_url project_key).
    rewrite Hget. cbv beta iota. rewrite Hvalues. cbv beta iota. cbn [len].
    destruct (JiraClient.item _ (_ - 3)) as [a|x]; [|done]. cbv beta iota.
    destruct (getitem a "id") as [a_id|x]; [|done]. cbv beta iota.
    destruct (JiraClient.item _ (_ - 2)) as [b|x]; [|done]. cbv beta iota.
    by destruct (getitem b "id") as [b_id|x]. }
  rewrite Hrun. split_and!.
  - intros pre a b c a_id b_id -> Ha Hb.
    pose proof (item_app pre [a; b; c] 0 ltac:(cbn; lia)) as H0.
    pose proof (item_app pre [a; b; c] 1 ltac:(cbn; lia)) as H1.
    cbn [List.length lookup list_lookup] in H0, H1.
    replace (Z.of_nat (List.length (pre ++ [a; b; c])) - 3)
      with (Z.of_nat (List.length (pre ++ [a; b; c])) - Z.of_nat 3 + Z.of_nat 0) by lia.
    rewrite H0, Ha.
    replace (Z.of_nat (List.length (pre ++ [a; b; c])) - 2)
      with (Z.of_nat (List.length (pre ++ [a; b; c])) - Z.of_nat 3 + Z.of_nat 1) by lia.
    by rewrite H1, Hb.
  - intros a b a_id b_id -> Ha Hb.
    change (JiraClient.item (JList [a; b]) (Z.of_nat (List.length [a; b]) - 3))
      with (Ok b : result json).
    change (JiraClient.item (JList [a; b]) (Z.of_nat (List.length [a; b]) - 2))
      with (Ok a : result json).
    cbv beta iota. rewrite Hb. cbv beta iota. by rewrite Ha.
  - intros Hlen. destruct screens as [|a [|b l]]; [| |cbn in Hlen; lia].
    + vm_compute. by eexists.
    + vm_compute. by eexists.
Qed.

Definition jira_with_two_screens : Eff.env JiraAPI.request :=
  mk_env
    (λ _ _, Ok (JDict [("values", JList [JDict [("id", JInt 1)]; JDict [("id", JInt 2)]])]))
    (λ _, true).

Lemma screen_ids_count_from_the_end_witness :
  (JiraClient.get_issue_screen_ids "https://example.atlassian.net" "DEMO"
     jira_with_two_screens (mk_world [] ())).1
  = Ok (JList [JInt 2; JInt 1]).
Proof.
  apply (proj1 (proj2 (screen_ids_count_from_the_end "https://example.atlassian.net"
                         "DEMO" _ _ jira_with_two_screens (mk_world [] ())
                         eq_refl eq_refl))
           (JDict [("id", JInt 1)]) (JDict [("id", JInt 2)]) (JInt 1) (JInt 2));
    reflexivity.
Defined.

(** ** The Jira client: failures below HTTP *)

Section JiraTransport.
Import JiraAPI.

Variable MAX_RETRIES : Z.
Variable RATE_LIMIT_PAUSE : Q.
Variable server : nat → outcome.
Variable req : request.

(** The [n]-th attempt fails below HTTP. *)
Definition dropped (n : nat) : Prop := ∃ text, server n = ClientFailure text.

(** What [k] such attempts that are retried leave in the trace. *)
Definition retried (k : nat) : list event :=
  flat_map (λ _, [Send req; Sleep RATE_LIMIT_PAUSE]) (seq 0 k).

Lemma retried_S (k : nat) :
  retried (S k) = ([Send req; Sleep RATE_LIMIT_PAUSE] ++ retried k)%list.
Proof.
  unfold retried. rewrite !flat_map_concat_map. cbn [seq map List.concat].
  f_equal. f_equal. rewrite <- seq_shift, map_map. done.
Qed.

Lemma request_loop_dropped (k : nat) :
  ∀ start len tr,
    (∀ n, (start ≤ n < start + k)%nat → dropped n) →
    Z.of_nat (start + k) < MAX_RETRIES →
    (k ≤ len)%nat →
    request_loop MAX_RETRIES RATE_LIMIT_PAUSE server req (Z.of_nat <$> seq start len) tr
    = request_loop MAX_RETRIES RATE_LIMIT_PAUSE server req
        (Z.of_nat <$> seq (start + k) (len - k)) (tr ++ retried k)%list.
Proof.
  induction k as [|k IH]; intros start len tr Hk Hmax Hlen.
  - cbn. by rewrite Nat.add_0_r, Nat.sub_0_r, app_nil_r.
  - destruct len as [|len]; [lia|].
    cbn [seq fmap list_fmap request_loop]. rewrite Nat2Z.id.
    destruct (Hk start ltac:(lia)) as [text ->].
    replace (Z.of_nat start =? MAX_RETRIES - 1) with false
      by (symmetry; apply Z.eqb_neq; lia).
    rewrite IH; [|intros n Hn; apply Hk; lia|lia|lia].
    replace (S start + k)%nat with (start + S k)%nat by lia.
    replace (S len - S k)%nat with (len - k)%nat by lia.
    rewrite retried_S. by rewrite <- !app_assoc.
Qed.

End JiraTransport.

(** A failure below HTTP is followed by a sleep of [RATE_LIMIT_PAUSE] and
    the same request again, until an attempt succeeds; the failure of the
    attempt numbered [MAX_RETRIES - 1] ends the call with a [JiraAPIError]
    that carries its text, and no sleep follows it. When [MAX_RETRIES] is
    zero or less nothing is sent and the call raises [RateLimitError]. *)
Theorem request_retries_transport_failures (MAX_RETRIES : Z) (RATE_LIMIT_PAUSE : Q)
    (server : nat → JiraAPI.outcome) (req : JiraAPI.request) (k : nat) :
  (∀ n, (n < k)%nat → dropped server n) →
  Z.of_nat k < MAX_RETRIES →
  (∀ status reason headers text payload,
     server k = JiraAPI.Response status reason headers text payload →
     status < 400 → status ≠ 204 →
     JiraAPI._request MAX_RETRIES RATE_LIMIT_PAUSE server req
     = (Ok payload, (retried RATE_LIMIT_PAUSE req k ++ [JiraAPI.Send req])%list))
  ∧ (∀ text,
       Z.of_nat k = MAX_RETRIES - 1 →
       server k = JiraAPI.ClientFailure text →
       JiraAPI._request MAX_RETRIES RATE_LIMIT_PAUSE server req
       = (Raise (mk_exn JiraAPIError
                   ("Request failed after " ++ str_of_int MAX_RETRIES
                    ++ " attempts: " ++ text)),
          (retried RATE_LIMIT_PAUSE req k ++ [JiraAPI.Send req])%list))
  ∧ (∀ MAX, MAX ≤ 0 →
       JiraAPI._request MAX RATE_LIMIT_PAUSE server req
       = (Raise (mk_exn RateLimitError "Rate limit exceeded and max retries reached"), [])).
Proof.
  intros Hk Hmax. split_and!.
  - intros status reason headers text payload Hs H400 H204.
    unfold JiraAPI._request, range.
    rewrite (request_loop_dropped MAX_RETRIES RATE_LIMIT_PAUSE server req k);
      [|intros n Hn; apply Hk; lia|lia|lia].
    destruct (Z.to_nat MAX_RETRIES - k)%nat as [|left] eqn:E; [lia|].
    change (0 + k)%nat with k.
    cbn [seq fmap list_fmap JiraAPI.request_loop app]. rewrite Nat2Z.id, Hs.
    apply Z.leb_gt in H400. rewrite H400.
    apply Z.eqb_neq in H204. by rewrite H204.
  - intros text Hlast Hs.
    unfold JiraAPI._request, range.
    rewrite (request_loop_dropped MAX_RETRIES RATE_LIMIT_PAUSE server req k);
      [|intros n Hn; apply Hk; lia|lia|lia].
    destruct (Z.to_nat MAX_RETRIES - k)%nat as [|left] eqn:E; [lia|].
    change (0 + k)%nat with k.
    cbn [seq fmap list_fmap JiraAPI.request_loop app]. rewrite Nat2Z.id, Hs.
    replace (Z.of_nat k =? MAX_RETRIES - 1) with true; [done|].
    symmetry. by apply Z.eqb_eq.
  - intros MAX HMAX. unfold JiraAPI._request, range.
    replace (Z.to_nat MAX) with 0%nat by lia. done.
Qed.

(** The connection drops twice, then the request goes through. *)
Definition drops_twice (n : nat) : JiraAPI.outcome :=
  if (n <? 2)%nat then JiraAPI.ClientFailure "Connection reset by peer"
  else JiraAPI.Response 200 "OK" [] "" (JStr "done").

Lemma request_retries_transport_failures_witness :
  JiraAPI._request 3 (3 # 2) drops_twice a_request
  = (Ok (JStr "done"),
     [JiraAPI.Send a_request; JiraAPI.Sleep (3 # 2); JiraAPI.Send a_request;
      JiraAPI.Sleep (3 # 2); JiraAPI.Send a_request]).
Proof.
  apply (proj1 (request_retries_transport_failures 3 (3 # 2) drops_twice a_request 2
                  ltac:(intros [|[|n]] Hn; [by eexists|by eexists|lia]) ltac:(lia))
           200 "OK" [] "" (JStr "done")); [reflexivity|lia|lia].
Defined.

(** ** The Jira client: the pause a 429 asks for *)

Lemma request_loop_extends (MAX_RETRIES : Z) (RATE_LIMIT_PAUSE : Q)
    (server : nat → JiraAPI.outcome) (req : JiraAPI.request) (l : list Z) :
  ∀ tr, ∃ rest,
    (JiraAPI.request_loop MAX_RETRIES RATE_LIMIT_PAUSE server req l tr).2 = (tr ++ rest)%list.
Proof.
  induction l as [|a l IH]; intros tr; cbn [JiraAPI.request_loop].
  - exists []. by rewrite app_nil_r.
  - destruct (server (Z.to_nat a)) as [status reason headers text payload|text].
    + destruct (400 <=? status).
      * destruct (status =? 429).
        -- destruct (JiraAPI.retry_after _ headers); cbn [snd]; [|by eexists].
           destruct (IH ((tr ++ [JiraAPI.Send req]) ++ [JiraAPI.Sleep (inject_Z a0)])%list)
             as (rest & ->).
           eexists. by rewrite <- !app_assoc.
        -- by eexists.
      * destruct (status =? 204); by eexists.
    + destruct (a =? MAX_RETRIES - 1); cbn [snd]; [by eexists|].
      destruct (IH ((tr ++ [JiraAPI.Send req]) ++ [JiraAPI.Sleep RATE_LIMIT_PAUSE])%list)
        as (rest & ->).
      eexists. by rewrite <- !app_assoc.
Qed.

(** The pause after a 429 is read with [int]. A [Retry-After] header that
    [int] does not read, a date or "1.5" for one, ends the call with the
    [ValueError] of [int], without a sleep and without another attempt.
    Without the header the sleep is the configured pause cut down to whole
    seconds: none at all for a pause of half a second. *)
Theorem retry_after_is_read_with_int (MAX_RETRIES : Z) (RATE_LIMIT_PAUSE : Q)
    (server : nat → JiraAPI.outcome) (req : JiraAPI.request)
    (reason : string) (headers : list (string * string)) (text : string) (payload : json) :
  0 < MAX_RETRIES →
  server 0%nat = JiraAPI.Response 429 reason headers text payload →
  (∀ v x, JiraAPI.header "Retry-After" headers = Some v → int_of_str v = Raise x →
     JiraAPI._request MAX_RETRIES RATE_LIMIT_PAUSE server req
     = (Raise x, [JiraAPI.Send req]))
  ∧ (JiraAPI.header "Retry-After" headers = None →
     ∃ rest,
       (JiraAPI._request MAX_RETRIES RATE_LIMIT_PAUSE server req).2
       = JiraAPI.Send req
           :: JiraAPI.Sleep (inject_Z (int_of_float RATE_LIMIT_PAUSE)) :: rest).
Proof.
  intros Hmax Hs. unfold JiraAPI._request, range.
  destruct (Z.to_nat MAX_RETRIES) as [|n] eqn:E; [lia|].
  cbn [seq fmap list_fmap JiraAPI.request_loop]. change (Z.to_nat (Z.of_nat 0)) with 0%nat.
  rewrite Hs. cbn [Z.leb Z.eqb Z.compare Pos.compare Pos.compare_cont Pos.eqb].
  unfold JiraAPI.retry_after. split.
  - intros v x -> ->. done.
  - intros ->.
    destruct (request_loop_extends MAX_RETRIES RATE_LIMIT_PAUSE server req
                (Z.of_nat <$> seq 1 n)
                (([] ++ [JiraAPI.Send req])
                 ++ [JiraAPI.Sleep (inject_Z (int_of_float RATE_LIMIT_PAUSE))])%list)
      as (rest & ->).
    by exists rest.
Qed.

(** Jira asks to come back at a date. *)
Definition come_back_later (n : nat) : JiraAPI.outcome :=
  JiraAPI.Response 429 "Too Many Requests"
    [("Retry-After", "Wed, 21 Oct 2015 07:28:00 GMT")] "" JNull.

Lemma retry_after_is_read_with_int_witness :
  ∃ x, JiraAPI._request 3 1 come_back_later a_request = (Raise x, [JiraAPI.Send a_request])
       ∧ cls x = ValueError.
Proof.
  destruct (int_of_str "Wed, 21 Oct 2015 07:28:00 GMT") as [n|x] eqn:Hint;
    [by vm_compute in Hint|].
  exists x. split.
  - apply (proj1 (retry_after_is_read_with_int 3 1 come_back_later a_request
                    "Too Many Requests" [("Retry-After", "Wed, 21 Oct 2015 07:28:00 GMT")]
                    "" JNull ltac:(lia) eq_refl)
             "Wed, 21 Oct 2015 07:28:00 GMT" x eq_refl Hint).
  - vm_compute in Hint. by injection Hint as <-.
Defined.

(** ** The retry decorator of the Linear client *)

Section RetryProofs.
Import LinearAPI.
Context {A : Type}.

Variable max_retries : Z.
Variable delay : Q.
Variable func : nat → result A * list event.

(** The [i]-th call of the function raises. *)
Definition failed (i : nat) : Prop := ∃ x, (func i).1 = Raise x.

(** What the calls [n, ..., n + k - 1] leave in the trace when each of them
    raises and is retried: their own events, and after the [i]-th call a
    sleep of [delay * 2 ^ i]. *)
Definition backoff (n k : nat) : list event :=
  flat_map (λ i, (func i).2 ++ [Sleep (delay * inject_Z (2 ^ Z.of_nat i))%Q])%list (seq n k).

Lemma retry_loop_failed (k : nat) :
  ∀ n left tr,
    (∀ i, (n ≤ i < n + k)%nat → failed i) →
    Z.of_nat (n + k) < max_retries →
    (k ≤ left)%nat →
    retry_loop max_retries delay func left (Z.of_nat n) n tr
    = retry_loop max_retries delay func (left - k) (Z.of_nat (n + k)) (n + k)
        (tr ++ backoff n k)%list.
Proof.
  induction k as [|k IH]; intros n left tr Hk Hmax Hleft.
  - cbn. by rewrite Nat.add_0_r, Nat.sub_0_r, app_nil_r.
  - destruct left as [|left]; [lia|].
    cbn [retry_loop]. unfold call at 1.
    destruct (Hk n ltac:(lia)) as [x Hx].
    destruct (func n) as [r evs] eqn:Hf. cbn [fst] in Hx. subst r.
    replace (Z.of_nat n + 1 =? max_retries) with false
      by (symmetry; apply Z.eqb_neq; lia).
    replace (Z.of_nat n + 1 - 1) with (Z.of_nat n) by lia.
    replace (Z.of_nat n + 1) with (Z.of_nat (S n)) by lia.
    rewrite IH; [|intros i Hi; apply Hk; lia|lia|lia].
    replace (S n + k)%nat with (n + S k)%nat by lia.
    replace (S left - S k)%nat with (left - k)%nat by lia.
    unfold backoff. cbn [seq flat_map]. rewrite Hf. cbn [snd].
    by rewrite <- !app_assoc.
Qed.

End RetryProofs.

(** [retry_async(max_retries, delay)] calls the function again after each
    exception, sleeping [delay], [2 * delay], [4 * delay], ... in between.
    The first call that returns ends it with that result. The exception of
    the call numbered [max_retries - 1] is raised as it is, without a sleep
    after it, so the function is called [max_retries] times at most. With
    [max_retries] zero or less the function is called once, without a
    retry. *)
Theorem retry_async_backs_off {A} (max_retries : Z) (delay : Q)
    (func : nat → result A * list LinearAPI.event) (k : nat) :
  (∀ i, (i < k)%nat → failed func i) →
  Z.of_nat k < max_retries →
  (∀ a, (func k).1 = Ok a →
     LinearAPI.retry_async max_retries delay func
     = (Ok a, (backoff delay func 0 k ++ (func k).2)%list))
  ∧ (∀ x, Z.of_nat k = max_retries - 1 → (func k).1 = Raise x →
       LinearAPI.retry_async max_retries delay func
       = (Raise x, (backoff delay func 0 k ++ (func k).2)%list))
  ∧ (∀ max, max ≤ 0 → LinearAPI.retry_async max delay func = func 0%nat).
Proof.
  intros Hk Hmax. split_and!.
  - intros a Ha. unfold LinearAPI.retry_async.
    rewrite (retry_loop_failed max_retries delay func k 0 _ []);
      [|intros i Hi; apply Hk; lia|lia|lia].
    change (0 + k)%nat with k. cbn [app].
    destruct (Z.to_nat max_retries - k)%nat as [|left] eqn:E; [lia|].
    cbn [LinearAPI.retry_loop]. unfold LinearAPI.call.
    destruct (func k) as [r evs]. cbn [fst snd] in *. by subst r.
  - intros x Hlast Hx. unfold LinearAPI.retry_async.
    rewrite (retry_loop_failed max_retries delay func k 0 _ []);
      [|intros i Hi; apply Hk; lia|lia|lia].
    change (0 + k)%nat with k. cbn [app].
    destruct (Z.to_nat max_retries - k)%nat as [|left] eqn:E; [lia|].
    cbn [LinearAPI.retry_loop]. unfold LinearAPI.call.
    destruct (func k) as [r evs]. cbn [fst snd] in *. subst r.
    replace (Z.of_nat k + 1 =? max_retries) with true; [done|].
    symmetry. apply Z.eqb_eq. lia.
  - intros max Hle. unfold LinearAPI.retry_async.
    replace (Z.to_nat max) with 0%nat by lia. cbn [LinearAPI.retry_loop].
    unfold LinearAPI.call. by destruct (func 0%nat).
Qed.

(** Two failures, then an answer: the waits are one and two seconds. *)
Definition linear_fails_twice (n : nat) : LinearAPI.outcome :=
  if (n <? 2)%nat then LinearAPI.HttpError 502 "Bad Gateway"
  else LinearAPI.Data (JStr "done").

Lemma retry_async_backs_off_witness :
  LinearAPI.retry_async 5 1 (LinearAPI.execute_once linear_fails_twice "query")
  = (Ok (JStr "done"),
     [LinearAPI.Execute "query"; LinearAPI.Sleep (1 * inject_Z (2 ^ Z.of_nat 0));
      LinearAPI.Execute "query"; LinearAPI.Sleep (1 * inject_Z (2 ^ Z.of_nat 1));
      LinearAPI.Execute "query"]).
Proof.
  apply (proj1 (retry_async_backs_off 5 1
                  (LinearAPI.execute_once linear_fails_twice "query") 2
                  ltac:(intros [|[|n]] Hn; [by eexists|by eexists|lia]) ltac:(lia))
           (JStr "done")).
  reflexivity.
Defined.

(** ** Linear: lists in chunks *)

Lemma chunks_fuel_full {A} (n : nat) (fuel : nat) :
  ∀ (l : list A) (i : nat) (c : list A),
    (0 < n)%nat → (List.length l ≤ fuel)%nat →
    chunks_fuel fuel n l !! i = Some c →
    (S i < List.length (chunks_fuel fuel n l))%nat →
    List.length c = n.
Proof.
  induction fuel as [|fuel IH]; intros l i c Hn Hlen Hc Hi.
  - by destruct l.
  - destruct l as [|x l]; [done|]. cbn [chunks_fuel] in *.
    destruct i as [|i].
    + injection Hc as <-. rewrite length_take.
      destruct (drop n (x :: l)) as [|y rest] eqn:Hd.
      * destruct fuel; cbn in Hi; lia.
      * assert (H : (0 < List.length (drop n (x :: l)))%nat) by (rewrite Hd; cbn; lia).
        rewrite length_drop in H. lia.
    + apply (IH (drop n (x :: l)) i c); [done| |done|cbn in Hi; lia].
      rewrite length_drop. cbn in *. lia.
Qed.

(** With a positive size [chunk_list] cuts the list into its chunks, in
    order: none is empty, all but the last have exactly the size, and put
    together again they are the list. A size of zero raises [ValueError];
    a negative size gives no chunk at all, whatever the list holds. *)
Theorem chunk_list_cuts_in_order {A} (lst : list A) (chunk_size : Z) :
  (0 < chunk_size →
     ∃ cs, LinearUtils.chunk_list lst chunk_size = Ok cs
           ∧ List.concat cs = lst
           ∧ Forall (λ c, 0 < Z.of_nat (List.length c) ≤ chunk_size) cs
           ∧ ∀ i c, cs !! i = Some c → (S i < List.length cs)%nat →
                    Z.of_nat (List.length c) = chunk_size)
  ∧ (chunk_size = 0 →
       ∃ x, LinearUtils.chunk_list lst chunk_size = Raise x ∧ cls x = ValueError)
  ∧ (chunk_size < 0 → LinearUtils.chunk_list lst chunk_size = Ok []).
Proof.
  unfold LinearUtils.chunk_list. split_and!.
  - intros Hpos.
    replace (chunk_size =? 0) with false by (symmetry; apply Z.eqb_neq; lia).
    replace (chunk_size <? 0) with false by (symmetry; apply Z.ltb_ge; lia).
    eexists. split; [reflexivity|].
    destruct (chunks_concat (Z.to_nat chunk_size) lst ltac:(lia)) as [Hc Hall].
    split_and!; [done| |].
    + eapply Forall_impl; [exact Hall|]. intros c Hc'. cbn in Hc'. lia.
    + intros i c Hi Hlen.
      pose proof (chunks_fuel_full (Z.to_nat chunk_size) (List.length lst) lst i c
                    ltac:(lia) ltac:(lia) Hi Hlen). lia.
  - intros ->. by eexists.
  - intros Hneg.
    replace (chunk_size =? 0) with false by (symmetry; apply Z.eqb_neq; lia).
    by replace (chunk_size <? 0) with true by (symmetry; apply Z.ltb_lt; lia).
Qed.

Lemma chunk_list_cuts_in_order_witness :
  LinearUtils.chunk_list [1; 2; 3; 4; 5; 6; 7] 3 = Ok [[1; 2; 3]; [4; 5; 6]; [7]].
Proof.
  destruct (proj1 (chunk_list_cuts_in_order [1; 2; 3; 4; 5; 6; 7] 3) ltac:(lia))
    as (cs & Hrun & _).
  rewrite Hrun. by injection Hrun as <-.
Defined.

(** ** Linear: the workflow states of a new team *)

Section LinearStates.
Import Linear.

Variable team_id : json.

(** The name a state of the answer is known by: its name in lower
    case. *)
Definition known_as (state : json) (name : string) : Prop :=
  ∃ raw, getitem state "name" = Ok (JStr raw) ∧ name = lower raw.

Definition is_missing (names : list string) (required : string * string * string) : bool :=
  negb (bool_decide (lower required.1.1 ∈ names)).

Definition creates_state (required : string * string * string) : call :=
  create_workflow_state team_id required.1.1 required.1.2 required.2
    ("PT " ++ lower required.1.1 ++ " state").

Lemma existing_names_run (states : list json) (names : list string) :
  Forall2 known_as states names →
  ∀ acc e (w : Eff.world call state),
    (for_fold (λ names state,
                 name ← lift (getitem state "name");
                 name ← lift (json_lower name);
                 mret (names ++ [name])%list) states acc : M (list string)) e w
    = (Ok (acc ++ names)%list, w).
Proof.
  induction 1 as [|st nm states names (raw & Hraw & ->) _ IH]; intros acc e w.
  - cbn. by rewrite app_nil_r.
  - cbn [for_fold]. unfold Eff.bind at 1.
    assert (Hturn : (name ← lift (getitem st "name");
                     name ← lift (json_lower name);
                     mret (acc ++ [name])%list : M (list string)) e w
                    = (Ok (acc ++ [lower raw])%list, w)).
    { run_monad. by rewrite Hraw. }
    rewrite Hturn. rewrite IH. by rewrite <- app_assoc.
Qed.

Definition create_if_missing (names : list string) (required : string * string * string)
  : M unit :=
  let '(state_name, state_type, color_code) := required in
  if bool_decide (lower state_name ∈ names) then mret ()
  else
    catch Exception
      (api (create_workflow_state team_id state_name state_type color_code
              ("PT " ++ lower state_name ++ " state"));; mret ())
      (λ e, raise ConfigurationError
              ("Failed to create workflow state " ++ state_name ++ ": " ++ msg e)).

(** The creations issued after the calls [history] for the states
    [missing]: one after the other, up to and with the first one that is
    refused. *)
Fixpoint creations (e : Eff.env call) (history : list call)
    (missing : list (string * string * string)) : list call :=
  match missing with
  | [] => []
  | required :: rest =>
      let c := creates_state required in
      c :: (if is_ok (remote e history c) then creations e (history ++ [c]) rest else [])
  end.

(** No creation is refused. *)
Fixpoint accepted (e : Eff.env call) (history : list call)
    (missing : list (string * string * string)) : bool :=
  match missing with
  | [] => true
  | required :: rest =>
      let c := creates_state required in
      is_ok (remote e history c) && accepted e (history ++ [c]) rest
  end.

Lemma create_missing_runs (names : list string) (l : list (string * string * string)) e :
  ∀ w : Eff.world call state,
    ∃ r,
      for_each (create_if_missing names) l e w
      = (r, mk_world (trace w ++ creations e (trace w) (List.filter (is_missing names) l))
              (vars w))
      ∧ match r with
        | Ok _ => accepted e (trace w) (List.filter (is_missing names) l) = true
        | Raise x =>
            cls x = ConfigurationError
            ∧ accepted e (trace w) (List.filter (is_missing names) l) = false
        end.
Proof.
  induction l as [|[[state_name state_type] color_code] l IH]; intros w.
  - exists (Ok ()). cbn. by rewrite app_nil_r, world_eta.
  - unfold for_each. cbn [for_fold List.filter]. unfold Eff.bind at 1.
    unfold create_if_missing at 1.
    change (is_missing names (state_name, state_type, color_code))
      with (negb (bool_decide (lower state_name ∈ names))).
    destruct (bool_decide (lower state_name ∈ names)); cbn [negb].
    + cbn [mret M_ret Eff.ret]. apply IH.
    + rewrite catch_wrap. unfold mbind at 1, M_bind at 1. unfold Eff.bind at 1.
      unfold api at 1. cbn [creations accepted].
      change (creates_state (state_name, state_type, color_code))
        with (create_workflow_state team_id state_name state_type color_code
                ("PT " ++ lower state_name ++ " state")).
      destruct (remote e (trace w) _) as [j|x]; cbn [is_ok andb].
      * cbn [mret M_ret Eff.ret].
        destruct (IH (mk_world
                        (trace w ++ [create_workflow_state team_id state_name state_type
                                       color_code ("PT " ++ lower state_name ++ " state")])
                        (vars w))) as (r & Hrun & Hr).
        unfold for_each in Hrun. rewrite Hrun. exists r. cbn [trace vars] in *.
        by rewrite <- app_assoc.
      * eexists. by split.
Qed.

End LinearStates.

(** [setup_workflow_states] asks for the states of the team once and then
    creates, in the order of its list of six, the required states whose
    name is not among them, compared without case, and no other. With all
    six present the question is its only call. It returns when no creation
    is refused; the first creation that is refused ends it with a
    [ConfigurationError], and the states after it are not created. *)
Theorem workflow_states_are_created_once (team_id existing : json)
    (states : list json) (names : list string) e w :
  remote e (trace w) (Linear.get_workflow_states team_id) = Ok existing →
  iterate existing = Ok states →
  Forall2 known_as states names →
  let missing := List.filter (is_missing names) Linear.required_states in
  let asked := (trace w ++ [Linear.get_workflow_states team_id])%list in
  ∃ r,
    Linear.setup_workflow_states team_id e w
    = (r, mk_world (asked ++ creations team_id e asked missing) (vars w))
    ∧ match r with
      | Ok _ => accepted team_id e asked missing = true
      | Raise x => cls x = ConfigurationError ∧ accepted team_id e asked missing = false
      end.
Proof.
  intros Hget Hiter Hnames missing asked.
  unfold Linear.setup_workflow_states.
  unfold mbind at 1, M_bind at 1. unfold Eff.bind at 1. unfold api at 1. rewrite Hget.
  unfold mbind at 1, M_bind at 1. unfold Eff.bind at 1. unfold lift at 1. rewrite Hiter.
  unfold mbind at 1, M_bind at 1. unfold Eff.bind at 1.
  rewrite (existing_names_run states names Hnames []). cbn [app].
  destruct (create_missing_runs team_id names Linear.required_states e
              (mk_world (trace w ++ [Linear.get_workflow_states team_id]) (vars w)))
    as (r & Hrun & Hr).
  exists r. split; [exact Hrun|exact Hr].
Qed.

(** A team that has "Started" and "accepted" gets the four other
    states. *)
Definition linear_with_two_states : Eff.env Linear.call :=
  mk_env (λ _ c, match c with
                 | Linear.get_workflow_states _ =>
                     Ok (JList [JDict [("id", JStr "s1"); ("name", JStr "Started")];
                                JDict [("id", JStr "s2"); ("name", JStr "accepted")]])
                 | _ => Ok (JDict [])
                 end) (λ _, true).

Lemma workflow_states_are_created_once_witness :
  (Linear.setup_workflow_states (JStr "team-1") linear_with_two_states
     (mk_world [] Linear.initial)).2
  = mk_world
      (Linear.get_workflow_states (JStr "team-1")
         :: (creates_state (JStr "team-1")
             <$> [("Unstarted", "unstarted", "#FFB3BA");
                  ("Finished", "started", "#FFFFBA");
                  ("Delivered", "completed", "#BAFFC9");
                  ("Rejected", "unstarted", "#DFBAFF")]))
      Linear.initial.
Proof.
  destruct (workflow_states_are_created_once (JStr "team-1") _ _ ["started"; "accepted"]
              linear_with_two_states (mk_world [] Linear.initial) eq_refl eq_refl)
    as (r & Hrun & _).
  - constructor; [by exists "Started"|]. constructor; [by exists "accepted"|]. constructor.
  - rewrite Hrun. reflexivity.
Defined.

(** ** Linear: every run starts every project over *)

(** The file of processed teams is the same. *)
Definition same_teams_file : relation Linear.state :=
  λ st st', Linear.processed_teams_file st' = Linear.processed_teams_file st.

#[global] Instance same_teams_file_preorder : PreOrder same_teams_file.
Proof.
  split; [by intros st|]. intros a b c Hab Hbc. unfold same_teams_file in *. congruence.
Qed.

Lemma keeps_bind_fails {C S A B} (R : relation S) `{!PreOrder R}
    (m : Eff.M C S A) (k : A → Eff.M C S B) :
  keeps R m → fails m → keeps R (Eff.bind m k).
Proof.
  intros Hm Hf e w. unfold Eff.bind. specialize (Hm e w).
  destruct (Hf e w) as (x & w' & Hrun). by rewrite Hrun in *.
Qed.

Section LinearRuns.
Import Linear.

Lemma migrate_issues_keeps_file pt_stories linear_team_id pt_project_id :
  keeps same_teams_file (migrate_issues pt_stories linear_team_id pt_project_id).
Proof.
  unfold migrate_issues, get_label_epic_map.
  keeps_with @keeps_bind_fails; [keeps_step|apply fails_raise].
Qed.

Lemma migrate_project_keeps_file (pt_project : Project.t) (force_update : bool) :
  keeps same_teams_file (migrate_project pt_project force_update).
Proof.
  unfold migrate_project. cbv zeta.
  keeps_with @keeps_bind; [unfold get_processed_teams; keeps_any|]. intros processed.
  destruct (_ && _); [keeps_step|].
  keeps_with @keeps_catch; [|intros ?; keeps_step].
  keeps_with @keeps_bind.
  { unfold migrate_team, setup_team, setup_workflow_states, setup_labels. keeps_any. }
  intros linear_team.
  keeps_with @keeps_bind; [unfold migrate_users, migrate_user; keeps_any|]. intros ?.
  keeps_with @keeps_bind; [unfold migrate_projects, migrate_epic; keeps_any|]. intros ?.
  keeps_with @keeps_bind; [unfold migrate_cycles, migrate_cycle, isoformat; keeps_any|].
  intros ?.
  keeps_with @keeps_bind_fails; [apply migrate_issues_keeps_file|apply migrate_issues_fails].
Qed.

Lemma migrate_project_raises_only (pt_project : Project.t) (force_update : bool) :
  raises_only LinearMigrationError (migrate_project pt_project force_update).
Proof.
  intros e w x Hx.
  destruct (migrate_project_raises pt_project force_update e w) as (x' & w' & Hrun & Hcls).
  rewrite Hrun in Hx. injection Hx as <-. by rewrite Hcls.
Qed.

(** What one project adds to the trace: the creation of its team under
    its sanitized name, then whatever follows. The key of the team is the
    one [team_key] gives when the upper case of the name lies below code
    point 256. *)
Definition team_segment (pt_project : Project.t) (seg : list call) : Prop :=
  ∃ key rest,
    seg = create_team (sanitize_name (Project.name pt_project)) key
            (Project.description pt_project) :: rest
    ∧ (upper_below_256 (Project.name pt_project) →
       key = team_key (sanitize_name (Project.name pt_project))).

End LinearRuns.

(** With a file of processed teams that is absent or is text, whatever
    the text, the Linear [run_migration] never raises and never writes to
    that file, so that no project is ever skipped: with or without
    [force_update], every project of the list has its team created, in the
    order of the list. *)
Theorem linear_run_starts_every_project_over (pt_projects : list Project.t)
    (force_update : bool) e w :
  ∃ w' segs,
    LinearMain.run_migration pt_projects force_update e w = (Ok (), w')
    ∧ Linear.processed_teams_file (vars w') = Linear.processed_teams_file (vars w)
    ∧ trace w' = (trace w ++ List.concat segs)%list
    ∧ Forall2 team_segment pt_projects segs.
Proof.
  pose (turn := λ (_ : unit) (pt_project : Project.t),
          (catch LinearMigrationError
             (Linear.migrate_project pt_project force_update;; mret ())
             (λ _, mret ()) : Linear.M unit)).
  assert (Hok : ∀ acc x, never_raises (turn acc x)).
  { intros acc x. apply never_raises_catch; [|intros ?; apply never_raises_ret].
    apply raises_only_bind; [apply migrate_project_raises_only|].
    intros y. apply never_raises_only, never_raises_ret. }
  assert (Hseg : ∀ acc x e w, ∃ new,
             trace (turn acc x e w).2 = (trace w ++ new)%list ∧ team_segment x new).
  { intros acc x e0 w0.
    assert (Hs : starts_with
                   (λ c, c = Linear.create_team (Linear.sanitize_name (Project.name x))
                               (Linear.team_key (Linear.sanitize_name (Project.name x)))
                               (Project.description x))
                   (turn acc x)).
    { apply starts_catch; [|intros ?; apply emits_ret].
      apply starts_bind; [apply migrate_project_starts|]. intros ?. apply emits_ret. }
    destruct (Hs e0 w0) as (c & rest & -> & Ht).
    eexists. split; [exact Ht|]. by eexists _, rest. }
  assert (Hkeep : keeps same_teams_file (for_fold turn pt_projects ())).
  { keeps_with @keeps_for_fold. intros acc x. unfold turn.
    keeps_with @keeps_catch; [|intros ?; keeps_step].
    keeps_with @keeps_bind; [apply migrate_project_keeps_file|intros ?; keeps_step]. }
  destruct (for_fold_segments team_segment turn pt_projects e
              (λ acc x w, Hok acc x e w) (λ acc x w, Hseg acc x e w) () w)
    as (segs & Ht & Hsegs).
  assert (Hloop : never_raises (for_fold turn pt_projects ())).
  { by apply never_raises_for_fold. }
  specialize (Hloop e w). specialize (Hkeep e w).
  unfold LinearMain.run_migration, catch at 1.
  change (for_each _ pt_projects e w) with (for_fold turn pt_projects () e w).
  destruct (for_fold turn pt_projects () e w) as [[[]|x] w']; [|done].
  exists w', segs. by split_and!.
Qed.

(** ** Linear: the stories of the database *)

(** [migrate_issue] reads [owner_ids] and [label_ids] on the story it is
    given, and the rows of [models.Story] have neither: for a story of the
    database it raises before any call is made, with or without a priority,
    and leaves the state as it was. *)
Theorem linear_story_rows_are_not_migrated (story : Story.t) (linear_team_id : json) e w :
  ∃ x,
    Linear.migrate_issue (Linear.story_row story) linear_team_id e w = (Raise x, w)
    ∧ cls x = LinearIssueMigrationError.
Proof.
  unfold Linear.migrate_issue. rewrite catch_wrap.
  unfold Linear.story_row, Linear.attribute, Linear.map_priority. cbn [Linear.sv_story_priority Linear.sv_owner_ids].
  run_monad. cbv beta iota zeta.
  destruct (Story.story_priority story); cbv beta iota; rewrite ?world_eta; by eexists.
Qed.

(** ** Names, sanitized *)

Lemma str_take_min (n : nat) (s : string) :
  String.length (str_take n s) = Nat.min n (String.length s).
Proof.
  revert s. induction n as [|n IH]; intros [|c s]; cbn; try done. by rewrite IH.
Qed.

(** [sanitize_name] changes nothing in a name it has returned. With
    another [max_length] the result has at most that many characters when
    it is not negative; a negative [max_length] takes that many characters
    off the end of the name instead. *)
Theorem sanitize_name_is_idempotent (name : string) (max_length : Z) :
  Linear.sanitize_name (Linear.sanitize_name name) = Linear.sanitize_name name
  ∧ (0 ≤ max_length →
       Z.of_nat (String.length (Linear.sanitize_name_upto max_length name)) ≤ max_length)
  ∧ (max_length < 0 →
       Z.of_nat (String.length (Linear.sanitize_name_upto max_length name))
       ≤ Z.max 0 (Z.of_nat (String.length (str_filter Linear.allowed_char name))
                  + max_length)).
Proof.
  split_and!.
  - apply sanitize_name_clean.
    + apply sanitize_name_allowed.
    + apply sanitize_name_length.
    + intros c. apply sanitize_name_stripped.
    + intros c. apply sanitize_name_stripped.
  - intros Hm. unfold Linear.sanitize_name_upto, strip, slice_to.
    replace (0 <=? max_length) with true by (symmetry; apply Z.leb_le; lia).
    pose proof (rstrip_length (lstrip (str_take (Z.to_nat max_length)
                                         (str_filter Linear.allowed_char name)))).
    pose proof (lstrip_length (str_take (Z.to_nat max_length)
                                 (str_filter Linear.allowed_char name))).
    pose proof (str_take_length (Z.to_nat max_length) (str_filter Linear.allowed_char name)).
    lia.
  - intros Hm. unfold Linear.sanitize_name_upto, strip, slice_to.
    replace (0 <=? max_length) with false by (symmetry; apply Z.leb_gt; lia).
    set (s := str_filter Linear.allowed_char name).
    pose proof (rstrip_length (lstrip (str_take (String.length s - Z.to_nat (- max_length)) s))).
    pose proof (lstrip_length (str_take (String.length s - Z.to_nat (- max_length)) s)).
    pose proof (str_take_min (String.length s - Z.to_nat (- max_length)) s).
    lia.
Qed.

Lemma sanitize_name_is_idempotent_witness :
  Z.of_nat (String.length (Linear.sanitize_name_upto 4 "Fix: login")) ≤ 4
  ∧ Linear.sanitize_name_upto (-2) "Fix: login" = "Fix log".
Proof.
  split; [|reflexivity].
  apply (proj1 (proj2 (sanitize_name_is_idempotent "Fix: login" 4))). lia.
Defined.

(** ** Jira: a story and the epic of its labels *)

Section JiraEpicLinks.
Import Jira.

Variable label_mapping : gmap string Z.
Variable epic_map : gmap Z json.

(** The epics of the labels of a story, in the order of the labels. *)
Definition epics_of (labels : list string) : list json :=
  omap (λ label_name, label_mapping !! label_name ≫= (epic_map !!.)) labels.

(** The remote refuses no call. *)
Definition accepts_all {C} (e : Eff.env C) : Prop :=
  ∀ history c, is_ok (remote e history c) = true.

Lemma link_first_runs (jira_issue_key : json) (labels : list string) e :
  ∀ w : Eff.world call state,
    ∃ k,
      link_first label_mapping epic_map jira_issue_key labels e w
      = (Ok (), mk_world (trace w ++ (link_issue_to_epic jira_issue_key
                                      <$> take k (epics_of labels)))
                  (vars w))
      ∧ (accepts_all e → k = 1%nat).
Proof.
  induction labels as [|label_name rest IH]; intros w.
  - exists 1%nat. cbn. by rewrite app_nil_r, world_eta.
  - cbn [link_first]. unfold epics_of. cbn [omap list_omap]. fold (epics_of rest).
    destruct (label_mapping !! label_name ≫= _) as [epic_key|]; [|apply IH].
    unfold mbind at 1, M_bind at 1. unfold Eff.bind at 1. unfold catch at 1.
    unfold mbind at 1, M_bind at 1. unfold Eff.bind at 1. unfold api at 1.
    destruct (remote e (trace w) (link_issue_to_epic jira_issue_key epic_key))
      as [j|x] eqn:Hrem.
    + cbn [mret M_ret Eff.ret]. exists 1%nat. cbn [take fmap list_fmap].
      rewrite take_0. by split.
    + rewrite issubclass_Exception. cbn [mret M_ret Eff.ret].
      destruct (IH (mk_world (trace w ++ [link_issue_to_epic jira_issue_key epic_key])
                      (vars w))) as (k & Hrun & Hk).
      rewrite Hrun. exists (S k). cbn [trace vars take fmap list_fmap].
      rewrite <- app_assoc. split; [done|]. intros Hacc.
      specialize (Hacc (trace w) (link_issue_to_epic jira_issue_key epic_key)).
      by rewrite Hrem in Hacc.
Qed.

(** What one story adds to the trace: nothing when it has no issue;
    otherwise links of its issue to the first epics of its labels, one
    only when the remote refuses no call. *)
Definition link_segment (jira_issue_map : gmap Z json) (e : Eff.env call)
    (pt_story : prepared_story) (seg : list call) : Prop :=
  match jira_issue_map !! ps_id pt_story with
  | Some jira_issue_key =>
      if truthy jira_issue_key then
        ∃ k, seg = link_issue_to_epic jira_issue_key
                   <$> take k (epics_of (ps_labels pt_story))
             ∧ (accepts_all e → k = 1%nat)
      else seg = []
  | None => seg = []
  end.

End JiraEpicLinks.

(** [link_issues_to_epics] never raises and leaves the state as it was.
    For each story in turn that has an issue, it links the issue to the
    epics of the labels of the story, in their order, until a link is
    accepted: with a Jira that refuses no call, to the epic of the first
    label that has one and to no other. *)
Theorem jira_story_is_linked_to_first_epic (jira_issue_map epic_map : gmap Z json)
    (pt_stories : list Jira.prepared_story) (label_mapping : gmap string Z) e w :
  ∃ w' segs,
    Jira.link_issues_to_epics jira_issue_map epic_map pt_stories label_mapping e w
    = (Ok (), w')
    ∧ vars w' = vars w
    ∧ trace w' = (trace w ++ List.concat segs)%list
    ∧ Forall2 (link_segment label_mapping epic_map jira_issue_map e) pt_stories segs.
Proof.
  pose (turn := λ (_ : unit) (pt_story : Jira.prepared_story),
          (match jira_issue_map !! Jira.ps_id pt_story with
           | Some jira_issue_key =>
               if truthy jira_issue_key
               then Jira.link_first label_mapping epic_map jira_issue_key
                      (Jira.ps_labels pt_story)
               else mret ()
           | None => mret ()
           end : Jira.M unit)).
  assert (Hturn : ∀ x w0, ∃ seg,
             turn () x e w0 = (Ok (), mk_world (trace w0 ++ seg) (vars w0))
             ∧ link_segment label_mapping epic_map jira_issue_map e x seg).
  { intros x w0. unfold turn, link_segment.
    destruct (jira_issue_map !! Jira.ps_id x) as [key|].
    - destruct (truthy key).
      + destruct (link_first_runs label_mapping epic_map key (Jira.ps_labels x) e w0)
          as (k & Hrun & Hk).
        eexists. split; [exact Hrun|]. by exists k.
      + exists []. by rewrite app_nil_r, world_eta.
    - exists []. by rewrite app_nil_r, world_eta. }
  assert (Hloop : ∀ l w0, ∃ segs,
             for_fold turn l () e w0 = (Ok (), mk_world (trace w0 ++ List.concat segs) (vars w0))
             ∧ Forall2 (link_segment label_mapping epic_map jira_issue_map e) l segs).
  { induction l as [|x l IH]; intros w0.
    - exists []. cbn. by rewrite app_nil_r, world_eta.
    - cbn [for_fold]. unfold Eff.bind at 1.
      destruct (Hturn x w0) as (seg & -> & Hseg).
      destruct (IH (mk_world (trace w0 ++ seg) (vars w0))) as (segs & -> & Hsegs).
      exists (seg :: segs). cbn [trace vars List.concat]. rewrite <- app_assoc.
      split; [done|]. by constructor. }
  destruct (Hloop pt_stories w) as (segs & Hrun & Hsegs).
  eexists _, segs. split; [exact Hrun|]. by split_and!.
Qed.

(** ** Jira: labels by name *)

(** [get_pt_label_mapping] maps the name of a label to its id; of labels
    with the same name, the last one is kept. *)
Theorem label_mapping_keeps_last (labels : list Label.t) (name : string) :
  Jira.get_pt_label_mapping labels !! name
  = Label.id <$> last (List.filter (λ label, bool_decide (Label.name label = name)) labels).
Proof.
  unfold Jira.get_pt_label_mapping.
  induction labels as [|label labels IH] using rev_ind; [done|].
  rewrite foldl_app, List.filter_app. cbn [foldl List.filter].
  destruct (decide (Label.name label = name)) as [<-|Hne].
  - rewrite lookup_insert_eq, bool_decide_eq_true_2 by done. by rewrite last_snoc.
  - rewrite lookup_insert_ne, bool_decide_eq_false_2 by done. by rewrite app_nil_r.
Qed.

(** ** Linear: epics and iterations with a missing value *)

(** An epic without a name and an iteration without a start or a finish
    are not migrated: [migrate_epic] and [migrate_cycle] raise before any
    call is made, and [migrate_projects] and [migrate_cycles], which go on
    to the next one, give them no entry in their maps. *)
Theorem linear_missing_values_are_skipped :
  (∀ (pt_epic : Epic.t) team_id e w,
     Epic.name pt_epic = None →
     ∃ x, Linear.migrate_epic pt_epic team_id e w = (Raise x, w)
          ∧ cls x = LinearProjectCreationError)
  ∧ (∀ pt_project (pt_iteration : Iteration.t) team_id e w,
       Iteration.start pt_iteration = None ∨ Iteration.finish pt_iteration = None →
       ∃ x, Linear.migrate_cycle pt_project pt_iteration team_id e w = (Raise x, w)
            ∧ cls x = CycleMigrationError)
  ∧ (∀ (pt_epics : list Epic.t) team_id e w,
       Forall (λ pt_epic, Epic.name pt_epic = None) pt_epics →
       Linear.migrate_projects pt_epics team_id e w
       = (Ok (Linear.project_map (vars w)), w))
  ∧ (∀ (pt_iterations : list Iteration.t) team_id pt_project e w,
       Forall (λ it, Iteration.start it = None ∨ Iteration.finish it = None)
         pt_iterations →
       Linear.migrate_cycles pt_iterations team_id pt_project e w
       = (Ok (Linear.cycle_map (vars w)), w)).
Proof.
  assert (Hepic : ∀ (pt_epic : Epic.t) team_id e w,
            Epic.name pt_epic = None →
            ∃ x, Linear.migrate_epic pt_epic team_id e w = (Raise x, w)
                 ∧ cls x = LinearProjectCreationError).
  { intros pt_epic team_id e w Hname. unfold Linear.migrate_epic.
    rewrite catch_wrap, Hname. run_monad. by eexists. }
  assert (Hcycle : ∀ pt_project (pt_iteration : Iteration.t) team_id e w,
            Iteration.start pt_iteration = None ∨ Iteration.finish pt_iteration = None →
            ∃ x, Linear.migrate_cycle pt_project pt_iteration team_id e w = (Raise x, w)
                 ∧ cls x = CycleMigrationError).
  { intros pt_project pt_iteration team_id e w Hdate. unfold Linear.migrate_cycle.
    rewrite catch_wrap. unfold Linear.isoformat. run_monad.
    destruct Hdate as [-> | ->]; [by eexists|].
    destruct (Iteration.start pt_iteration); by eexists. }
  split_and!; [exact Hepic|exact Hcycle| |].
  - intros pt_epics team_id e w Hall. unfold Linear.migrate_projects.
    assert (Hloop : for_each
                      (λ pt_epic,
                         catch LinearProjectCreationError
                           (linear_project ← Linear.migrate_epic pt_epic team_id;
                            modify (Linear.set_project_map <[Epic.id pt_epic := linear_project]>))
                           (λ _, mret ()))
                      pt_epics e w = (Ok (), w)).
    { induction Hall as [|pt_epic pt_epics Hname _ IH]; [done|].
      unfold for_each. cbn [for_fold]. unfold Eff.bind at 1. unfold catch at 1.
      unfold mbind at 1, M_bind at 1. unfold Eff.bind at 1.
      destruct (Hepic pt_epic team_id e w Hname) as (x & -> & ->).
      cbn [mret M_ret Eff.ret]. exact IH. }
    unfold mbind at 1, M_bind at 1. unfold Eff.bind at 1. by rewrite Hloop.
  - intros pt_iterations team_id pt_project e w Hall. unfold Linear.migrate_cycles.
    assert (Hloop : for_each
                      (λ pt_iteration,
                         catch CycleMigrationError
                           (linear_cycle ← Linear.migrate_cycle pt_project pt_iteration team_id;
                            modify (Linear.set_cycle_map
                                      <[Iteration.number pt_iteration := linear_cycle]>))
                           (λ _, mret ()))
                      pt_iterations e w = (Ok (), w)).
    { induction Hall as [|pt_iteration pt_iterations Hdate _ IH]; [done|].
      unfold for_each. cbn [for_fold]. unfold Eff.bind at 1. unfold catch at 1.
      unfold mbind at 1, M_bind at 1. unfold Eff.bind at 1.
      destruct (Hcycle pt_project pt_iteration team_id e w Hdate) as (x & -> & ->).
      cbn [mret M_ret Eff.ret]. exact IH. }
    unfold mbind at 1, M_bind at 1. unfold Eff.bind at 1. by rewrite Hloop.
Qed.

Lemma linear_missing_values_are_skipped_witness :
  ∃ x, Linear.migrate_cycle ten_story_project (Iteration.mk 3 (Some "2024-01-01") None [])
         (JStr "team-1") empty_answers (mk_world [] Linear.initial)
       = (Raise x, mk_world [] Linear.initial)
       ∧ cls x = CycleMigrationError.
Proof.
  apply (proj1 (proj2 linear_missing_values_are_skipped)). by right.
Defined.

(** ** Jira: a project with iterations needs its sprints *)

Lemma bind_returns {C S A B} (m : Eff.M C S A) (k : A → Eff.M C S B) e w b w' :
  Eff.bind m k e w = (Ok b, w') →
  ∃ a w1, m e w = (Ok a, w1) ∧ k a e w1 = (Ok b, w').
Proof.
  unfold Eff.bind. destruct (m e w) as [[a|x] w1]; [|done]. intros H. by exists a, w1.
Qed.

(** No board can be created, or no sprint. *)
Definition no_sprints (e : Eff.env Jira.call) : Prop :=
  (∀ history key filter_id,
     is_ok (remote e history (Jira.create_board key filter_id)) = false)
  ∨ (∀ history data, is_ok (remote e history (Jira.create_sprint data)) = false).

Section JiraSprintsNeeded.
Import Jira.

(** Without a board no sprint is created, and no call is made for one. *)
Lemma migrate_sprint_no_board (jira_project : JiraProject.t)
    (pt_iteration : prepared_iteration) e w :
  JiraProject.board_id jira_project = None →
  ∃ x, migrate_sprint jira_project pt_iteration e w = (Raise x, w)
       ∧ cls x = SprintMigrationError.
Proof.
  intros Hboard. unfold migrate_sprint. rewrite catch_wrap, Hboard. run_monad.
  by eexists.
Qed.

Lemma migrate_sprint_refused (jira_project : JiraProject.t)
    (pt_iteration : prepared_iteration) e w :
  (∀ history data, is_ok (remote e history (create_sprint data)) = false) →
  ∃ x w', migrate_sprint jira_project pt_iteration e w = (Raise x, w')
          ∧ cls x = SprintMigrationError.
Proof.
  intros Hrefused. unfold migrate_sprint. rewrite catch_wrap.
  destruct (JiraProject.board_id jira_project) as [board|].
  - run_monad.
    match goal with
    | |- context [remote e ?h (create_sprint ?d)] =>
        pose proof (Hrefused h d) as Hr; destruct (remote e h (create_sprint d)); [done|]
    end.
    by eexists _, _.
  - run_monad. by eexists _, _.
Qed.

Lemma migrate_sprints_no_board (jira_project : JiraProject.t)
    (pt_iterations : list prepared_iteration) e w :
  JiraProject.board_id jira_project = None →
  migrate_sprints jira_project pt_iterations e w = (Ok ∅, w).
Proof.
  intros Hboard. unfold migrate_sprints. generalize (∅ : gmap Z json) as sprint_map.
  induction pt_iterations as [|it its IH]; intros sprint_map; [done|].
  cbn [for_fold]. unfold Eff.bind at 1. unfold catch at 1.
  unfold mbind at 1, M_bind at 1. unfold Eff.bind at 1.
  destruct (migrate_sprint_no_board jira_project it e w Hboard) as (x & -> & ->).
  rewrite issubclass_refl. cbn [mret M_ret Eff.ret]. apply IH.
Qed.

Lemma migrate_sprints_refused (jira_project : JiraProject.t)
    (pt_iterations : list prepared_iteration) e w :
  (∀ history data, is_ok (remote e history (create_sprint data)) = false) →
  ∃ w', migrate_sprints jira_project pt_iterations e w = (Ok ∅, w').
Proof.
  intros Hrefused. unfold migrate_sprints. generalize (∅ : gmap Z json) as sprint_map.
  revert w. induction pt_iterations as [|it its IH]; intros w sprint_map; [by eexists|].
  cbn [for_fold]. unfold Eff.bind at 1. unfold catch at 1.
  unfold mbind at 1, M_bind at 1. unfold Eff.bind at 1.
  destruct (migrate_sprint_refused jira_project it e w Hrefused) as (x & w' & -> & ->).
  rewrite issubclass_refl. cbn [mret M_ret Eff.ret]. apply IH.
Qed.

(** The project [migrate] returns has no board when none can be
    created. *)
Lemma migrate_without_board (cfg : config) (pt_project : Project.t) e w jira_project w' :
  (∀ history key filter_id, is_ok (remote e history (create_board key filter_id)) = false) →
  migrate cfg pt_project e w = (Ok jira_project, w') →
  JiraProject.board_id jira_project = None.
Proof.
  intros Hrefused. unfold migrate. cbv zeta. intros H.
  apply bind_returns in H as (data & w1 & _ & H).
  apply bind_returns in H as (key & w2 & _ & H).
  apply bind_returns in H as (url & w3 & _ & H).
  apply bind_returns in H as (board_id & w4 & Hboard & H).
  assert (board_id = None) as ->.
  { revert Hboard. unfold catch.
    unfold mbind at 1, M_bind at 1. unfold Eff.bind at 1. unfold api at 1.
    destruct (remote e (trace w3) (create_filter_for_project key)) as [filter|x].
    2: { rewrite issubclass_Exception. cbn [mret M_ret Eff.ret]. by intros [= <- _]. }
    unfold mbind at 1, M_bind at 1. unfold Eff.bind at 1. unfold lift at 1.
    destruct (getitem filter "id") as [filter_id|x].
    2: { rewrite issubclass_Exception. cbn [mret M_ret Eff.ret]. by intros [= <- _]. }
    unfold mbind at 1, M_bind at 1. unfold Eff.bind at 1. unfold api at 1.
    cbn [trace].
    pose proof (Hrefused (trace w3 ++ [create_filter_for_project key])%list key filter_id)
      as Hr.
    destruct (remote e _ (create_board key filter_id)) as [?|x]; [done|].
    rewrite issubclass_Exception. cbn [mret M_ret Eff.ret]. by intros [= <- _]. }
  apply bind_returns in H as (screen_ids & w5 & _ & H).
  apply bind_returns in H as (screens & w6 & _ & H).
  apply bind_returns in H as (u & w7 & _ & H).
  apply bind_returns in H as (admin_role & w8 & _ & H).
  destruct (negb (truthy admin_role)); [done|].
  apply bind_returns in H as (u' & w9 & _ & H).
  cbn [mret M_ret Eff.ret] in H. by injection H as <- _.
Qed.

End JiraSprintsNeeded.

(** A Jira project whose board could not be created, or for which no
    sprint can be created, is not imported when the source project has an
    iteration: the sprint of the first iteration is looked up and missing,
    so [migrate_project] never returns a Jira project, and the file of
    imported projects is left as it was. *)
Theorem project_with_iterations_needs_sprints (cfg : Jira.config) (pt_project : Project.t)
    (force_update : bool) e w :
  Project.iterations pt_project ≠ [] →
  no_sprints e →
  ∃ r w',
    Jira.migrate_project cfg pt_project force_update e w = (r, w')
    ∧ (∀ jira_project, r ≠ Ok (Some jira_project))
    ∧ Jira.imported_projects_file (vars w') = Jira.imported_projects_file (vars w).
Proof.
  intros Hits Hno. unfold Jira.migrate_project. cbv zeta.
  unfold mbind at 1, M_bind at 1. unfold Eff.bind at 1.
  pose proof (get_imported_projects_reads e w) as Hw.
  destruct (Jira.get_imported_projects e w) as [[l|x] w0]; cbn [snd] in Hw; subst w0.
  2: { by eexists _, _. }
  destruct (bool_decide _ && negb force_update).
  { by eexists _, _. }
  rewrite catch_wrap.
  pose proof (migrate_project_body_marks cfg pt_project e w) as Hm. revert Hm.
  match goal with
  | |- context [let (_, _) := ?m e w in _] => destruct (m e w) as [[r|x] w'] eqn:Hrun
  end; cbn [fst snd]; intros Hm.
  2: { by eexists _, _. }
  exfalso. clear Hm.
  apply bind_returns in Hrun as (jira_project & w1 & Hmig & Hrun).
  apply bind_returns in Hrun as (u1 & w2 & _ & Hrun).
  apply bind_returns in Hrun as (epic_map & w3 & _ & Hrun).
  apply bind_returns in Hrun as (issue_map & w4 & _ & Hrun).
  apply bind_returns in Hrun as (u2 & w5 & _ & Hrun).
  apply bind_returns in Hrun as (u3 & w6 & _ & Hrun).
  apply bind_returns in Hrun as (u4 & w7 & Hsprints & _).
  destruct (Project.iterations pt_project) as [|pt_iteration pt_iterations]; [done|].
  cbn [Jira._prepare_iterations fmap list_fmap] in Hsprints.
  apply bind_returns in Hsprints as (sprint_map & w8 & Hmap & Hloop).
  assert (sprint_map = ∅) as ->.
  { destruct Hno as [Hboard|Hsprint].
    - rewrite migrate_sprints_no_board in Hmap
        by (by eapply migrate_without_board).
      by injection Hmap as <- _.
    - edestruct migrate_sprints_refused as (w9 & Hrefused); [exact Hsprint|].
      rewrite Hrefused in Hmap. by injection Hmap as <- _. }
  unfold for_each in Hloop. cbn [for_fold] in Hloop.
  apply bind_returns in Hloop as (u5 & w9 & Hfirst & _).
  apply bind_returns in Hfirst as (sprint_id & w10 & Hlookup & _).
  unfold Jira.lookup_or_raise in Hlookup. by rewrite lookup_empty in Hlookup.
Qed.

(** Jira refuses every board. *)
Definition jira_without_boards (history : list Jira.call) (c : Jira.call) : result json :=
  match c with
  | Jira.create_board _ _ =>
      Raise (mk_exn JiraAPIError "HTTP Error: 400, message='Bad Request: ', url=''")
  | _ => jira_accepts history c
  end.

Definition a_project_with_an_iteration : Project.t :=
  Project.mk 7 "Apollo" None [] [] [] [Iteration.mk 1 None None []] [].

Lemma project_with_iterations_needs_sprints_witness :
  ∃ r w',
    Jira.migrate_project jira_config a_project_with_an_iteration true
      (mk_env jira_without_boards (λ _, true)) jira_start = (r, w')
    ∧ (∀ jira_project, r ≠ Ok (Some jira_project))
    ∧ Jira.imported_projects_file (vars w') = Jira.imported_projects_file (vars jira_start).
Proof.
  apply (project_with_iterations_needs_sprints jira_config a_project_with_an_iteration true
           (mk_env jira_without_boards (λ _, true)) jira_start).
  - discriminate.
  - left. intros history key filter_id. reflexivity.
Defined.
